(** * translate-to-english: the speech capture and chunking orchestrator

    A shallow embedding of the two TypeScript classes that make up the
    listening pipeline,

    - [SpeechRecognitionService] (the listening supervisor: intent flags,
      restart backoff, inactivity timeout), and
    - [TranslatorComponent] (the speech buffer, sentence extraction, chunk
      packing, the ordered list of translation segments, and the debounced
      translation of typed text),

    together with the properties their specification states about them.

    JavaScript strings are sequences of UTF-16 code units; they are modelled
    as [list N].  Error kinds and language codes, which the program only
    compares and passes along, are [string]s.  Timers are entries of an
    explicit timer table with a clock; the streams the service publishes
    (errors, listening state, transcripts) and the calls it makes on the
    recognition engine are output logs carried in the state.  Of the
    translation service the component sees the callbacks of its requests,
    which are events, and the one error [translate] can throw while it
    builds a request. *)

From Stdlib Require Import NArith ZArith List Lia Bool String Ascii Sorted.
From stdpp Require Import base list.
Import ListNotations.

(** ** JavaScript strings *)

Module JS.

Abbreviation jsstring := (list N).

(** The code units of an ASCII literal. *)
Fixpoint lit (s : string) : jsstring :=
  match s with
  | EmptyString => []
  | String a s' => N_of_ascii a :: lit s'
  end.

Definition SPACE : N := 32%N.

(** ECMAScript [WhiteSpace] and [LineTerminator] code points: the set that
    both [String.prototype.trim] and the regular expression class [\s]
    use. *)
Definition isWhitespace (u : N) : bool :=
  ((9 <=? u) && (u <=? 13) || (u =? 32) || (u =? 160) || (u =? 5760)
   || (8192 <=? u) && (u <=? 8202) || (u =? 8232) || (u =? 8233)
   || (u =? 8239) || (u =? 8287) || (u =? 12288) || (u =? 65279))%N.

Fixpoint trimStart (s : jsstring) : jsstring :=
  match s with
  | [] => []
  | u :: s' => if isWhitespace u then trimStart s' else s
  end.

Definition trimEnd (s : jsstring) : jsstring := rev (trimStart (rev s)).

(** [s.trim()] *)
Definition trim (s : jsstring) : jsstring := trimEnd (trimStart s).

(** [s.replace(/\s+/g, ' ')]: every maximal run of whitespace becomes one
    space.  [inRun] records that the previous unit was whitespace. *)
Fixpoint replaceWsRuns (inRun : bool) (s : jsstring) : jsstring :=
  match s with
  | [] => []
  | u :: s' =>
      if isWhitespace u
      then (if inRun then replaceWsRuns true s' else SPACE :: replaceWsRuns true s')
      else u :: replaceWsRuns false s'
  end.

Definition collapseWhitespace (s : jsstring) : jsstring := replaceWsRuns false s.

Definition isHighSurrogate (u : N) : bool := ((55296 <=? u) && (u <=? 56319))%N.
Definition isLowSurrogate (u : N) : bool := ((56320 <=? u) && (u <=? 57343))%N.

(** The string iterator behind [for (const ch of s)]: one string per code
    point, a surrogate pair staying together. *)
Fixpoint stringIterator (s : jsstring) : list jsstring :=
  match s with
  | [] => []
  | h :: rest =>
      match rest with
      | l :: rest' =>
          if isHighSurrogate h && isLowSurrogate l
          then [h; l] :: stringIterator rest'
          else [h] :: stringIterator rest
      | [] => [[h]]
      end
  end.

(** [s.lastIndexOf(c)] for a one-unit needle: the index of the last
    occurrence, [-1] when there is none. *)
Fixpoint lastIndexOf (c : N) (s : jsstring) : Z :=
  match s with
  | [] => (-1)%Z
  | u :: s' =>
      let r := lastIndexOf c s' in
      if (0 <=? r)%Z then (r + 1)%Z
      else if (u =? c)%N then 0%Z else (-1)%Z
  end.

(** [s.slice(0, n)] and [s.slice(n)] for [0 <= n]. *)
Definition sliceTo (n : nat) (s : jsstring) : jsstring := take n s.
Definition sliceFrom (n : nat) (s : jsstring) : jsstring := drop n s.

(** Truthiness of a string: non-empty. *)
Definition truthy (s : jsstring) : bool :=
  match s with [] => false | _ => true end.

(** [parts.join(sep)] *)
Fixpoint join (sep : jsstring) (parts : list jsstring) : jsstring :=
  match parts with
  | [] => []
  | [p] => p
  | p :: ps => p ++ sep ++ join sep ps
  end.

(** Every unit that is not whitespace, in order. *)
Fixpoint stripWs (s : jsstring) : jsstring :=
  match s with
  | [] => []
  | u :: s' => if isWhitespace u then stripWs s' else u :: stripWs s'
  end.

(** No unpaired surrogate: every high surrogate is followed by a low one,
    and every low one follows a high one.  [encodeURIComponent(s)] throws
    a [URIError] exactly when [s] is not of this form. *)
Fixpoint wellFormed (s : jsstring) : bool :=
  match s with
  | [] => true
  | u :: rest =>
      if isHighSurrogate u then
        match rest with
        | l :: rest' => isLowSurrogate l && wellFormed rest'
        | [] => false
        end
      else if isLowSurrogate u then false
      else wellFormed rest
  end.

(** [a === b] on strings. *)
Fixpoint sameString (a b : jsstring) : bool :=
  match a, b with
  | [], [] => true
  | u :: a', v :: b' => (u =? v)%N && sameString a' b'
  | _, _ => false
  end.

End JS.

(** ** The speech bufferer: sentence extraction and chunk packing

    The pure string helpers of [TranslatorComponent]. *)

Module Bufferer.
Import JS.

(** [isSentenceTerminator(ch)]: [.], [!], [?] and their CJK fullwidth
    forms U+3002, U+FF01, U+FF1F. *)
Definition isSentenceTerminator (ch : jsstring) : bool :=
  match ch with
  | [u] => ((u =? 46) || (u =? 33) || (u =? 63)
            || (u =? 12290) || (u =? 65281) || (u =? 65311))%N
  | _ => false
  end.

(** One turn of the [for (const ch of cleaned)] loop; the loop state is
    the pair (completed, current). *)
Definition extractStep (acc : list jsstring * jsstring) (ch : jsstring)
  : list jsstring * jsstring :=
  let '(completed, current) := acc in
  let current := current ++ ch in
  if isSentenceTerminator ch then
    let s := trim current in
    ((if truthy s then completed ++ [s] else completed), [])
  else (completed, current).

Definition extractLoop (chars : list jsstring) (acc : list jsstring * jsstring)
  : list jsstring * jsstring :=
  fold_left extractStep chars acc.

(** [extractCompletedSentences(text)], returning (completed, remainder). *)
Definition extractCompletedSentences (text : jsstring) : list jsstring * jsstring :=
  let cleaned := trim (collapseWhitespace text) in
  if negb (truthy cleaned) then ([], [])
  else
    let '(completed, current) := extractLoop (stringIterator cleaned) ([], []) in
    (completed, trim current).

(** [joinWithSpace(a, b)] *)
Definition joinWithSpace (a b : jsstring) : jsstring :=
  let left := trim a in
  let right := trim b in
  if negb (truthy left) then right
  else if negb (truthy right) then left
  else left ++ [SPACE] ++ right.

(** The test [lastSpace > maxChars * 0.6].  It is taken over the exact
    product, [5 * lastSpace > 3 * maxChars]; at 450, the only budget the
    program ever passes, the double product is exactly 270. *)
Definition pastSixTenths (lastSpace : Z) (maxChars : nat) : bool :=
  (3 * Z.of_nat maxChars <? 5 * lastSpace)%Z.

(** [truncateForQuery(text, maxChars)] *)
Definition truncateForQuery (text : jsstring) (maxChars : nat) : jsstring :=
  let t := trim text in
  if (length t <=? maxChars)%nat then t
  else
    let slice := sliceTo maxChars t in
    let lastSpace := lastIndexOf SPACE slice in
    if pastSixTenths lastSpace maxChars
    then trim (sliceTo (Z.to_nat lastSpace) slice)
    else trim slice.

(** Where [chunkText] cuts a string that is longer than the budget. *)
Definition cutAt (remaining : jsstring) (maxChars : nat) : nat :=
  let slice := sliceTo maxChars remaining in
  let lastSpace := lastIndexOf SPACE slice in
  if pastSixTenths lastSpace maxChars then Z.to_nat lastSpace else maxChars.

(** The [while (remaining.length > maxChars)] loop of [chunkText], on the
    pair (chunks, remaining).  Each turn costs one unit of fuel; [None]
    means the fuel ran out before the loop condition failed. *)
Fixpoint chunkLoop (fuel : nat) (maxChars : nat)
  (chunks : list jsstring) (remaining : jsstring)
  : option (list jsstring * jsstring) :=
  if (maxChars <? length remaining)%nat then
    match fuel with
    | O => None
    | S fuel' =>
        let cut := cutAt remaining maxChars in
        let chunk := trim (sliceTo cut remaining) in
        let chunks := if truthy chunk then chunks ++ [chunk] else chunks in
        chunkLoop fuel' maxChars chunks (trim (sliceFrom cut remaining))
    end
  else Some (chunks, remaining).

(** [chunkText(text, maxChars)].  A turn of the loop removes at least one
    unit when [maxChars] is positive, so the length of the text is enough
    fuel (lemma [chunkText_total]). *)
Definition chunkText (text : jsstring) (maxChars : nat) : option (list jsstring) :=
  let t := trim text in
  if negb (truthy t) then Some []
  else if (length t <=? maxChars)%nat then Some [t]
  else
    match chunkLoop (length t) maxChars [] t with
    | None => None
    | Some (chunks, remaining) =>
        Some (if truthy remaining then chunks ++ [remaining] else chunks)
    end.

(** The local closure [flush] of [packIntoChunks], on the pair (out, buf). *)
Definition packFlush (maxChars : nat) (st : list jsstring * jsstring)
  : option (list jsstring * jsstring) :=
  let '(out, buf) := st in
  let t := trim buf in
  if truthy t then
    match chunkText t maxChars with
    | None => None
    | Some cs => Some (out ++ cs, [])
    end
  else Some (out, []).

(** One turn of [for (const raw of parts)]. *)
Definition packStep (maxChars : nat) (st : list jsstring * jsstring) (raw : jsstring)
  : option (list jsstring * jsstring) :=
  let '(out, buf) := st in
  let p := trim raw in
  if negb (truthy p) then Some st
  else if negb (truthy buf) then Some (out, p)
  else
    let candidate := trim (buf ++ [SPACE] ++ p) in
    if (length candidate <=? maxChars)%nat then Some (out, candidate)
    else
      match packFlush maxChars st with
      | None => None
      | Some (out', _) => Some (out', p)
      end.

Fixpoint packLoop (maxChars : nat) (parts : list jsstring)
  (st : list jsstring * jsstring) : option (list jsstring * jsstring) :=
  match parts with
  | [] => Some st
  | raw :: parts' =>
      match packStep maxChars st raw with
      | None => None
      | Some st' => packLoop maxChars parts' st'
      end
  end.

(** [packIntoChunks(parts, maxChars)] *)
Definition packIntoChunks (parts : list jsstring) (maxChars : nat)
  : option (list jsstring) :=
  match packLoop maxChars parts ([], []) with
  | None => None
  | Some st =>
      match packFlush maxChars st with
      | None => None
      | Some (out, _) => Some out
      end
  end.

(** The budget [flushSpeechBuffer] and [appendSegment] pass. *)
Definition MAX_CHARS : nat := 450.

(** The list [toTranslate] that [flushSpeechBuffer] builds from the
    trimmed buffer, and the remainder beside it. *)
Definition toTranslate (force : bool) (input : jsstring) : list jsstring * jsstring :=
  let '(completed, remainder0) := extractCompletedSentences input in
  let remainder := trim remainder0 in
  ((if force then completed ++ (if truthy remainder then [remainder] else [])
    else completed),
   remainder).

End Bufferer.

(** ** Timers

    [setTimeout] and [clearTimeout] over an explicit table of outstanding
    timers.  A handle is a positive integer, never reused; a cleared or
    fired timer leaves the table, and clearing a handle that is not in the
    table does nothing. *)

Module Timers.

Inductive kind := Inactivity | Restart | Pause | Scroll.

Definition kind_eqb (a b : kind) : bool :=
  match a, b with
  | Inactivity, Inactivity | Restart, Restart | Pause, Pause | Scroll, Scroll => true
  | _, _ => false
  end.

Definition handle := positive.

Record entry := { e_handle : handle; e_kind : kind; e_due : N }.

Record table := {
  now : N;              (* the clock, in milliseconds *)
  nextHandle : handle;  (* the next handle [setTimeout] returns *)
  pending : list entry  (* armed, neither fired nor cleared *)
}.

Definition empty : table := {| now := 0%N; nextHandle := 1%positive; pending := [] |}.

(** [setTimeout(callback, delay)]: the callback is named by its kind. *)
Definition setTimeout (k : kind) (delay : N) (t : table) : handle * table :=
  (nextHandle t,
   {| now := now t;
      nextHandle := Pos.succ (nextHandle t);
      pending := pending t ++ [{| e_handle := nextHandle t; e_kind := k;
                                  e_due := (now t + delay)%N |}] |}).

Fixpoint remove (h : handle) (l : list entry) : list entry :=
  match l with
  | [] => []
  | e :: l' => if Pos.eqb (e_handle e) h then remove h l' else e :: remove h l'
  end.

(** [clearTimeout(h)] *)
Definition clearTimeout (h : handle) (t : table) : table :=
  {| now := now t; nextHandle := nextHandle t; pending := remove h (pending t) |}.

Fixpoint lookup (h : handle) (l : list entry) : option entry :=
  match l with
  | [] => None
  | e :: l' => if Pos.eqb (e_handle e) h then Some e else lookup h l'
  end.

(** The timer [h] expires: it must be outstanding and due.  It leaves the
    table before its callback runs. *)
Definition expire (h : handle) (t : table) : option (kind * table) :=
  match lookup h (pending t) with
  | Some e =>
      if (e_due e <=? now t)%N
      then Some (e_kind e, clearTimeout h t)
      else None
  | None => None
  end.

(** Time passes. *)
Definition elapse (dt : N) (t : table) : table :=
  {| now := (now t + dt)%N; nextHandle := nextHandle t; pending := pending t |}.

(** The outstanding timers of one kind. *)
Fixpoint outstanding (k : kind) (l : list entry) : list entry :=
  match l with
  | [] => []
  | e :: l' => if kind_eqb (e_kind e) k then e :: outstanding k l' else outstanding k l'
  end.

End Timers.

(** ** The listening supervisor: [SpeechRecognitionService] *)

Module Service.
Import JS Timers.
Local Open Scope N_scope.

(** What the service sends out, in order: values on its three streams and
    calls on the recognition engine, each call with whether it threw. *)
Inductive output :=
| Transcript (text : jsstring) (isFinal : bool)  (* transcriptSubject.next *)
| Listening (value : bool)                       (* isListeningSubject.next *)
| Error (kind : string)                          (* errorSubject.next *)
| EngineStart (threw : bool)                     (* recognition.start() *)
| EngineStop (threw : bool).                     (* recognition.stop() *)

(** The private fields of the service.  [hasRecognition] says that
    [this.recognition] is not null, [isListeningValue] is the current value
    of the [isListeningSubject] behaviour subject, [lang] is
    [recognition.lang]. *)
Record service := {
  hasRecognition : bool;
  lang : string;
  isManuallyStopped : bool;
  listeningTimeout : option handle;
  shouldBeListening : bool;
  isRecognizing : bool;
  restartTimeout : option handle;
  restartAttempts : N;
  isMobileDevice : bool;
  lastNonCriticalError : option string;
  isListeningValue : bool;
  timers : table;
  log : list output
}.

Definition set_lang (v : string) (st : service) : service :=
  {| hasRecognition := hasRecognition st; lang := v;
     isManuallyStopped := isManuallyStopped st;
     listeningTimeout := listeningTimeout st;
     shouldBeListening := shouldBeListening st;
     isRecognizing := isRecognizing st; restartTimeout := restartTimeout st;
     restartAttempts := restartAttempts st;
     isMobileDevice := isMobileDevice st;
     lastNonCriticalError := lastNonCriticalError st;
     isListeningValue := isListeningValue st; timers := timers st;
     log := log st |}.

Definition set_isManuallyStopped (v : bool) (st : service) : service :=
  {| hasRecognition := hasRecognition st; lang := lang st;
     isManuallyStopped := v; listeningTimeout := listeningTimeout st;
     shouldBeListening := shouldBeListening st;
     isRecognizing := isRecognizing st; restartTimeout := restartTimeout st;
     restartAttempts := restartAttempts st;
     isMobileDevice := isMobileDevice st;
     lastNonCriticalError := lastNonCriticalError st;
     isListeningValue := isListeningValue st; timers := timers st;
     log := log st |}.

Definition set_listeningTimeout (v : option handle) (st : service) : service :=
  {| hasRecognition := hasRecognition st; lang := lang st;
     isManuallyStopped := isManuallyStopped st; listeningTimeout := v;
     shouldBeListening := shouldBeListening st;
     isRecognizing := isRecognizing st; restartTimeout := restartTimeout st;
     restartAttempts := restartAttempts st;
     isMobileDevice := isMobileDevice st;
     lastNonCriticalError := lastNonCriticalError st;
     isListeningValue := isListeningValue st; timers := timers st;
     log := log st |}.

Definition set_shouldBeListening (v : bool) (st : service) : service :=
  {| hasRecognition := hasRecognition st; lang := lang st;
     isManuallyStopped := isManuallyStopped st;
     listeningTimeout := listeningTimeout st; shouldBeListening := v;
     isRecognizing := isRecognizing st; restartTimeout := restartTimeout st;
     restartAttempts := restartAttempts st;
     isMobileDevice := isMobileDevice st;
     lastNonCriticalError := lastNonCriticalError st;
     isListeningValue := isListeningValue st; timers := timers st;
     log := log st |}.

Definition set_isRecognizing (v : bool) (st : service) : service :=
  {| hasRecognition := hasRecognition st; lang := lang st;
     isManuallyStopped := isManuallyStopped st;
     listeningTimeout := listeningTimeout st;
     shouldBeListening := shouldBeListening st; isRecognizing := v;
     restartTimeout := restartTimeout st;
     restartAttempts := restartAttempts st;
     isMobileDevice := isMobileDevice st;
     lastNonCriticalError := lastNonCriticalError st;
     isListeningValue := isListeningValue st; timers := timers st;
     log := log st |}.

Definition set_restartTimeout (v : option handle) (st : service) : service :=
  {| hasRecognition := hasRecognition st; lang := lang st;
     isManuallyStopped := isManuallyStopped st;
     listeningTimeout := listeningTimeout st;
     shouldBeListening := shouldBeListening st;
     isRecognizing := isRecognizing st; restartTimeout := v;
     restartAttempts := restartAttempts st;
     isMobileDevice := isMobileDevice st;
     lastNonCriticalError := lastNonCriticalError st;
     isListeningValue := isListeningValue st; timers := timers st;
     log := log st |}.

Definition set_restartAttempts (v : N) (st : service) : service :=
  {| hasRecognition := hasRecognition st; lang := lang st;
     isManuallyStopped := isManuallyStopped st;
     listeningTimeout := listeningTimeout st;
     shouldBeListening := shouldBeListening st;
     isRecognizing := isRecognizing st; restartTimeout := restartTimeout st;
     restartAttempts := v; isMobileDevice := isMobileDevice st;
     lastNonCriticalError := lastNonCriticalError st;
     isListeningValue := isListeningValue st; timers := timers st;
     log := log st |}.

Definition set_lastNonCriticalError (v : option string) (st : service) : service :=
  {| hasRecognition := hasRecognition st; lang := lang st;
     isManuallyStopped := isManuallyStopped st;
     listeningTimeout := listeningTimeout st;
     shouldBeListening := shouldBeListening st;
     isRecognizing := isRecognizing st; restartTimeout := restartTimeout st;
     restartAttempts := restartAttempts st;
     isMobileDevice := isMobileDevice st; lastNonCriticalError := v;
     isListeningValue := isListeningValue st; timers := timers st;
     log := log st |}.

Definition set_isListeningValue (v : bool) (st : service) : service :=
  {| hasRecognition := hasRecognition st; lang := lang st;
     isManuallyStopped := isManuallyStopped st;
     listeningTimeout := listeningTimeout st;
     shouldBeListening := shouldBeListening st;
     isRecognizing := isRecognizing st; restartTimeout := restartTimeout st;
     restartAttempts := restartAttempts st;
     isMobileDevice := isMobileDevice st;
     lastNonCriticalError := lastNonCriticalError st; isListeningValue := v;
     timers := timers st; log := log st |}.

Definition set_timers (v : table) (st : service) : service :=
  {| hasRecognition := hasRecognition st; lang := lang st;
     isManuallyStopped := isManuallyStopped st;
     listeningTimeout := listeningTimeout st;
     shouldBeListening := shouldBeListening st;
     isRecognizing := isRecognizing st; restartTimeout := restartTimeout st;
     restartAttempts := restartAttempts st;
     isMobileDevice := isMobileDevice st;
     lastNonCriticalError := lastNonCriticalError st;
     isListeningValue := isListeningValue st; timers := v; log := log st |}.

Definition set_log (v : list output) (st : service) : service :=
  {| hasRecognition := hasRecognition st; lang := lang st;
     isManuallyStopped := isManuallyStopped st;
     listeningTimeout := listeningTimeout st;
     shouldBeListening := shouldBeListening st;
     isRecognizing := isRecognizing st; restartTimeout := restartTimeout st;
     restartAttempts := restartAttempts st;
     isMobileDevice := isMobileDevice st;
     lastNonCriticalError := lastNonCriticalError st;
     isListeningValue := isListeningValue st; timers := timers st;
     log := v |}.

(** The state the constructor leaves, on a browser that has the
    recognition engine ([supported]) or not. *)
Definition init (supported mobile : bool) : service :=
  {| hasRecognition := supported; lang := "en-US";
     isManuallyStopped := false; listeningTimeout := None;
     shouldBeListening := false; isRecognizing := false;
     restartTimeout := None; restartAttempts := 0;
     isMobileDevice := mobile; lastNonCriticalError := None;
     isListeningValue := false; timers := Timers.empty;
     log := if supported then [] else [Error "Speech recognition not supported"] |}.

(** How the engine answers the calls of one handler: whether [start()]
    and [stop()] throw. *)
Record oracle := { startThrows : bool; stopThrows : bool }.

Definition emit (o : output) (st : service) : service :=
  set_log (log st ++ [o]) st.

(** [isListeningSubject.next(value)] *)
Definition nextListening (value : bool) (st : service) : service :=
  emit (Listening value) (set_isListeningValue value st).

(** [listeningDuration]: 120 seconds in milliseconds. *)
Definition listeningDuration : N := 120000.

Definition clearListeningTimeout (st : service) : service :=
  match listeningTimeout st with
  | Some h => set_listeningTimeout None (set_timers (clearTimeout h (timers st)) st)
  | None => st
  end.

Definition startListeningTimeout (st : service) : service :=
  let st := clearListeningTimeout st in
  let '(h, t) := setTimeout Inactivity listeningDuration (timers st) in
  set_listeningTimeout (Some h) (set_timers t st).

(** The callback [startListeningTimeout] arms. *)
Definition listeningTimeoutCallback (o : oracle) (st : service) : service :=
  let st := set_isManuallyStopped true st in
  if hasRecognition st then
    if stopThrows o then emit (EngineStop true) st
    else emit (Error "timeout") (emit (EngineStop false) st)
  else st.

Definition clearRestartTimeout (st : service) : service :=
  match restartTimeout st with
  | Some h => set_restartTimeout None (set_timers (clearTimeout h (timers st)) st)
  | None => st
  end.

(** The delay [scheduleRestart] computes. *)
Definition restartDelay (mobile : bool) (attempts : N) (lastError : option string) : N :=
  let base := if mobile then 1500 else 300 in
  let step := if mobile then 500 else 250 in
  let cap := if mobile then 5000 else 2000 in
  let extraNoSpeechPenalty :=
    if mobile && (match lastError with Some e => String.eqb e "no-speech" | None => false end)
    then 1000 else 0 in
  N.min (base + attempts * step + extraNoSpeechPenalty) cap.

Definition scheduleRestart (st : service) : service :=
  let st := clearRestartTimeout st in
  let delay := restartDelay (isMobileDevice st) (restartAttempts st) (lastNonCriticalError st) in
  let st := set_restartAttempts (restartAttempts st + 1) st in
  let '(h, t) := setTimeout Restart delay (timers st) in
  set_restartTimeout (Some h) (set_timers t st).

Definition startRecognitionSafely (o : oracle) (st : service) : service :=
  if negb (hasRecognition st) then st
  else if isRecognizing st then st
  else if startThrows o then scheduleRestart (emit (EngineStart true) st)
  else emit (EngineStart false) st.

(** The callback [scheduleRestart] arms. *)
Definition restartCallback (o : oracle) (st : service) : service :=
  if negb (shouldBeListening st) || isManuallyStopped st || negb (hasRecognition st)
  then st
  else startRecognitionSafely o (set_lastNonCriticalError None st).

Definition stopListening (o : oracle) (st : service) : service :=
  let st := set_isManuallyStopped true st in
  let st := set_shouldBeListening false st in
  let st := clearRestartTimeout st in
  let st := clearListeningTimeout st in
  if hasRecognition st && isListeningValue st
  then emit (EngineStop (stopThrows o)) st
  else st.

(** [recognition.onresult]: [results] are the entries of [event.results]
    from [event.resultIndex] on, each with the transcript of its first
    alternative and its [isFinal] flag. *)
Definition finalTranscript (results : list (jsstring * bool)) : jsstring :=
  concat (map (fun r : jsstring * bool => if snd r then fst r ++ [SPACE] else []) results).

Definition interimTranscript (results : list (jsstring * bool)) : jsstring :=
  concat (map (fun r : jsstring * bool => if snd r then [] else fst r) results).

Definition onresult (results : list (jsstring * bool)) (st : service) : service :=
  let final := trim (finalTranscript results) in
  let interim := trim (interimTranscript results) in
  let st := if truthy final then emit (Transcript final true) st else st in
  let st := if truthy interim then emit (Transcript interim false) st else st in
  if (truthy final || truthy interim) && shouldBeListening st
  then startListeningTimeout st
  else st.

Definition criticalErrors : list string :=
  ["not-allowed"%string; "audio-capture"%string; "service-not-allowed"%string].

Definition includes (l : list string) (s : string) : bool :=
  existsb (String.eqb s) l.

(** [recognition.onerror] *)
Definition onerror (o : oracle) (kind : string) (st : service) : service :=
  if String.eqb kind "no-speech" then set_lastNonCriticalError (Some "no-speech"%string) st
  else
    let st := set_lastNonCriticalError
                (if String.eqb kind "" then None else Some kind) st in
    if includes criticalErrors kind
    then stopListening o (emit (Error kind) st)
    else emit (Error kind) st.

(** [recognition.onstart] *)
Definition onstart (st : service) : service :=
  nextListening true (set_restartAttempts 0 (set_isRecognizing true st)).

(** [recognition.onend] *)
Definition onend (st : service) : service :=
  let st := set_isRecognizing false st in
  if isManuallyStopped st || negb (shouldBeListening st)
  then clearListeningTimeout (nextListening false st)
  else scheduleRestart st.

(** How the awaited [requestMicrophonePermission()] settles: it resolves
    to [true] or to [false], or it rejects. *)
Inductive permission := Granted | Refused | Rejected.

(** [startListening(language)] up to its [await]: the result says whether
    the call goes on to ask for the microphone. *)
Definition startListening_call (st : service) : service * bool :=
  if negb (hasRecognition st)
  then (emit (Error "Speech recognition not available") st, false)
  else (set_shouldBeListening true st, true).

(** [startListening(language)] after its [await].  Neither
    [startRecognitionSafely] nor [startListeningTimeout] throws, so the
    second [catch] is not taken. *)
Definition startListening_resume (language : string) (p : permission)
  (o : oracle) (st : service) : service :=
  match p with
  | Granted =>
      let st := set_isManuallyStopped false st in
      let st := set_lang language st in
      let st := startRecognitionSafely o st in
      startListeningTimeout st
  | Refused | Rejected => emit (Error "not-allowed") st
  end.

(** A whole call of [startListening(language)], nothing else running
    while the permission request is pending. *)
Definition startListening (language : string) (p : permission)
  (o : oracle) (st : service) : service :=
  let '(st, goesOn) := startListening_call st in
  if goesOn then startListening_resume language p o st else st.

(** What can happen to the service. *)
Inductive event :=
| StartListeningCalled
| PermissionSettled (language : string) (p : permission)
| StopListeningCalled
| EngineStarted
| EngineEnded
| EngineResult (results : list (jsstring * bool))
| EngineError (kind : string)
| TimerExpired (h : handle)
| Elapsed (dt : N).

Definition step (o : oracle) (ev : event) (st : service) : service :=
  match ev with
  | StartListeningCalled => fst (startListening_call st)
  | PermissionSettled language p =>
      if hasRecognition st then startListening_resume language p o st else st
  | StopListeningCalled => stopListening o st
  | EngineStarted => if hasRecognition st then onstart st else st
  | EngineEnded => if hasRecognition st then onend st else st
  | EngineResult results => if hasRecognition st then onresult results st else st
  | EngineError kind => if hasRecognition st then onerror o kind st else st
  | TimerExpired h =>
      match expire h (timers st) with
      | Some (Inactivity, t) => listeningTimeoutCallback o (set_timers t st)
      | Some (Restart, t) => restartCallback o (set_timers t st)
      | Some (_, t) => set_timers t st
      | None => st
      end
  | Elapsed dt => set_timers (elapse dt (timers st)) st
  end.

Fixpoint run (evs : list (oracle * event)) (st : service) : service :=
  match evs with
  | [] => st
  | (o, ev) :: evs' => run evs' (step o ev st)
  end.

End Service.

(** ** The translator component: buffer, segments and display *)

Module Component.
Import JS Timers Bufferer.

(** One element of the [segments] signal. *)
Record segment := {
  seg_id : nat;
  original : jsstring;
  translated : jsstring;
  translating : bool
}.

(** What the translation service answers: the translated text and an
    optional service-level error marker. *)
Record translateResult := {
  translatedText_of : jsstring;
  error_of : option string
}.

(** A call of [translationService.translate(text, 'en', source)] by
    [appendSegment] that returned, tagged with the segment whose callbacks
    it carries. *)
Record request := {
  req_segment : nat;
  req_text : jsstring;
  req_source : string
}.

(** A call of [translationService.translate(text, 'en', source)] by
    [translateTextOnce] that returned. *)
Record manualRequest := {
  mreq_text : jsstring;
  mreq_source : string
}.

(** The texts [errorMessage] is set to, by the branch that sets them. *)
Inductive message :=
| NoMessage
| AudioCaptureMessage
| NotAllowedMessage
| NetworkMessage
| TimeoutMessage
| TranslationUnavailable (error : string)
| SelectLanguageMessage        (* translateInterim: no source language *)
| SelectLanguageFirstMessage   (* toggleListening: no source language *)
| NotSupportedMessage          (* ngOnInit: no speech recognition *)
| CorsNetworkMessage           (* translateTextOnce, error callback: status 0 *)
| FunctionNotFoundMessage      (* ... 404 *)
| UnreachableMessage           (* ... failed to fetch *)
| CorsMessage                  (* ... CORS *)
| TranslationFailedMessage (errorMsg : string).

(** What the component asks of the other services, in order. *)
Inductive effect :=
| Spoke (text : jsstring)                        (* textToSpeech.speak(text, 'en-US') *)
| SpeechStopped                                  (* textToSpeech.stop() *)
| HistoryAdded (original translated : jsstring)  (* storageService.addToHistory *)
| LanguageSaved (code : string)                  (* savePreferences, selectedLanguage *)
| TextToSpeechSaved (enabled : bool)             (* savePreferences, enableTextToSpeech *)
| StartListeningRequested (selected : string)
    (* speechRecognition.startListening(getSpeechLanguageCode()), with the
       selected language the code is computed from *)
| StopListeningRequested.                        (* speechRecognition.stopListening() *)

(** The fields of the component, and what it depends on around it.

    [requests] and [manualRequests] are the calls of [translate] that
    returned, by the method that made them; [effects] are the calls on the
    other services.

    [translator] stands for the translation service as far as a call of
    [translate] depends on it: for the n-th call, counted by
    [translateCalls], whether the service gets as far as building the
    request URL before it returns, which it does unless it answers without
    a request (a blank text, a translation it has cached, the mock of a
    development build, a functions URL that is not configured).  Building
    the URL passes the text through [encodeURIComponent], which throws a
    [URIError] on an unpaired surrogate; nothing in the component catches
    it.  [uncaught] counts the errors that left a handler that way.
    [speakThrows] says whether [textToSpeech.speak] throws, which the
    component catches.

    [debounced] is the value [debounceTime(900)] holds and the time it is
    due, [lastDistinct] the last value [distinctUntilChanged] let through.
    [autoStarts] and [speakingTimers] are the due times of the timers of
    [autoStartListening] and [speakTranslation], whose handles the
    component does not keep.

    The subscriptions [ngOnInit] makes are in place from the start, and
    the stored preferences are an object, as [getPreferences] returns it.

    An error that leaves a subscriber is reported and the subscription
    stays, as RxJS 7 has it.

    Left out: the countdown display ([timeRemaining], [countdownInterval]),
    the info modal, the page URL with its copy button (which shows a note
    in [errorMessage] for 1.2 s), and [ngOnDestroy]. *)
Record component := {
  segments : list segment;
  nextSegmentId : nat;
  speechBuffer : jsstring;
  interimOriginal : jsstring;
  interimTranslated : jsstring;
  manualMode : bool;
  selectedLanguage : string;
  pendingTranslations : Z;
  isTranslating : bool;
  originalText : jsstring;
  translatedText : jsstring;
  errorMessage : message;
  isListening : bool;
  speechPauseTimer : option handle;
  scrollScheduleTimer : option handle;
  timers : table;
  requests : list request;
  lastTranslatedText : jsstring;
  isSpeaking : bool;
  enableTextToSpeech : bool;
  debounced : option (jsstring * N);
  lastDistinct : option jsstring;
  autoStarts : list N;
  speakingTimers : list N;
  manualRequests : list manualRequest;
  translator : nat -> bool;
  translateCalls : nat;
  uncaught : nat;
  speakThrows : bool;
  effects : list effect
}.

Definition set_segments (v : list segment) (st : component) : component :=
  {| segments := v; nextSegmentId := nextSegmentId st;
     speechBuffer := speechBuffer st; interimOriginal := interimOriginal st;
     interimTranslated := interimTranslated st; manualMode := manualMode st;
     selectedLanguage := selectedLanguage st;
     pendingTranslations := pendingTranslations st;
     isTranslating := isTranslating st; originalText := originalText st;
     translatedText := translatedText st; errorMessage := errorMessage st;
     isListening := isListening st; speechPauseTimer := speechPauseTimer st;
     scrollScheduleTimer := scrollScheduleTimer st; timers := timers st;
     requests := requests st; lastTranslatedText := lastTranslatedText st;
     isSpeaking := isSpeaking st;
     enableTextToSpeech := enableTextToSpeech st; debounced := debounced st;
     lastDistinct := lastDistinct st; autoStarts := autoStarts st;
     speakingTimers := speakingTimers st;
     manualRequests := manualRequests st; translator := translator st;
     translateCalls := translateCalls st; uncaught := uncaught st;
     speakThrows := speakThrows st; effects := effects st |}.

Definition set_nextSegmentId (v : nat) (st : component) : component :=
  {| segments := segments st; nextSegmentId := v;
     speechBuffer := speechBuffer st; interimOriginal := interimOriginal st;
     interimTranslated := interimTranslated st; manualMode := manualMode st;
     selectedLanguage := selectedLanguage st;
     pendingTranslations := pendingTranslations st;
     isTranslating := isTranslating st; originalText := originalText st;
     translatedText := translatedText st; errorMessage := errorMessage st;
     isListening := isListening st; speechPauseTimer := speechPauseTimer st;
     scrollScheduleTimer := scrollScheduleTimer st; timers := timers st;
     requests := requests st; lastTranslatedText := lastTranslatedText st;
     isSpeaking := isSpeaking st;
     enableTextToSpeech := enableTextToSpeech st; debounced := debounced st;
     lastDistinct := lastDistinct st; autoStarts := autoStarts st;
     speakingTimers := speakingTimers st;
     manualRequests := manualRequests st; translator := translator st;
     translateCalls := translateCalls st; uncaught := uncaught st;
     speakThrows := speakThrows st; effects := effects st |}.

Definition set_speechBuffer (v : jsstring) (st : component) : component :=
  {| segments := segments st; nextSegmentId := nextSegmentId st;
     speechBuffer := v; interimOriginal := interimOriginal st;
     interimTranslated := interimTranslated st; manualMode := manualMode st;
     selectedLanguage := selectedLanguage st;
     pendingTranslations := pendingTranslations st;
     isTranslating := isTranslating st; originalText := originalText st;
     translatedText := translatedText st; errorMessage := errorMessage st;
     isListening := isListening st; speechPauseTimer := speechPauseTimer st;
     scrollScheduleTimer := scrollScheduleTimer st; timers := timers st;
     requests := requests st; lastTranslatedText := lastTranslatedText st;
     isSpeaking := isSpeaking st;
     enableTextToSpeech := enableTextToSpeech st; debounced := debounced st;
     lastDistinct := lastDistinct st; autoStarts := autoStarts st;
     speakingTimers := speakingTimers st;
     manualRequests := manualRequests st; translator := translator st;
     translateCalls := translateCalls st; uncaught := uncaught st;
     speakThrows := speakThrows st; effects := effects st |}.

Definition set_interimOriginal (v : jsstring) (st : component) : component :=
  {| segments := segments st; nextSegmentId := nextSegmentId st;
     speechBuffer := speechBuffer st; interimOriginal := v;
     interimTranslated := interimTranslated st; manualMode := manualMode st;
     selectedLanguage := selectedLanguage st;
     pendingTranslations := pendingTranslations st;
     isTranslating := isTranslating st; originalText := originalText st;
     translatedText := translatedText st; errorMessage := errorMessage st;
     isListening := isListening st; speechPauseTimer := speechPauseTimer st;
     scrollScheduleTimer := scrollScheduleTimer st; timers := timers st;
     requests := requests st; lastTranslatedText := lastTranslatedText st;
     isSpeaking := isSpeaking st;
     enableTextToSpeech := enableTextToSpeech st; debounced := debounced st;
     lastDistinct := lastDistinct st; autoStarts := autoStarts st;
     speakingTimers := speakingTimers st;
     manualRequests := manualRequests st; translator := translator st;
     translateCalls := translateCalls st; uncaught := uncaught st;
     speakThrows := speakThrows st; effects := effects st |}.

Definition set_interimTranslated (v : jsstring) (st : component) : component :=
  {| segments := segments st; nextSegmentId := nextSegmentId st;
     speechBuffer := speechBuffer st; interimOriginal := interimOriginal st;
     interimTranslated := v; manualMode := manualMode st;
     selectedLanguage := selectedLanguage st;
     pendingTranslations := pendingTranslations st;
     isTranslating := isTranslating st; originalText := originalText st;
     translatedText := translatedText st; errorMessage := errorMessage st;
     isListening := isListening st; speechPauseTimer := speechPauseTimer st;
     scrollScheduleTimer := scrollScheduleTimer st; timers := timers st;
     requests := requests st; lastTranslatedText := lastTranslatedText st;
     isSpeaking := isSpeaking st;
     enableTextToSpeech := enableTextToSpeech st; debounced := debounced st;
     lastDistinct := lastDistinct st; autoStarts := autoStarts st;
     speakingTimers := speakingTimers st;
     manualRequests := manualRequests st; translator := translator st;
     translateCalls := translateCalls st; uncaught := uncaught st;
     speakThrows := speakThrows st; effects := effects st |}.

Definition set_manualMode (v : bool) (st : component) : component :=
  {| segments := segments st; nextSegmentId := nextSegmentId st;
     speechBuffer := speechBuffer st; interimOriginal := interimOriginal st;
     interimTranslated := interimTranslated st; manualMode := v;
     selectedLanguage := selectedLanguage st;
     pendingTranslations := pendingTranslations st;
     isTranslating := isTranslating st; originalText := originalText st;
     translatedText := translatedText st; errorMessage := errorMessage st;
     isListening := isListening st; speechPauseTimer := speechPauseTimer st;
     scrollScheduleTimer := scrollScheduleTimer st; timers := timers st;
     requests := requests st; lastTranslatedText := lastTranslatedText st;
     isSpeaking := isSpeaking st;
     enableTextToSpeech := enableTextToSpeech st; debounced := debounced st;
     lastDistinct := lastDistinct st; autoStarts := autoStarts st;
     speakingTimers := speakingTimers st;
     manualRequests := manualRequests st; translator := translator st;
     translateCalls := translateCalls st; uncaught := uncaught st;
     speakThrows := speakThrows st; effects := effects st |}.

Definition set_selectedLanguage (v : string) (st : component) : component :=
  {| segments := segments st; nextSegmentId := nextSegmentId st;
     speechBuffer := speechBuffer st; interimOriginal := interimOriginal st;
     interimTranslated := interimTranslated st; manualMode := manualMode st;
     selectedLanguage := v; pendingTranslations := pendingTranslations st;
     isTranslating := isTranslating st; originalText := originalText st;
     translatedText := translatedText st; errorMessage := errorMessage st;
     isListening := isListening st; speechPauseTimer := speechPauseTimer st;
     scrollScheduleTimer := scrollScheduleTimer st; timers := timers st;
     requests := requests st; lastTranslatedText := lastTranslatedText st;
     isSpeaking := isSpeaking st;
     enableTextToSpeech := enableTextToSpeech st; debounced := debounced st;
     lastDistinct := lastDistinct st; autoStarts := autoStarts st;
     speakingTimers := speakingTimers st;
     manualRequests := manualRequests st; translator := translator st;
     translateCalls := translateCalls st; uncaught := uncaught st;
     speakThrows := speakThrows st; effects := effects st |}.

Definition set_pendingTranslations (v : Z) (st : component) : component :=
  {| segments := segments st; nextSegmentId := nextSegmentId st;
     speechBuffer := speechBuffer st; interimOriginal := interimOriginal st;
     interimTranslated := interimTranslated st; manualMode := manualMode st;
     selectedLanguage := selectedLanguage st; pendingTranslations := v;
     isTranslating := isTranslating st; originalText := originalText st;
     translatedText := translatedText st; errorMessage := errorMessage st;
     isListening := isListening st; speechPauseTimer := speechPauseTimer st;
     scrollScheduleTimer := scrollScheduleTimer st; timers := timers st;
     requests := requests st; lastTranslatedText := lastTranslatedText st;
     isSpeaking := isSpeaking st;
     enableTextToSpeech := enableTextToSpeech st; debounced := debounced st;
     lastDistinct := lastDistinct st; autoStarts := autoStarts st;
     speakingTimers := speakingTimers st;
     manualRequests := manualRequests st; translator := translator st;
     translateCalls := translateCalls st; uncaught := uncaught st;
     speakThrows := speakThrows st; effects := effects st |}.

Definition set_isTranslating (v : bool) (st : component) : component :=
  {| segments := segments st; nextSegmentId := nextSegmentId st;
     speechBuffer := speechBuffer st; interimOriginal := interimOriginal st;
     interimTranslated := interimTranslated st; manualMode := manualMode st;
     selectedLanguage := selectedLanguage st;
     pendingTranslations := pendingTranslations st; isTranslating := v;
     originalText := originalText st; translatedText := translatedText st;
     errorMessage := errorMessage st; isListening := isListening st;
     speechPauseTimer := speechPauseTimer st;
     scrollScheduleTimer := scrollScheduleTimer st; timers := timers st;
     requests := requests st; lastTranslatedText := lastTranslatedText st;
     isSpeaking := isSpeaking st;
     enableTextToSpeech := enableTextToSpeech st; debounced := debounced st;
     lastDistinct := lastDistinct st; autoStarts := autoStarts st;
     speakingTimers := speakingTimers st;
     manualRequests := manualRequests st; translator := translator st;
     translateCalls := translateCalls st; uncaught := uncaught st;
     speakThrows := speakThrows st; effects := effects st |}.

Definition set_originalText (v : jsstring) (st : component) : component :=
  {| segments := segments st; nextSegmentId := nextSegmentId st;
     speechBuffer := speechBuffer st; interimOriginal := interimOriginal st;
     interimTranslated := interimTranslated st; manualMode := manualMode st;
     selectedLanguage := selectedLanguage st;
     pendingTranslations := pendingTranslations st;
     isTranslating := isTranslating st; originalText := v;
     translatedText := translatedText st; errorMessage := errorMessage st;
     isListening := isListening st; speechPauseTimer := speechPauseTimer st;
     scrollScheduleTimer := scrollScheduleTimer st; timers := timers st;
     requests := requests st; lastTranslatedText := lastTranslatedText st;
     isSpeaking := isSpeaking st;
     enableTextToSpeech := enableTextToSpeech st; debounced := debounced st;
     lastDistinct := lastDistinct st; autoStarts := autoStarts st;
     speakingTimers := speakingTimers st;
     manualRequests := manualRequests st; translator := translator st;
     translateCalls := translateCalls st; uncaught := uncaught st;
     speakThrows := speakThrows st; effects := effects st |}.

Definition set_translatedText (v : jsstring) (st : component) : component :=
  {| segments := segments st; nextSegmentId := nextSegmentId st;
     speechBuffer := speechBuffer st; interimOriginal := interimOriginal st;
     interimTranslated := interimTranslated st; manualMode := manualMode st;
     selectedLanguage := selectedLanguage st;
     pendingTranslations := pendingTranslations st;
     isTranslating := isTranslating st; originalText := originalText st;
     translatedText := v; errorMessage := errorMessage st;
     isListening := isListening st; speechPauseTimer := speechPauseTimer st;
     scrollScheduleTimer := scrollScheduleTimer st; timers := timers st;
     requests := requests st; lastTranslatedText := lastTranslatedText st;
     isSpeaking := isSpeaking st;
     enableTextToSpeech := enableTextToSpeech st; debounced := debounced st;
     lastDistinct := lastDistinct st; autoStarts := autoStarts st;
     speakingTimers := speakingTimers st;
     manualRequests := manualRequests st; translator := translator st;
     translateCalls := translateCalls st; uncaught := uncaught st;
     speakThrows := speakThrows st; effects := effects st |}.

Definition set_errorMessage (v : message) (st : component) : component :=
  {| segments := segments st; nextSegmentId := nextSegmentId st;
     speechBuffer := speechBuffer st; interimOriginal := interimOriginal st;
     interimTranslated := interimTranslated st; manualMode := manualMode st;
     selectedLanguage := selectedLanguage st;
     pendingTranslations := pendingTranslations st;
     isTranslating := isTranslating st; originalText := originalText st;
     translatedText := translatedText st; errorMessage := v;
     isListening := isListening st; speechPauseTimer := speechPauseTimer st;
     scrollScheduleTimer := scrollScheduleTimer st; timers := timers st;
     requests := requests st; lastTranslatedText := lastTranslatedText st;
     isSpeaking := isSpeaking st;
     enableTextToSpeech := enableTextToSpeech st; debounced := debounced st;
     lastDistinct := lastDistinct st; autoStarts := autoStarts st;
     speakingTimers := speakingTimers st;
     manualRequests := manualRequests st; translator := translator st;
     translateCalls := translateCalls st; uncaught := uncaught st;
     speakThrows := speakThrows st; effects := effects st |}.

Definition set_isListening (v : bool) (st : component) : component :=
  {| segments := segments st; nextSegmentId := nextSegmentId st;
     speechBuffer := speechBuffer st; interimOriginal := interimOriginal st;
     interimTranslated := interimTranslated st; manualMode := manualMode st;
     selectedLanguage := selectedLanguage st;
     pendingTranslations := pendingTranslations st;
     isTranslating := isTranslating st; originalText := originalText st;
     translatedText := translatedText st; errorMessage := errorMessage st;
     isListening := v; speechPauseTimer := speechPauseTimer st;
     scrollScheduleTimer := scrollScheduleTimer st; timers := timers st;
     requests := requests st; lastTranslatedText := lastTranslatedText st;
     isSpeaking := isSpeaking st;
     enableTextToSpeech := enableTextToSpeech st; debounced := debounced st;
     lastDistinct := lastDistinct st; autoStarts := autoStarts st;
     speakingTimers := speakingTimers st;
     manualRequests := manualRequests st; translator := translator st;
     translateCalls := translateCalls st; uncaught := uncaught st;
     speakThrows := speakThrows st; effects := effects st |}.

Definition set_speechPauseTimer (v : option handle) (st : component) : component :=
  {| segments := segments st; nextSegmentId := nextSegmentId st;
     speechBuffer := speechBuffer st; interimOriginal := interimOriginal st;
     interimTranslated := interimTranslated st; manualMode := manualMode st;
     selectedLanguage := selectedLanguage st;
     pendingTranslations := pendingTranslations st;
     isTranslating := isTranslating st; originalText := originalText st;
     translatedText := translatedText st; errorMessage := errorMessage st;
     isListening := isListening st; speechPauseTimer := v;
     scrollScheduleTimer := scrollScheduleTimer st; timers := timers st;
     requests := requests st; lastTranslatedText := lastTranslatedText st;
     isSpeaking := isSpeaking st;
     enableTextToSpeech := enableTextToSpeech st; debounced := debounced st;
     lastDistinct := lastDistinct st; autoStarts := autoStarts st;
     speakingTimers := speakingTimers st;
     manualRequests := manualRequests st; translator := translator st;
     translateCalls := translateCalls st; uncaught := uncaught st;
     speakThrows := speakThrows st; effects := effects st |}.

Definition set_scrollScheduleTimer (v : option handle) (st : component) : component :=
  {| segments := segments st; nextSegmentId := nextSegmentId st;
     speechBuffer := speechBuffer st; interimOriginal := interimOriginal st;
     interimTranslated := interimTranslated st; manualMode := manualMode st;
     selectedLanguage := selectedLanguage st;
     pendingTranslations := pendingTranslations st;
     isTranslating := isTranslating st; originalText := originalText st;
     translatedText := translatedText st; errorMessage := errorMessage st;
     isListening := isListening st; speechPauseTimer := speechPauseTimer st;
     scrollScheduleTimer := v; timers := timers st; requests := requests st;
     lastTranslatedText := lastTranslatedText st;
     isSpeaking := isSpeaking st;
     enableTextToSpeech := enableTextToSpeech st; debounced := debounced st;
     lastDistinct := lastDistinct st; autoStarts := autoStarts st;
     speakingTimers := speakingTimers st;
     manualRequests := manualRequests st; translator := translator st;
     translateCalls := translateCalls st; uncaught := uncaught st;
     speakThrows := speakThrows st; effects := effects st |}.

Definition set_timers (v : table) (st : component) : component :=
  {| segments := segments st; nextSegmentId := nextSegmentId st;
     speechBuffer := speechBuffer st; interimOriginal := interimOriginal st;
     interimTranslated := interimTranslated st; manualMode := manualMode st;
     selectedLanguage := selectedLanguage st;
     pendingTranslations := pendingTranslations st;
     isTranslating := isTranslating st; originalText := originalText st;
     translatedText := translatedText st; errorMessage := errorMessage st;
     isListening := isListening st; speechPauseTimer := speechPauseTimer st;
     scrollScheduleTimer := scrollScheduleTimer st; timers := v;
     requests := requests st; lastTranslatedText := lastTranslatedText st;
     isSpeaking := isSpeaking st;
     enableTextToSpeech := enableTextToSpeech st; debounced := debounced st;
     lastDistinct := lastDistinct st; autoStarts := autoStarts st;
     speakingTimers := speakingTimers st;
     manualRequests := manualRequests st; translator := translator st;
     translateCalls := translateCalls st; uncaught := uncaught st;
     speakThrows := speakThrows st; effects := effects st |}.

Definition set_requests (v : list request) (st : component) : component :=
  {| segments := segments st; nextSegmentId := nextSegmentId st;
     speechBuffer := speechBuffer st; interimOriginal := interimOriginal st;
     interimTranslated := interimTranslated st; manualMode := manualMode st;
     selectedLanguage := selectedLanguage st;
     pendingTranslations := pendingTranslations st;
     isTranslating := isTranslating st; originalText := originalText st;
     translatedText := translatedText st; errorMessage := errorMessage st;
     isListening := isListening st; speechPauseTimer := speechPauseTimer st;
     scrollScheduleTimer := scrollScheduleTimer st; timers := timers st;
     requests := v; lastTranslatedText := lastTranslatedText st;
     isSpeaking := isSpeaking st;
     enableTextToSpeech := enableTextToSpeech st; debounced := debounced st;
     lastDistinct := lastDistinct st; autoStarts := autoStarts st;
     speakingTimers := speakingTimers st;
     manualRequests := manualRequests st; translator := translator st;
     translateCalls := translateCalls st; uncaught := uncaught st;
     speakThrows := speakThrows st; effects := effects st |}.

Definition set_lastTranslatedText (v : jsstring) (st : component) : component :=
  {| segments := segments st; nextSegmentId := nextSegmentId st;
     speechBuffer := speechBuffer st; interimOriginal := interimOriginal st;
     interimTranslated := interimTranslated st; manualMode := manualMode st;
     selectedLanguage := selectedLanguage st;
     pendingTranslations := pendingTranslations st;
     isTranslating := isTranslating st; originalText := originalText st;
     translatedText := translatedText st; errorMessage := errorMessage st;
     isListening := isListening st; speechPauseTimer := speechPauseTimer st;
     scrollScheduleTimer := scrollScheduleTimer st; timers := timers st;
     requests := requests st; lastTranslatedText := v;
     isSpeaking := isSpeaking st;
     enableTextToSpeech := enableTextToSpeech st; debounced := debounced st;
     lastDistinct := lastDistinct st; autoStarts := autoStarts st;
     speakingTimers := speakingTimers st;
     manualRequests := manualRequests st; translator := translator st;
     translateCalls := translateCalls st; uncaught := uncaught st;
     speakThrows := speakThrows st; effects := effects st |}.

Definition set_isSpeaking (v : bool) (st : component) : component :=
  {| segments := segments st; nextSegmentId := nextSegmentId st;
     speechBuffer := speechBuffer st; interimOriginal := interimOriginal st;
     interimTranslated := interimTranslated st; manualMode := manualMode st;
     selectedLanguage := selectedLanguage st;
     pendingTranslations := pendingTranslations st;
     isTranslating := isTranslating st; originalText := originalText st;
     translatedText := translatedText st; errorMessage := errorMessage st;
     isListening := isListening st; speechPauseTimer := speechPauseTimer st;
     scrollScheduleTimer := scrollScheduleTimer st; timers := timers st;
     requests := requests st; lastTranslatedText := lastTranslatedText st;
     isSpeaking := v; enableTextToSpeech := enableTextToSpeech st;
     debounced := debounced st; lastDistinct := lastDistinct st;
     autoStarts := autoStarts st; speakingTimers := speakingTimers st;
     manualRequests := manualRequests st; translator := translator st;
     translateCalls := translateCalls st; uncaught := uncaught st;
     speakThrows := speakThrows st; effects := effects st |}.

Definition set_enableTextToSpeech (v : bool) (st : component) : component :=
  {| segments := segments st; nextSegmentId := nextSegmentId st;
     speechBuffer := speechBuffer st; interimOriginal := interimOriginal st;
     interimTranslated := interimTranslated st; manualMode := manualMode st;
     selectedLanguage := selectedLanguage st;
     pendingTranslations := pendingTranslations st;
     isTranslating := isTranslating st; originalText := originalText st;
     translatedText := translatedText st; errorMessage := errorMessage st;
     isListening := isListening st; speechPauseTimer := speechPauseTimer st;
     scrollScheduleTimer := scrollScheduleTimer st; timers := timers st;
     requests := requests st; lastTranslatedText := lastTranslatedText st;
     isSpeaking := isSpeaking st; enableTextToSpeech := v;
     debounced := debounced st; lastDistinct := lastDistinct st;
     autoStarts := autoStarts st; speakingTimers := speakingTimers st;
     manualRequests := manualRequests st; translator := translator st;
     translateCalls := translateCalls st; uncaught := uncaught st;
     speakThrows := speakThrows st; effects := effects st |}.

Definition set_debounced (v : option (jsstring * N)) (st : component) : component :=
  {| segments := segments st; nextSegmentId := nextSegmentId st;
     speechBuffer := speechBuffer st; interimOriginal := interimOriginal st;
     interimTranslated := interimTranslated st; manualMode := manualMode st;
     selectedLanguage := selectedLanguage st;
     pendingTranslations := pendingTranslations st;
     isTranslating := isTranslating st; originalText := originalText st;
     translatedText := translatedText st; errorMessage := errorMessage st;
     isListening := isListening st; speechPauseTimer := speechPauseTimer st;
     scrollScheduleTimer := scrollScheduleTimer st; timers := timers st;
     requests := requests st; lastTranslatedText := lastTranslatedText st;
     isSpeaking := isSpeaking st;
     enableTextToSpeech := enableTextToSpeech st; debounced := v;
     lastDistinct := lastDistinct st; autoStarts := autoStarts st;
     speakingTimers := speakingTimers st;
     manualRequests := manualRequests st; translator := translator st;
     translateCalls := translateCalls st; uncaught := uncaught st;
     speakThrows := speakThrows st; effects := effects st |}.

Definition set_lastDistinct (v : option jsstring) (st : component) : component :=
  {| segments := segments st; nextSegmentId := nextSegmentId st;
     speechBuffer := speechBuffer st; interimOriginal := interimOriginal st;
     interimTranslated := interimTranslated st; manualMode := manualMode st;
     selectedLanguage := selectedLanguage st;
     pendingTranslations := pendingTranslations st;
     isTranslating := isTranslating st; originalText := originalText st;
     translatedText := translatedText st; errorMessage := errorMessage st;
     isListening := isListening st; speechPauseTimer := speechPauseTimer st;
     scrollScheduleTimer := scrollScheduleTimer st; timers := timers st;
     requests := requests st; lastTranslatedText := lastTranslatedText st;
     isSpeaking := isSpeaking st;
     enableTextToSpeech := enableTextToSpeech st; debounced := debounced st;
     lastDistinct := v; autoStarts := autoStarts st;
     speakingTimers := speakingTimers st;
     manualRequests := manualRequests st; translator := translator st;
     translateCalls := translateCalls st; uncaught := uncaught st;
     speakThrows := speakThrows st; effects := effects st |}.

Definition set_autoStarts (v : list N) (st : component) : component :=
  {| segments := segments st; nextSegmentId := nextSegmentId st;
     speechBuffer := speechBuffer st; interimOriginal := interimOriginal st;
     interimTranslated := interimTranslated st; manualMode := manualMode st;
     selectedLanguage := selectedLanguage st;
     pendingTranslations := pendingTranslations st;
     isTranslating := isTranslating st; originalText := originalText st;
     translatedText := translatedText st; errorMessage := errorMessage st;
     isListening := isListening st; speechPauseTimer := speechPauseTimer st;
     scrollScheduleTimer := scrollScheduleTimer st; timers := timers st;
     requests := requests st; lastTranslatedText := lastTranslatedText st;
     isSpeaking := isSpeaking st;
     enableTextToSpeech := enableTextToSpeech st; debounced := debounced st;
     lastDistinct := lastDistinct st; autoStarts := v;
     speakingTimers := speakingTimers st;
     manualRequests := manualRequests st; translator := translator st;
     translateCalls := translateCalls st; uncaught := uncaught st;
     speakThrows := speakThrows st; effects := effects st |}.

Definition set_speakingTimers (v : list N) (st : component) : component :=
  {| segments := segments st; nextSegmentId := nextSegmentId st;
     speechBuffer := speechBuffer st; interimOriginal := interimOriginal st;
     interimTranslated := interimTranslated st; manualMode := manualMode st;
     selectedLanguage := selectedLanguage st;
     pendingTranslations := pendingTranslations st;
     isTranslating := isTranslating st; originalText := originalText st;
     translatedText := translatedText st; errorMessage := errorMessage st;
     isListening := isListening st; speechPauseTimer := speechPauseTimer st;
     scrollScheduleTimer := scrollScheduleTimer st; timers := timers st;
     requests := requests st; lastTranslatedText := lastTranslatedText st;
     isSpeaking := isSpeaking st;
     enableTextToSpeech := enableTextToSpeech st; debounced := debounced st;
     lastDistinct := lastDistinct st; autoStarts := autoStarts st;
     speakingTimers := v; manualRequests := manualRequests st;
     translator := translator st; translateCalls := translateCalls st;
     uncaught := uncaught st; speakThrows := speakThrows st;
     effects := effects st |}.

Definition set_manualRequests (v : list manualRequest) (st : component) : component :=
  {| segments := segments st; nextSegmentId := nextSegmentId st;
     speechBuffer := speechBuffer st; interimOriginal := interimOriginal st;
     interimTranslated := interimTranslated st; manualMode := manualMode st;
     selectedLanguage := selectedLanguage st;
     pendingTranslations := pendingTranslations st;
     isTranslating := isTranslating st; originalText := originalText st;
     translatedText := translatedText st; errorMessage := errorMessage st;
     isListening := isListening st; speechPauseTimer := speechPauseTimer st;
     scrollScheduleTimer := scrollScheduleTimer st; timers := timers st;
     requests := requests st; lastTranslatedText := lastTranslatedText st;
     isSpeaking := isSpeaking st;
     enableTextToSpeech := enableTextToSpeech st; debounced := debounced st;
     lastDistinct := lastDistinct st; autoStarts := autoStarts st;
     speakingTimers := speakingTimers st; manualRequests := v;
     translator := translator st; translateCalls := translateCalls st;
     uncaught := uncaught st; speakThrows := speakThrows st;
     effects := effects st |}.

Definition set_translator (v : nat -> bool) (st : component) : component :=
  {| segments := segments st; nextSegmentId := nextSegmentId st;
     speechBuffer := speechBuffer st; interimOriginal := interimOriginal st;
     interimTranslated := interimTranslated st; manualMode := manualMode st;
     selectedLanguage := selectedLanguage st;
     pendingTranslations := pendingTranslations st;
     isTranslating := isTranslating st; originalText := originalText st;
     translatedText := translatedText st; errorMessage := errorMessage st;
     isListening := isListening st; speechPauseTimer := speechPauseTimer st;
     scrollScheduleTimer := scrollScheduleTimer st; timers := timers st;
     requests := requests st; lastTranslatedText := lastTranslatedText st;
     isSpeaking := isSpeaking st;
     enableTextToSpeech := enableTextToSpeech st; debounced := debounced st;
     lastDistinct := lastDistinct st; autoStarts := autoStarts st;
     speakingTimers := speakingTimers st;
     manualRequests := manualRequests st; translator := v;
     translateCalls := translateCalls st; uncaught := uncaught st;
     speakThrows := speakThrows st; effects := effects st |}.

Definition set_translateCalls (v : nat) (st : component) : component :=
  {| segments := segments st; nextSegmentId := nextSegmentId st;
     speechBuffer := speechBuffer st; interimOriginal := interimOriginal st;
     interimTranslated := interimTranslated st; manualMode := manualMode st;
     selectedLanguage := selectedLanguage st;
     pendingTranslations := pendingTranslations st;
     isTranslating := isTranslating st; originalText := originalText st;
     translatedText := translatedText st; errorMessage := errorMessage st;
     isListening := isListening st; speechPauseTimer := speechPauseTimer st;
     scrollScheduleTimer := scrollScheduleTimer st; timers := timers st;
     requests := requests st; lastTranslatedText := lastTranslatedText st;
     isSpeaking := isSpeaking st;
     enableTextToSpeech := enableTextToSpeech st; debounced := debounced st;
     lastDistinct := lastDistinct st; autoStarts := autoStarts st;
     speakingTimers := speakingTimers st;
     manualRequests := manualRequests st; translator := translator st;
     translateCalls := v; uncaught := uncaught st;
     speakThrows := speakThrows st; effects := effects st |}.

Definition set_uncaught (v : nat) (st : component) : component :=
  {| segments := segments st; nextSegmentId := nextSegmentId st;
     speechBuffer := speechBuffer st; interimOriginal := interimOriginal st;
     interimTranslated := interimTranslated st; manualMode := manualMode st;
     selectedLanguage := selectedLanguage st;
     pendingTranslations := pendingTranslations st;
     isTranslating := isTranslating st; originalText := originalText st;
     translatedText := translatedText st; errorMessage := errorMessage st;
     isListening := isListening st; speechPauseTimer := speechPauseTimer st;
     scrollScheduleTimer := scrollScheduleTimer st; timers := timers st;
     requests := requests st; lastTranslatedText := lastTranslatedText st;
     isSpeaking := isSpeaking st;
     enableTextToSpeech := enableTextToSpeech st; debounced := debounced st;
     lastDistinct := lastDistinct st; autoStarts := autoStarts st;
     speakingTimers := speakingTimers st;
     manualRequests := manualRequests st; translator := translator st;
     translateCalls := translateCalls st; uncaught := v;
     speakThrows := speakThrows st; effects := effects st |}.

Definition set_speakThrows (v : bool) (st : component) : component :=
  {| segments := segments st; nextSegmentId := nextSegmentId st;
     speechBuffer := speechBuffer st; interimOriginal := interimOriginal st;
     interimTranslated := interimTranslated st; manualMode := manualMode st;
     selectedLanguage := selectedLanguage st;
     pendingTranslations := pendingTranslations st;
     isTranslating := isTranslating st; originalText := originalText st;
     translatedText := translatedText st; errorMessage := errorMessage st;
     isListening := isListening st; speechPauseTimer := speechPauseTimer st;
     scrollScheduleTimer := scrollScheduleTimer st; timers := timers st;
     requests := requests st; lastTranslatedText := lastTranslatedText st;
     isSpeaking := isSpeaking st;
     enableTextToSpeech := enableTextToSpeech st; debounced := debounced st;
     lastDistinct := lastDistinct st; autoStarts := autoStarts st;
     speakingTimers := speakingTimers st;
     manualRequests := manualRequests st; translator := translator st;
     translateCalls := translateCalls st; uncaught := uncaught st;
     speakThrows := v; effects := effects st |}.

Definition set_effects (v : list effect) (st : component) : component :=
  {| segments := segments st; nextSegmentId := nextSegmentId st;
     speechBuffer := speechBuffer st; interimOriginal := interimOriginal st;
     interimTranslated := interimTranslated st; manualMode := manualMode st;
     selectedLanguage := selectedLanguage st;
     pendingTranslations := pendingTranslations st;
     isTranslating := isTranslating st; originalText := originalText st;
     translatedText := translatedText st; errorMessage := errorMessage st;
     isListening := isListening st; speechPauseTimer := speechPauseTimer st;
     scrollScheduleTimer := scrollScheduleTimer st; timers := timers st;
     requests := requests st; lastTranslatedText := lastTranslatedText st;
     isSpeaking := isSpeaking st;
     enableTextToSpeech := enableTextToSpeech st; debounced := debounced st;
     lastDistinct := lastDistinct st; autoStarts := autoStarts st;
     speakingTimers := speakingTimers st;
     manualRequests := manualRequests st; translator := translator st;
     translateCalls := translateCalls st; uncaught := uncaught st;
     speakThrows := speakThrows st; effects := v |}.

(** The component as it is constructed, which is also how [ngOnInit]
    leaves it when no preference is stored and the browser has speech
    recognition. *)
Definition init : component :=
  {| segments := []; nextSegmentId := 1; speechBuffer := [];
     interimOriginal := []; interimTranslated := []; manualMode := false;
     selectedLanguage := ""; pendingTranslations := 0; isTranslating := false;
     originalText := []; translatedText := []; errorMessage := NoMessage;
     isListening := false; speechPauseTimer := None;
     scrollScheduleTimer := None; timers := Timers.empty; requests := [];
     lastTranslatedText := []; isSpeaking := false;
     enableTextToSpeech := false; debounced := None; lastDistinct := None;
     autoStarts := []; speakingTimers := []; manualRequests := [];
     translator := fun _ => true; translateCalls := 0; uncaught := 0;
     speakThrows := false; effects := [] |}.

Definition speechPauseMs : N := 1300.

(** The placeholder a segment shows while its translation is pending:
    U+23F3, a space, [Translating], U+2026. *)
Definition PENDING_PLACEHOLDER : jsstring :=
  [9203%N; SPACE] ++ lit "Translating" ++ [8230%N].

Definition NEWLINE : jsstring := [10%N].

(** What [rebuildDisplayStrings] shows for one segment. *)
Definition renderTranslated (s : segment) : jsstring :=
  if translating s
     && (negb (truthy (translated s)) || (length (trim (translated s)) =? 0)%nat)
  then PENDING_PLACEHOLDER
  else translated s.

Definition rebuildDisplayStrings (st : component) : component :=
  if manualMode st then st
  else
    let originals :=
      map original (segments st)
      ++ (if truthy (interimOriginal st) then [interimOriginal st] else []) in
    let st := set_originalText (join NEWLINE originals) st in
    let translations :=
      map renderTranslated (segments st)
      ++ (if truthy (interimTranslated st) then [interimTranslated st] else []) in
    set_translatedText (join NEWLINE translations) st.

(** The [patch] argument of [updateSegment]: the fields it carries. *)
Record patch := {
  p_translated : option jsstring;
  p_translating : option bool
}.

Definition applyPatch (p : patch) (s : segment) : segment :=
  {| seg_id := seg_id s;
     original := original s;
     translated := default (translated s) (p_translated p);
     translating := default (translating s) (p_translating p) |}.

(** [updateSegment(id, patch)]: the first segment with that id, if any, is
    replaced in place. *)
Definition updateSegment (id : nat) (p : patch) (st : component) : component :=
  match list_find (fun s => seg_id s = id) (segments st) with
  | None => st
  | Some (idx, s) => set_segments (<[idx := applyPatch p s]> (segments st)) st
  end.

Definition resolved (text : jsstring) : patch :=
  {| p_translated := Some text; p_translating := Some false |}.

(** Whether the next call of [translationService.translate(text, ...)]
    throws: the service builds the request URL for it and
    [encodeURIComponent(text)] meets an unpaired surrogate. *)
Definition translateThrows (text : jsstring) (st : component) : bool :=
  translator st (translateCalls st) && negb (wellFormed text).

(** Whether [appendSegment(original)] is left by that error. *)
Definition appendSegmentThrows (text : jsstring) (st : component) : bool :=
  negb (String.eqb (selectedLanguage st) "")
  && translateThrows (truncateForQuery text MAX_CHARS) st.

(** [appendSegment(original)]: the state when the call is over, whether it
    returned or was left by the error of [translate].  The callbacks it
    subscribes are [translateNext] and [translateError], which run as
    events of their own.  A result the service has at hand reaches
    [translateNext] before [subscribe] returns; it is the reply event that
    follows, which leaves the same fields but for the moment at which the
    boxes are redrawn. *)
Definition appendSegment (text : jsstring) (st : component) : component :=
  let sourceLang := selectedLanguage st in
  let safeOriginal := truncateForQuery text MAX_CHARS in
  let id := nextSegmentId st in
  let st := set_nextSegmentId (S id) st in
  let st := set_segments
              (segments st ++ [{| seg_id := id; original := safeOriginal;
                                  translated := []; translating := true |}]) st in
  if String.eqb sourceLang "" then
    rebuildDisplayStrings (updateSegment id (resolved []) st)
  else
    let st := set_pendingTranslations (pendingTranslations st + 1) st in
    let st := set_isTranslating true st in
    let throws := translateThrows safeOriginal st in
    let st := set_translateCalls (S (translateCalls st)) st in
    if throws then set_uncaught (S (uncaught st)) st
    else
      set_requests (requests st ++ [{| req_segment := id; req_text := safeOriginal;
                                       req_source := sourceLang |}]) st.

(** The loop [for (const piece of pieces) this.appendSegment(piece)]: it
    ends with the call that throws.  The flag says that one did. *)
Fixpoint appendPieces (pieces : list jsstring) (st : component) : component * bool :=
  match pieces with
  | [] => (st, false)
  | piece :: pieces' =>
      if appendSegmentThrows piece st then (appendSegment piece st, true)
      else appendPieces pieces' (appendSegment piece st)
  end.

Definition settle (st : component) : component :=
  let st := set_pendingTranslations (Z.max 0 (pendingTranslations st - 1)) st in
  set_isTranslating (0 <? pendingTranslations st)%Z st.

Definition errorTruthy (e : option string) : bool :=
  match e with
  | Some s => negb (String.eqb s "")
  | None => false
  end.

(** The [next] callback of the request [appendSegment] sent for [id]. *)
Definition translateNext (id : nat) (r : translateResult) (st : component) : component :=
  let st :=
    if errorTruthy (error_of r) then
      set_errorMessage (TranslationUnavailable (default ""%string (error_of r)))
        (updateSegment id (resolved []) st)
    else updateSegment id (resolved (translatedText_of r)) st in
  rebuildDisplayStrings (settle st).

(** The [error] callback of the request [appendSegment] sent for [id]. *)
Definition translateError (id : nat) (st : component) : component :=
  rebuildDisplayStrings (settle (updateSegment id (resolved []) st)).

Definition clearSpeechPauseTimer (st : component) : component :=
  match speechPauseTimer st with
  | Some h => set_speechPauseTimer None (set_timers (clearTimeout h (timers st)) st)
  | None => st
  end.

Definition resetSpeechPauseTimer (st : component) : component :=
  let st := clearSpeechPauseTimer st in
  let '(h, t) := setTimeout Pause speechPauseMs (timers st) in
  set_speechPauseTimer (Some h) (set_timers t st).

Definition clearScrollScheduleTimer (st : component) : component :=
  match scrollScheduleTimer st with
  | Some h => set_scrollScheduleTimer None (set_timers (clearTimeout h (timers st)) st)
  | None => st
  end.

Definition scheduleAutoScrollToLatest (st : component) : component :=
  let st := clearScrollScheduleTimer st in
  let '(h, t) := setTimeout Scroll 0 (timers st) in
  set_scrollScheduleTimer (Some h) (set_timers t st).

(** [flushSpeechBuffer({ force })].  When a call of [appendSegment] throws
    the method is left at once: the buffer, the interim line and the boxes
    stay as they were.  [None] only if [packIntoChunks] does not return. *)
Definition flushSpeechBuffer (force : bool) (st : component) : option component :=
  let input := trim (speechBuffer st) in
  if negb (truthy input) then
    Some (rebuildDisplayStrings (set_interimTranslated [] (set_interimOriginal [] st)))
  else
    let '(parts, remainder) := toTranslate force input in
    let flushed :=
      match parts with
      | [] => Some (st, false)
      | _ =>
          match packIntoChunks parts MAX_CHARS with
          | None => None
          | Some pieces => Some (appendPieces pieces st)
          end
      end in
    match flushed with
    | None => None
    | Some (st, true) => Some st
    | Some (st, false) =>
        let st := set_speechBuffer (if force then [] else remainder) st in
        let st := set_interimOriginal (speechBuffer st) st in
        let st := set_interimTranslated [] st in
        Some (rebuildDisplayStrings st)
    end.

(** The subscriber of [transcript$]. *)
Definition onTranscript (text : jsstring) (isFinal : bool) (st : component)
  : option component :=
  let st :=
    if manualMode st then
      clearSpeechPauseTimer
        (set_speechBuffer []
          (set_interimTranslated []
            (set_interimOriginal [] (set_segments [] (set_manualMode false st)))))
    else st in
  let st := resetSpeechPauseTimer st in
  if isFinal then
    let finalText := trim text in
    if negb (truthy finalText) then Some st
    else
      flushSpeechBuffer false
        (set_speechBuffer (joinWithSpace (speechBuffer st) finalText) st)
  else
    let interim := trim text in
    let st := set_interimOriginal (joinWithSpace (speechBuffer st) interim) st in
    Some (rebuildDisplayStrings (set_interimTranslated [] st)).

(** The subscriber of [isListening$]. *)
Definition onListening (listening : bool) (st : component) : option component :=
  let wasListening := isListening st in
  let st := set_isListening listening st in
  if negb listening && wasListening
  then flushSpeechBuffer true (clearSpeechPauseTimer st)
  else Some st.

(** [handleError(error)], the subscriber of [error$]. *)
Definition handleError (error : string) (st : component) : component :=
  let shown (m : message) := set_isListening false (set_errorMessage m st) in
  if String.eqb error "no-speech" then st
  else if String.eqb error "audio-capture" then shown AudioCaptureMessage
  else if String.eqb error "not-allowed" then shown NotAllowedMessage
  else if String.eqb error "network" then shown NetworkMessage
  else if String.eqb error "timeout" then shown TimeoutMessage
  else st.

Definition emit (e : effect) (st : component) : component :=
  set_effects (effects st ++ [e]) st.

(** [textChangeSubject.next(value)] as [debounceTime(900)] takes it: the
    value replaces the one held, and is due 900 ms from now. *)
Definition debounceMs : N := 900.

Definition queueText (value : jsstring) (st : component) : component :=
  set_debounced (Some (value, (now (timers st) + debounceMs)%N)) st.

(** [autoStartListening()]: a timer of 500 ms, its handle dropped. *)
Definition autoStartMs : N := 500.

Definition autoStartListening (st : component) : component :=
  set_autoStarts (autoStarts st ++ [(now (timers st) + autoStartMs)%N]) st.

(** The callback of that timer. *)
Definition autoStartCallback (st : component) : component :=
  if negb (String.eqb (selectedLanguage st) "") && negb (isListening st)
  then emit (StartListeningRequested (selectedLanguage st)) st
  else st.

(** [toggleListening()] *)
Definition toggleListening (st : component) : component :=
  if String.eqb (selectedLanguage st) "" then
    set_errorMessage SelectLanguageFirstMessage st
  else if isListening st then emit StopListeningRequested st
  else
    emit (StartListeningRequested (selectedLanguage st))
      (set_errorMessage NoMessage st).

(** [onTextChange(text)] *)
Definition onTextChange (text : jsstring) (st : component) : component :=
  let st := set_manualMode true st in
  let st := set_segments [] st in
  let st := set_interimOriginal [] st in
  let st := set_interimTranslated [] st in
  let st := set_originalText text st in
  if negb (truthy text) || (length (trim text) =? 0)%nat
  then set_translatedText [] st
  else queueText (truncateForQuery text MAX_CHARS) st.

(** [onLanguageChange(languageCode)] *)
Definition onLanguageChange (languageCode : string) (st : component) : component :=
  let st := set_selectedLanguage languageCode st in
  let st := emit (LanguageSaved languageCode) st in
  let st :=
    if negb (String.eqb languageCode "") && negb (isListening st)
    then autoStartListening st else st in
  if manualMode st then
    let currentText := originalText st in
    if truthy currentText && truthy (trim currentText)
    then queueText (truncateForQuery currentText MAX_CHARS) st
    else st
  else st.

(** [speakTranslation(text)]; the timer it sets is due after
    [max(text.length * 80, 1000)] ms.  An error of [textToSpeech.speak] is
    caught here and clears the flag. *)
Definition speakTranslation (text : jsstring) (st : component) : component :=
  if negb (truthy text) || (length (trim text) =? 0)%nat then st
  else if isSpeaking st && sameString (lastTranslatedText st) text then st
  else
    let st := set_isSpeaking true st in
    if speakThrows st then set_isSpeaking false st
    else
      let st := emit (Spoke text) st in
      let estimatedDuration := N.max (N.of_nat (length text) * 80) 1000 in
      set_speakingTimers
        (speakingTimers st ++ [(now (timers st) + estimatedDuration)%N]) st.

(** The callback of that timer. *)
Definition speakingCallback (st : component) : component :=
  if isSpeaking st then set_isSpeaking false st else st.

(** [stopSpeaking()] *)
Definition stopSpeaking (st : component) : component :=
  set_isSpeaking false (emit SpeechStopped st).

(** [onTextToSpeechChange(enabled)] *)
Definition onTextToSpeechChange (enabled : bool) (st : component) : component :=
  let st := set_enableTextToSpeech enabled st in
  let st := emit (TextToSpeechSaved enabled) st in
  if negb enabled && isSpeaking st then stopSpeaking st else st.

(** [translateTextOnce(text, sourceLanguage)]: the state when the call is
    over, whether it returned or was left by the error of [translate].  Its
    callbacks are [manualNext] and [manualError]; nothing follows
    [subscribe] in the method or in its callers, so that a result that
    comes at once is the reply event coming next. *)
Definition translateTextOnce (text : jsstring) (sourceLanguage : string)
  (st : component) : component :=
  let st := set_pendingTranslations (pendingTranslations st + 1) st in
  let st := set_isTranslating true st in
  let throws := translateThrows text st in
  let st := set_translateCalls (S (translateCalls st)) st in
  if throws then set_uncaught (S (uncaught st)) st
  else
    set_manualRequests
      (manualRequests st ++ [{| mreq_text := text; mreq_source := sourceLanguage |}]) st.

(** The [next] callback of the request [translateTextOnce] sent for
    [text]. *)
Definition manualNext (text : jsstring) (r : translateResult) (st : component)
  : component :=
  if errorTruthy (error_of r) then
    let st := settle st in
    let st := set_errorMessage
                (TranslationUnavailable (default ""%string (error_of r))) st in
    set_translatedText [] st
  else
    let st := set_translatedText (translatedText_of r) st in
    let st := settle st in
    let st :=
      if enableTextToSpeech st && truthy (translatedText_of r)
         && negb (sameString (translatedText_of r) (lastTranslatedText st))
         && negb (isSpeaking st)
      then speakTranslation (translatedText_of r)
             (set_lastTranslatedText (translatedText_of r) st)
      else st in
    emit (HistoryAdded text (translatedText_of r)) st.

(** [s.includes(pattern)] on the text of an error. *)
Fixpoint includes (pattern s : string) : bool :=
  if String.prefix pattern s then true
  else match s with
       | EmptyString => false
       | String _ s' => includes pattern s'
       end.

(** The [error] callback of that request: [status] is [error?.status || 0]
    and [errorMsg] is
    [error?.error?.error || error?.message || 'Unknown error']. *)
Definition manualError (status : N) (errorMsg : string) (st : component) : component :=
  let st := settle st in
  let m :=
    if (status =? 0)%N then CorsNetworkMessage
    else if (status =? 404)%N || includes "404" errorMsg
            || includes "not found" errorMsg
    then FunctionNotFoundMessage
    else if includes "Failed to fetch" errorMsg || includes "Network" errorMsg
    then UnreachableMessage
    else if includes "CORS" errorMsg then CorsMessage
    else TranslationFailedMessage errorMsg in
  set_errorMessage m st.

(** [translateInterim(text)] *)
Definition translateInterim (text : jsstring) (st : component) : component :=
  let trimmed := trim text in
  if negb (truthy trimmed) then
    rebuildDisplayStrings (set_interimTranslated [] st)
  else if manualMode st then
    let sourceLang := selectedLanguage st in
    if String.eqb sourceLang "" then set_errorMessage SelectLanguageMessage st
    else
      translateTextOnce (truncateForQuery trimmed MAX_CHARS) sourceLang
        (set_errorMessage NoMessage st)
  else st.

(** The subscriber of the debounced text, when [debounceTime] lets the
    value it holds go: [distinctUntilChanged] passes it on unless it is the
    value it passed last. *)
Definition debounceElapsed (st : component) : component :=
  match debounced st with
  | Some (value, due) =>
      if (due <=? now (timers st))%N then
        let st := set_debounced None st in
        match lastDistinct st with
        | Some previous =>
            if sameString previous value then st
            else translateInterim value (set_lastDistinct (Some value) st)
        | None => translateInterim value (set_lastDistinct (Some value) st)
        end
      else st
  | None => st
  end.

Definition clearText (st : component) : component :=
  let st := set_originalText [] st in
  let st := set_translatedText [] st in
  let st := set_errorMessage NoMessage st in
  let st := set_lastTranslatedText [] st in
  let st := set_segments [] st in
  let st := set_interimOriginal [] st in
  let st := set_interimTranslated [] st in
  let st := set_manualMode false st in
  let st := set_speechBuffer [] st in
  clearSpeechPauseTimer st.

(** [ngOnInit()], as far as it writes fields: with the saved preferences
    and whether the browser has speech recognition. *)
Definition ngOnInit (savedLanguage : string) (enableTTS supported : bool)
  (st : component) : component :=
  let st :=
    if negb (String.eqb savedLanguage "")
    then autoStartListening (set_selectedLanguage savedLanguage st)
    else set_selectedLanguage "" st in
  let st := set_enableTextToSpeech enableTTS st in
  if supported then st else set_errorMessage NotSupportedMessage st.

(** The [i]-th of the due times [l], if it has come. *)
Definition dueAt (i : nat) (l : list N) (t : table) : bool :=
  match l !! i with
  | Some due => (due <=? now t)%N
  | None => false
  end.

(** What can happen to the component. *)
Inductive event :=
| TranscriptReceived (text : jsstring) (isFinal : bool)
| ListeningChanged (listening : bool)
| ErrorReceived (kind : string)
| TranslateReplied (id : nat) (r : translateResult)
| TranslateFailed (id : nat)
| TimerExpired (h : handle)
| DisplayEffectRan
| TextChanged (text : jsstring)
| LanguageChanged (code : string)
| ClearPressed
| Elapsed (dt : N)
| DebounceElapsed
| ManualReplied (k : nat) (r : translateResult)
| ManualFailed (k : nat) (status : N) (errorMsg : string)
| AutoStartFired (i : nat)
| SpeakingTimerFired (i : nat)
| TextToSpeechChanged (enabled : bool)
| ListeningToggled
| Initialised (savedLanguage : string) (enableTTS supported : bool)
| TranslatorChanged (t : nat -> bool)
| SpeakerChanged (throws : bool).

Definition step (ev : event) (st : component) : option component :=
  match ev with
  | TranscriptReceived text isFinal => onTranscript text isFinal st
  | ListeningChanged listening => onListening listening st
  | ErrorReceived kind => Some (handleError kind st)
  | TranslateReplied id r => Some (translateNext id r st)
  | TranslateFailed id => Some (translateError id st)
  | TimerExpired h =>
      match expire h (timers st) with
      | Some (Pause, t) => flushSpeechBuffer true (set_timers t st)
      | Some (Scroll, t) => Some (set_scrollScheduleTimer None (set_timers t st))
      | Some (_, t) => Some (set_timers t st)
      | None => Some st
      end
  | DisplayEffectRan => Some (scheduleAutoScrollToLatest st)
  | TextChanged text => Some (onTextChange text st)
  | LanguageChanged code => Some (onLanguageChange code st)
  | ClearPressed => Some (clearText st)
  | Elapsed dt => Some (set_timers (elapse dt (timers st)) st)
  | DebounceElapsed => Some (debounceElapsed st)
  | ManualReplied k r =>
      match manualRequests st !! k with
      | Some req => Some (manualNext (mreq_text req) r st)
      | None => Some st
      end
  | ManualFailed k status errorMsg =>
      match manualRequests st !! k with
      | Some _ => Some (manualError status errorMsg st)
      | None => Some st
      end
  | AutoStartFired i =>
      if dueAt i (autoStarts st) (timers st)
      then Some (autoStartCallback (set_autoStarts (delete i (autoStarts st)) st))
      else Some st
  | SpeakingTimerFired i =>
      if dueAt i (speakingTimers st) (timers st)
      then Some (speakingCallback (set_speakingTimers (delete i (speakingTimers st)) st))
      else Some st
  | TextToSpeechChanged enabled => Some (onTextToSpeechChange enabled st)
  | ListeningToggled => Some (toggleListening st)
  | Initialised savedLanguage enableTTS supported =>
      Some (ngOnInit savedLanguage enableTTS supported st)
  | TranslatorChanged t => Some (set_translator t st)
  | SpeakerChanged throws => Some (set_speakThrows throws st)
  end.

Fixpoint run (evs : list event) (st : component) : option component :=
  match evs with
  | [] => Some st
  | ev :: evs' =>
      match step ev st with
      | None => None
      | Some st' => run evs' st'
      end
  end.

End Component.

(** ** Predicates the properties are stated with *)

Module Predicates.
Import JS Bufferer Timers.

(** A code point is one unit, or a high surrogate followed by a low one. *)
Definition codePointShape (ch : jsstring) : Prop :=
  (exists u, ch = [u])
  \/ (exists h l, ch = [h; l] /\ isHighSurrogate h = true /\ isLowSurrogate l = true).

(** The first (last) unit, if any, is not whitespace. *)
Definition headOk (s : jsstring) : bool :=
  match s with [] => true | u :: _ => negb (isWhitespace u) end.

Definition lastOk (s : jsstring) : bool := headOk (rev s).

(** The six sentence terminators, as code units: the full stop [.] (46),
    the exclamation mark [!] (33), the question mark [?] (63), the
    ideographic full stop U+3002 (12290), the fullwidth exclamation mark
    U+FF01 (65281) and the fullwidth question mark U+FF1F (65311). *)
Definition terminators : list N := [46; 33; 63; 12290; 65281; 65311]%N.

(** The string ends in one of the six terminators. *)
Definition endsInTerminator (s : jsstring) : Prop :=
  exists body u, s = body ++ [u] /\ In u terminators.

(** No unit of the string is one of the six terminators. *)
Definition noTerminator (s : jsstring) : Prop :=
  Forall (fun u => ~ In u terminators) s.

(** A piece fit for dispatch: not empty, trimmed, within the budget. *)
Definition goodPiece (maxChars : nat) (p : jsstring) : Prop :=
  p <> [] /\ trim p = p /\ length p <= maxChars.

(** The chunks [packIntoChunks] works on: its parts trimmed, the blank
    ones left out. *)
Definition cleanParts (parts : list jsstring) : list jsstring :=
  List.filter truthy (map trim parts).

(** Greedy packing in the words of the specification: the chunks are taken
    in order; a chunk joins the current group, after a single space, as
    long as the group stays within the budget; otherwise the group is
    closed and the chunk opens the next one. *)
Fixpoint greedyFrom (maxChars : nat) (group : jsstring) (chunks : list jsstring)
  : list jsstring :=
  match chunks with
  | [] => [group]
  | c :: chunks' =>
      if (length (group ++ [SPACE] ++ c) <=? maxChars)%nat
      then greedyFrom maxChars (group ++ [SPACE] ++ c) chunks'
      else group :: greedyFrom maxChars c chunks'
  end.

Definition greedyGroups (maxChars : nat) (chunks : list jsstring) : list jsstring :=
  match chunks with
  | [] => []
  | c :: chunks' => greedyFrom maxChars c chunks'
  end.

(** Every group passed through [chunkText], which splits the ones over
    the budget. *)
Fixpoint chunkEach (maxChars : nat) (groups : list jsstring) : option (list jsstring) :=
  match groups with
  | [] => Some []
  | g :: groups' =>
      match chunkText g maxChars, chunkEach maxChars groups' with
      | Some cs, Some rest => Some (cs ++ rest)
      | _, _ => None
      end
  end.

(** The texts sent to the translation service so far, in order. *)
Definition dispatched (st : Component.component) : list jsstring :=
  map Component.req_text (Component.requests st).

(** The originals of the segments, in list order. *)
Definition originals (st : Component.component) : list jsstring :=
  map Component.original (Component.segments st).

Definition ids (st : Component.component) : list nat :=
  map Component.seg_id (Component.segments st).






(** Exactly one pause timer is outstanding, due at most [speechPauseMs]
    from now. *)
Definition pauseOutstanding (st : Component.component) : Prop :=
  exists e, outstanding Pause (pending (Component.timers st)) = [e]
            /\ (e_due e <= now (Component.timers st) + Component.speechPauseMs)%N.

(** Text that waits in the buffer has a pause timer running for it. *)
Definition pauseArmed (st : Component.component) : Prop :=
  stripWs (Component.speechBuffer st) = [] \/ pauseOutstanding st.


(** Segment ids grow along the list and stay below the next id. *)
Definition idsOrdered (st : Component.component) : Prop :=
  StronglySorted lt (ids st) /\ Forall (fun i => i < Component.nextSegmentId st) (ids st).

(** The fields that neither [appendSegment] nor the translate callbacks
    nor [rebuildDisplayStrings] touch. *)
Definition switches (st : Component.component) :=
  (Component.manualMode st, Component.selectedLanguage st, Component.timers st,
   Component.speechPauseTimer st, Component.scrollScheduleTimer st,
   Component.isListening st).

Definition controls (st : Component.component) :=
  (switches st, Component.speechBuffer st).

(** The fields of the speech pipeline: the segments, the buffer and the
    interim line, the mode, the timers and the requests sent for
    segments. *)
Definition pipeline (st : Component.component) :=
  (Component.segments st, Component.nextSegmentId st, Component.speechBuffer st,
   Component.interimOriginal st, Component.manualMode st, Component.isListening st,
   Component.speechPauseTimer st, Component.scrollScheduleTimer st,
   Component.timers st, Component.requests st).

(** The events beside the speech pipeline: the choice of a language, the
    debounced translation of typed text and its callbacks, the timers
    whose handles are not kept, text-to-speech, the listening button, the
    initialisation, and a change in the translation or the speech
    service. *)
Definition aside (ev : Component.event) : bool :=
  match ev with
  | Component.LanguageChanged _ | Component.DebounceElapsed
  | Component.ManualReplied _ _ | Component.ManualFailed _ _ _
  | Component.AutoStartFired _ | Component.SpeakingTimerFired _
  | Component.TextToSpeechChanged _ | Component.ListeningToggled
  | Component.Initialised _ _ _ | Component.TranslatorChanged _
  | Component.SpeakerChanged _ => true
  | _ => false
  end.

(** The pieces the loop of a flush got to: all of them, or the ones up to
    the call that threw. *)
Fixpoint attempted (pieces : list jsstring) (st : Component.component) : list jsstring :=
  match pieces with
  | [] => []
  | piece :: pieces' =>
      if Component.appendSegmentThrows piece st then [piece]
      else piece :: attempted pieces' (Component.appendSegment piece st)
  end.

(** The pieces a flush of [buffer] hands to [appendSegment]. *)
Definition flushPieces (force : bool) (buffer : jsstring) : list jsstring :=
  if truthy (trim buffer) then
    match packIntoChunks (fst (toTranslate force (trim buffer))) MAX_CHARS with
    | Some pieces => pieces
    | None => []
    end
  else [].

(** What a flush leaves in the buffer. *)
Definition flushRest (force : bool) (buffer : jsstring) : jsstring :=
  if truthy (trim buffer)
  then (if force then [] else snd (toTranslate force (trim buffer)))
  else buffer.

(** The text a translate reply leaves in its segment: empty when the
    reply carries a service-level error. *)
Definition replyText (r : Component.translateResult) : jsstring :=
  if Component.errorTruthy (Component.error_of r) then []
  else Component.translatedText_of r.

(** What [rebuildDisplayStrings] puts in the translated box. *)
Definition renderAll (st : Component.component) : jsstring :=
  join Component.NEWLINE
    (map Component.renderTranslated (Component.segments st)
     ++ (if truthy (Component.interimTranslated st)
         then [Component.interimTranslated st] else [])).

(** How the segment list of a later state relates to that of an earlier
    one: the earlier ids are a prefix of the later ones, or the list was
    cleared in between and every later id is new. *)
Definition extends (st st' : Component.component) : Prop :=
  Component.nextSegmentId st <= Component.nextSegmentId st'
  /\ ((exists new, ids st' = ids st ++ new
                   /\ Forall (fun i => Component.nextSegmentId st <= i) new)
      \/ Forall (fun i => Component.nextSegmentId st <= i) (ids st')).

(** The timer handles an object keeps, by kind. *)
Definition serviceOwner (st : Service.service) (k : kind) : option handle :=
  match k with
  | Inactivity => Service.listeningTimeout st
  | Restart => Service.restartTimeout st
  | _ => None
  end.

Definition componentOwner (st : Component.component) (k : kind) : option handle :=
  match k with
  | Pause => Component.speechPauseTimer st
  | Scroll => Component.scrollScheduleTimer st
  | _ => None
  end.

(** The table is well formed and every outstanding timer is the one its
    owner's field of that kind holds. *)
Definition entriesTracked (owner : kind -> option handle) (t : table) : Prop :=
  Forall (fun e => (e_handle e < nextHandle t)%positive) (pending t)
  /\ NoDup (map e_handle (pending t))
  /\ Forall (fun e => owner (e_kind e) = Some (e_handle e)) (pending t).

(** The handles the fields hold were issued by the table, and no two
    fields hold the same one. *)
Definition ownersFresh (owner : kind -> option handle) (t : table) : Prop :=
  (forall k h, owner k = Some h -> (h < nextHandle t)%positive)
  /\ (forall k k' h, owner k = Some h -> owner k' = Some h -> k = k').

Definition tracked (owner : kind -> option handle) (t : table) : Prop :=
  entriesTracked owner t /\ ownersFresh owner t.

(** The owner after its field of kind [k] is set to [v]. *)
Definition setOwner (owner : kind -> option handle) (k : kind) (v : option handle)
  : kind -> option handle :=
  fun k' => if kind_eqb k' k then v else owner k'.

(** The transcripts of an [onresult] event hold something to emit. *)
Definition activity (results : list (jsstring * bool)) : bool :=
  truthy (trim (Service.finalTranscript results))
  || truthy (trim (Service.interimTranscript results)).

(** A quiet event in this state: no transcript activity, no stop (asked
    for, or after a critical error), no granted start, and not the expiry
    of the inactivity timer. *)
Definition quiet (ev : Service.event) (st : Service.service) : bool :=
  match ev with
  | Service.StartListeningCalled => true
  | Service.PermissionSettled _ Service.Granted => false
  | Service.PermissionSettled _ _ => true
  | Service.StopListeningCalled => false
  | Service.EngineStarted => true
  | Service.EngineEnded => true
  | Service.EngineResult results => negb (activity results)
  | Service.EngineError kind => negb (Service.includes Service.criticalErrors kind)
  | Service.TimerExpired h =>
      match expire h (Service.timers st) with
      | Some (Inactivity, _) => false
      | _ => true
      end
  | Service.Elapsed _ => true
  end.

(** Every event of the run is quiet in the state it meets. *)
Fixpoint quietRun (evs : list (Service.oracle * Service.event)) (st : Service.service)
  : bool :=
  match evs with
  | [] => true
  | (o, ev) :: evs' => quiet ev st && quietRun evs' (Service.step o ev st)
  end.

Definition serviceTracked (st : Service.service) : Prop :=
  tracked (serviceOwner st) (Service.timers st).

Definition componentTracked (st : Component.component) : Prop :=
  tracked (componentOwner st) (Component.timers st).

(** A timer of kind [k] with handle [h], due [delay] after [start]. *)
Definition timerEntry (h : handle) (k : kind) (start delay : N) : entry :=
  {| e_handle := h; e_kind := k; e_due := (start + delay)%N |}.

End Predicates.

(** ** States and inputs the examples run on *)

Module Examples.
Import JS Component.

(** The buffer of the example, with Spanish selected as the source. *)
Definition helloThere : component :=
  set_selectedLanguage "es" (set_speechBuffer (lit "Hello there. How are") init).

(** The component while it listens, Spanish selected. *)
Definition listeningEs : component :=
  set_isListening true (set_selectedLanguage "es" init).

(** Two fragments, then listening stops. *)
Definition twoFragments : list event :=
  [TranscriptReceived (lit "Hello there. How") true;
   TranscriptReceived (lit "are you") true].

(** One fragment with two spaces between its sentences, as the service
    builds it from the final results [Hi.] and [ Yo.]; then listening
    stops. *)
Definition doubleSpace : list event :=
  [TranscriptReceived (lit "Hi.  Yo.") true; ListeningChanged false].




(** Replies without an error marker. *)
Definition reply (text : jsstring) : translateResult :=
  {| translatedText_of := text; error_of := None |}.

(** Three segments are appended, then their replies arrive in the order
    third, first, second. *)
Definition threeOutOfOrder : component :=
  let st := appendSegment (lit "uno") listeningEs in
  let st := appendSegment (lit "dos") st in
  let st := appendSegment (lit "tres") st in
  let st := translateNext 3 (reply (lit "three")) st in
  let st := translateNext 1 (reply (lit "one")) st in
  translateNext 2 (reply (lit "two")) st.

(** An engine whose [start()] and [stop()] do not throw. *)
Definition calm : Service.oracle :=
  {| Service.startThrows := false; Service.stopThrows := false |}.

(** The service on a desktop (mobile) browser after [startListening] was
    granted the microphone and the engine reported its start. *)
Definition started (mobile : bool) : Service.service :=
  Service.run [(calm, Service.StartListeningCalled);
               (calm, Service.PermissionSettled "es-ES" Service.Granted);
               (calm, Service.EngineStarted)]
              (Service.init true mobile).

(** A session: the engine hears [hola] five seconds after the start, then
    nothing; the inactivity timer set by the result has handle 2 and is
    tried one millisecond early, then on time. *)
Definition silentSession : list (Service.oracle * Service.event) :=
  [(calm, Service.Elapsed 5000);
   (calm, Service.EngineResult [(lit "hola", true)]);
   (calm, Service.Elapsed 119999);
   (calm, Service.TimerExpired 2%positive);
   (calm, Service.Elapsed 1);
   (calm, Service.TimerExpired 2%positive)].

(** Two minutes of silence after [hola] during which the engine ends, is
    restarted by the restart timer (handle 3) and reports [no-speech]. *)
Definition heard : Service.service :=
  Service.onresult [(lit "hola", true)] (started false).

Definition restartsInSilence : list (Service.oracle * Service.event) :=
  [(calm, Service.Elapsed 60000);
   (calm, Service.EngineEnded);
   (calm, Service.Elapsed 300);
   (calm, Service.TimerExpired 3%positive);
   (calm, Service.EngineStarted);
   (calm, Service.EngineError "no-speech");
   (calm, Service.Elapsed 59700)].

End Examples.

(** * What the further properties speak of *)

Module Invariants.
Import JS Bufferer Timers Predicates.

(** ** The service *)

Definition isStart (o : Service.output) : bool :=
  match o with Service.EngineStart _ => true | _ => false end.

(** How often [recognition.start()] was called. *)
Definition starts (l : list Service.output) : nat := length (List.filter isStart l).

(** The event is a granted microphone request. *)
Definition granted (ev : Service.event) : bool :=
  match ev with Service.PermissionSettled _ Service.Granted => true | _ => false end.

(** The event is the engine's [onend]. *)
Definition ended (ev : Service.event) : bool :=
  match ev with Service.EngineEnded => true | _ => false end.

(** A transcript sent out is not empty and carries no outer whitespace. *)
Definition soundOutput (o : Service.output) : Prop :=
  match o with
  | Service.Transcript text _ => text <> [] /\ trim text = text
  | _ => True
  end.

(** The last value sent on the listening stream, [false] before any. *)
Definition lastListening (l : list Service.output) : bool :=
  fold_left (fun acc o => match o with Service.Listening v => v | _ => acc end) l false.

(** The listening stream agrees with the engine: its current value is the
    last one sent, and it is [true] while the engine is active. *)
Definition streamSound (st : Service.service) : Prop :=
  Service.isListeningValue st = lastListening (Service.log st)
  /\ (Service.isRecognizing st = true -> Service.isListeningValue st = true).

(** ** The component *)

(** The buffer carries no outer whitespace and, as long as no call of
    [translate] has thrown, no sentence terminator. *)
Definition bufferSettled (st : Component.component) : Prop :=
  trim (Component.speechBuffer st) = Component.speechBuffer st
  /\ (Component.uncaught st = 0 -> noTerminator (Component.speechBuffer st)).

(** Every request sent for a segment carries a piece fit for dispatch and
    a source language, and its segment id was issued; no two requests are
    for the same segment; and while the segment of a request is in the
    list, its original is the text that was sent. *)
Definition requestsSound (st : Component.component) : Prop :=
  Forall (fun r => goodPiece MAX_CHARS (Component.req_text r)
                   /\ Component.req_source r <> ""%string
                   /\ Component.req_segment r < Component.nextSegmentId st)
         (Component.requests st)
  /\ NoDup (map Component.req_segment (Component.requests st))
  /\ (forall r i, In r (Component.requests st) ->
        ids st !! i = Some (Component.req_segment r) ->
        originals st !! i = Some (Component.req_text r)).

(** The user types in the original box. *)
Definition typing (ev : Component.event) : bool :=
  match ev with Component.TextChanged _ => true | _ => false end.

(** How many callbacks of requests came, [next] or [error], for a segment
    or for typed text. *)
Fixpoint replies (evs : list Component.event) : nat :=
  match evs with
  | [] => 0
  | Component.TranslateReplied _ _ :: evs' => S (replies evs')
  | Component.TranslateFailed _ :: evs' => S (replies evs')
  | Component.ManualReplied _ _ :: evs' => S (replies evs')
  | Component.ManualFailed _ _ _ :: evs' => S (replies evs')
  | _ :: evs' => replies evs'
  end.

(** The counter of requests in flight after [answered] callbacks: it is
    not negative, the busy flag is on exactly when it is positive, and it
    lies between the calls of [translate] not yet answered and the calls
    made; a call was made for every request sent, for a segment or for
    typed text, and for every error thrown. *)
Definition counterSound (answered : nat) (st : Component.component) : Prop :=
  (0 <= Component.pendingTranslations st)%Z
  /\ Component.isTranslating st = (0 <? Component.pendingTranslations st)%Z
  /\ Component.translateCalls st
     = length (Component.requests st) + length (Component.manualRequests st)
       + Component.uncaught st
  /\ (Z.of_nat (Component.translateCalls st) - Z.of_nat answered
      <= Component.pendingTranslations st)%Z
  /\ (Component.pendingTranslations st <= Z.of_nat (Component.translateCalls st))%Z.

(** The placeholder of a pending segment, in code units: U+23F3 (the
    hourglass), a space, the word [Translating], U+2026 (the ellipsis). *)
Definition placeholder : jsstring :=
  [9203; 32; 84; 114; 97; 110; 115; 108; 97; 116; 105; 110; 103; 8230]%N.

(** What the translated box shows for a segment: the placeholder while
    the segment is pending and its translation is blank, its translation
    otherwise. *)
Definition shownFor (s : Component.segment) : jsstring :=
  if Component.translating s && (length (trim (Component.translated s)) =? 0)
  then placeholder else Component.translated s.

(** The two boxes show the segments, one per line (the separator is the
    line feed, unit 10): the originals and then the interim line, and what
    the segments show and then the interim translation. *)
Definition displayed (st : Component.component) : Prop :=
  Component.originalText st
  = join [10%N]
      (originals st ++ (if truthy (Component.interimOriginal st)
                        then [Component.interimOriginal st] else []))
  /\ Component.translatedText st
     = join [10%N]
         (map shownFor (Component.segments st)
          ++ (if truthy (Component.interimTranslated st)
              then [Component.interimTranslated st] else [])).

(** The events that write the boxes by themselves: typing, clearing, a
    transcript, which leaves manual mode, and the reply to the translation
    of typed text. *)
Definition writesBoxes (ev : Component.event) : bool :=
  match ev with
  | Component.TextChanged _ | Component.ClearPressed
  | Component.TranscriptReceived _ _ | Component.ManualReplied _ _ => true
  | _ => false
  end.

(** The segment ids are ordered and the requests are sound. *)
Definition wellSent (st : Component.component) : Prop :=
  idsOrdered st /\ requestsSound st.

(** The fields the counter of requests in flight is read from. *)
Definition counters (st : Component.component) :=
  (Component.pendingTranslations st, Component.isTranslating st, Component.requests st,
   Component.manualRequests st, Component.translateCalls st, Component.uncaught st).

(** The fields [displayed] is read from. *)
Definition shown (st : Component.component) :=
  (Component.manualMode st, Component.originalText st, Component.translatedText st,
   Component.segments st, Component.interimOriginal st, Component.interimTranslated st).

(** The mode and the two boxes. *)
Definition boxes (st : Component.component) :=
  (Component.manualMode st, Component.originalText st, Component.translatedText st).


(** Speech mode in which nothing was typed: no request for typed text is
    out; and the boxes show the segments as long as no call of
    [translate] has thrown. *)
Definition speechOnly (st : Component.component) : Prop :=
  Component.manualMode st = false /\ Component.manualRequests st = []
  /\ (Component.uncaught st = 0 -> displayed st).

End Invariants.

(** * Properties *)

(** ** Facts about JavaScript strings *)

Module JSFacts.
Import JS Predicates.

Lemma stripWs_app (a b : jsstring) : stripWs (a ++ b) = stripWs a ++ stripWs b.
Proof.
  induction a as [|u a IH]; simpl; [reflexivity|].
  destruct (isWhitespace u); simpl; congruence.
Qed.

Lemma stripWs_rev (s : jsstring) : stripWs (rev s) = rev (stripWs s).
Proof.
  induction s as [|u s IH]; simpl; [reflexivity|].
  rewrite stripWs_app, IH. simpl.
  destruct (isWhitespace u); simpl; [apply app_nil_r | reflexivity].
Qed.

Lemma stripWs_trimStart (s : jsstring) : stripWs (trimStart s) = stripWs s.
Proof.
  induction s as [|u s IH]; simpl; [reflexivity|].
  destruct (isWhitespace u) eqn:E; simpl; [assumption | now rewrite E].
Qed.

Lemma stripWs_trimEnd (s : jsstring) : stripWs (trimEnd s) = stripWs s.
Proof.
  unfold trimEnd. rewrite stripWs_rev, stripWs_trimStart, stripWs_rev.
  apply rev_involutive.
Qed.

Lemma stripWs_trim (s : jsstring) : stripWs (trim s) = stripWs s.
Proof. unfold trim. now rewrite stripWs_trimEnd, stripWs_trimStart. Qed.

Lemma stripWs_replaceWsRuns (b : bool) (s : jsstring) :
  stripWs (replaceWsRuns b s) = stripWs s.
Proof.
  revert b. induction s as [|u s IH]; intros b; simpl; [reflexivity|].
  destruct (isWhitespace u) eqn:E.
  - destruct b; simpl; rewrite ?IH; reflexivity.
  - simpl. now rewrite E, IH.
Qed.

Lemma stripWs_collapse (s : jsstring) : stripWs (collapseWhitespace s) = stripWs s.
Proof. apply stripWs_replaceWsRuns. Qed.

Lemma stripWs_take_drop (n : nat) (s : jsstring) :
  stripWs (sliceTo n s) ++ stripWs (sliceFrom n s) = stripWs s.
Proof. unfold sliceTo, sliceFrom. now rewrite <- stripWs_app, take_drop. Qed.

Lemma stripWs_space_r (a b : jsstring) :
  stripWs (a ++ [SPACE] ++ b) = stripWs a ++ stripWs b.
Proof. now rewrite !stripWs_app. Qed.

Lemma stringIterator_cons2 (h l : N) (rest : jsstring) :
  stringIterator (h :: l :: rest) =
  if isHighSurrogate h && isLowSurrogate l
  then [h; l] :: stringIterator rest
  else [h] :: stringIterator (l :: rest).
Proof. reflexivity. Qed.

(** [stringIterator] only regroups the code units. *)
Lemma concat_stringIterator_le (n : nat) :
  forall s : jsstring, length s <= n -> concat (stringIterator s) = s.
Proof.
  induction n as [|n IH]; intros s Hn.
  - destruct s; [reflexivity | simpl in Hn; lia].
  - destruct s as [|h [|l rest]]; [reflexivity | reflexivity |].
    rewrite stringIterator_cons2.
    destruct (isHighSurrogate h && isLowSurrogate l).
    + cbn [concat app]. rewrite IH; [reflexivity | simpl in *; lia].
    + cbn [concat app]. rewrite IH; [reflexivity | simpl in *; lia].
Qed.

Lemma concat_stringIterator (s : jsstring) : concat (stringIterator s) = s.
Proof. now apply (concat_stringIterator_le (length s)). Qed.

Lemma stringIterator_shape_le (n : nat) :
  forall s : jsstring, length s <= n -> Forall codePointShape (stringIterator s).
Proof.
  induction n as [|n IH]; intros s Hn.
  - destruct s; [constructor | simpl in Hn; lia].
  - destruct s as [|h [|l rest]].
    + constructor.
    + constructor; [left; now exists h | constructor].
    + rewrite stringIterator_cons2.
      destruct (isHighSurrogate h && isLowSurrogate l) eqn:E.
      * apply andb_true_iff in E as [Hh Hl]. constructor.
        -- right. now exists h, l.
        -- apply IH. simpl in *; lia.
      * constructor.
        -- left. now exists h.
        -- apply IH. simpl in *; lia.
Qed.

Lemma stringIterator_shape (s : jsstring) : Forall codePointShape (stringIterator s).
Proof. now apply (stringIterator_shape_le (length s)). Qed.

(** *** Trimming *)

Lemma headOk_trimStart (s : jsstring) : headOk (trimStart s) = true.
Proof.
  induction s as [|u s IH]; simpl; [reflexivity|].
  destruct (isWhitespace u) eqn:E; [assumption | simpl; now rewrite E].
Qed.

Lemma trimStart_fixed (s : jsstring) : headOk s = true -> trimStart s = s.
Proof.
  destruct s as [|u s]; simpl; [reflexivity|].
  destruct (isWhitespace u); [discriminate | reflexivity].
Qed.

Lemma trimEnd_fixed (s : jsstring) : lastOk s = true -> trimEnd s = s.
Proof.
  unfold lastOk, trimEnd. intros H. rewrite trimStart_fixed by assumption.
  apply rev_involutive.
Qed.

Lemma lastOk_trimEnd (s : jsstring) : lastOk (trimEnd s) = true.
Proof. unfold lastOk, trimEnd. rewrite rev_involutive. apply headOk_trimStart. Qed.

Lemma trimStart_suffix (s : jsstring) : exists w, s = w ++ trimStart s.
Proof.
  induction s as [|u s [w IH]]; simpl; [now exists []|].
  destruct (isWhitespace u); [| now exists []].
  exists (u :: w). simpl. now f_equal.
Qed.

Lemma trimEnd_prefix (s : jsstring) : exists w, s = trimEnd s ++ w.
Proof.
  unfold trimEnd. destruct (trimStart_suffix (rev s)) as [w Hw].
  exists (rev w). rewrite <- rev_app_distr, <- Hw. symmetry. apply rev_involutive.
Qed.

Lemma headOk_prefix (a w : jsstring) : headOk (a ++ w) = true -> a <> [] -> headOk a = true.
Proof. destruct a; [congruence | simpl; auto]. Qed.

Lemma headOk_trimEnd (s : jsstring) : headOk s = true -> headOk (trimEnd s) = true.
Proof.
  intros H. destruct (trimEnd_prefix s) as [w Hw].
  destruct (trimEnd s) as [|u r] eqn:E; [reflexivity|].
  rewrite Hw in H. simpl in *. assumption.
Qed.

Lemma headOk_trim (s : jsstring) : headOk (trim s) = true.
Proof. unfold trim. apply headOk_trimEnd, headOk_trimStart. Qed.

Lemma lastOk_trim (s : jsstring) : lastOk (trim s) = true.
Proof. unfold trim. apply lastOk_trimEnd. Qed.

Lemma trim_fixed (s : jsstring) : headOk s = true -> lastOk s = true -> trim s = s.
Proof.
  intros Hh Hl. unfold trim. rewrite trimStart_fixed by assumption.
  now apply trimEnd_fixed.
Qed.

Lemma trim_idem (s : jsstring) : trim (trim s) = trim s.
Proof. apply trim_fixed; [apply headOk_trim | apply lastOk_trim]. Qed.

Lemma length_trimStart (s : jsstring) : length (trimStart s) <= length s.
Proof.
  destruct (trimStart_suffix s) as [w Hw].
  rewrite Hw at 2. rewrite length_app. lia.
Qed.

Lemma length_trimEnd (s : jsstring) : length (trimEnd s) <= length s.
Proof.
  destruct (trimEnd_prefix s) as [w Hw].
  rewrite Hw at 2. rewrite length_app. lia.
Qed.

Lemma length_trim (s : jsstring) : length (trim s) <= length s.
Proof.
  unfold trim. pose proof (length_trimEnd (trimStart s)).
  pose proof (length_trimStart s). lia.
Qed.

Lemma trim_nil : trim [] = [].
Proof. reflexivity. Qed.

(** A string that ends in a unit that is not whitespace keeps it. *)
Lemma trimStart_snoc (a : jsstring) (u : N) :
  isWhitespace u = false -> trimStart (a ++ [u]) = trimStart a ++ [u].
Proof.
  intros Hu. induction a as [|v a IH]; simpl.
  - now rewrite Hu.
  - destruct (isWhitespace v); [assumption | reflexivity].
Qed.

Lemma lastOk_snoc (a : jsstring) (u : N) :
  isWhitespace u = false -> lastOk (a ++ [u]) = true.
Proof. intros Hu. unfold lastOk. rewrite rev_app_distr. simpl. now rewrite Hu. Qed.

Lemma trim_snoc (a : jsstring) (u : N) :
  isWhitespace u = false -> trim (a ++ [u]) = trimStart a ++ [u].
Proof.
  intros Hu. unfold trim. rewrite trimStart_snoc by assumption.
  apply trimEnd_fixed. now apply lastOk_snoc.
Qed.

Lemma truthy_true (s : jsstring) : truthy s = true <-> s <> [].
Proof. destruct s; simpl; split; congruence. Qed.

Lemma truthy_false (s : jsstring) : truthy s = false <-> s = [].
Proof. destruct s; simpl; split; congruence. Qed.

Lemma truthy_length (s : jsstring) : truthy s = true <-> 0 < length s.
Proof. destruct s; simpl; split; (congruence || lia). Qed.

End JSFacts.

(** ** Sentence extraction *)

Module ExtractFacts.
Import JS JSFacts Bufferer Predicates.

Lemma terminator_one_unit (ch : jsstring) :
  isSentenceTerminator ch = true -> exists u, ch = [u].
Proof.
  destruct ch as [|u [|v ch]]; simpl; try discriminate. intros _. now exists u.
Qed.

Lemma terminator_not_whitespace (u : N) :
  isSentenceTerminator [u] = true -> isWhitespace u = false.
Proof.
  unfold isSentenceTerminator. intros H.
  repeat (apply orb_true_iff in H as [H|H]); apply N.eqb_eq in H; subst; reflexivity.
Qed.

(** The code's test accepts exactly the six terminators. *)
Lemma isSentenceTerminator_iff (u : N) :
  isSentenceTerminator [u] = true <-> In u terminators.
Proof.
  unfold isSentenceTerminator, terminators. cbn [In].
  rewrite !orb_true_iff, !N.eqb_eq. intuition congruence.
Qed.

Lemma isSentenceTerminator_false (u : N) :
  isSentenceTerminator [u] = false <-> ~ In u terminators.
Proof.
  rewrite <- isSentenceTerminator_iff. destruct (isSentenceTerminator [u]); split;
    congruence.
Qed.

Lemma high_surrogate_not_terminator (h : N) :
  isHighSurrogate h = true -> isSentenceTerminator [h] = false.
Proof.
  unfold isHighSurrogate, isSentenceTerminator. intros H.
  apply andb_true_iff in H as [H1 H2]. apply N.leb_le in H1, H2.
  repeat rewrite orb_false_iff. repeat split; apply N.eqb_neq; lia.
Qed.

Lemma low_surrogate_not_terminator (l : N) :
  isLowSurrogate l = true -> isSentenceTerminator [l] = false.
Proof.
  unfold isLowSurrogate, isSentenceTerminator. intros H.
  apply andb_true_iff in H as [H1 H2]. apply N.leb_le in H1, H2.
  repeat rewrite orb_false_iff. repeat split; apply N.eqb_neq; lia.
Qed.

Lemma noTerminator_app (a b : jsstring) :
  noTerminator (a ++ b) <-> noTerminator a /\ noTerminator b.
Proof. apply Forall_app. Qed.

Lemma noTerminator_trim (s : jsstring) : noTerminator s -> noTerminator (trim s).
Proof.
  intros H. unfold trim.
  destruct (trimStart_suffix s) as [w1 H1].
  destruct (trimEnd_prefix (trimStart s)) as [w2 H2].
  rewrite H1, H2 in H.
  apply noTerminator_app in H as [_ H]. now apply noTerminator_app in H as [H _].
Qed.

(** A code point that does not close a sentence carries no terminator. *)
Lemma open_code_point (ch : jsstring) :
  codePointShape ch -> isSentenceTerminator ch = false -> noTerminator ch.
Proof.
  intros [[u ->] | (h & l & -> & Hh & Hl)] Hch.
  - constructor; [now apply isSentenceTerminator_false | constructor].
  - constructor; [|constructor; [|constructor]].
    + now apply isSentenceTerminator_false, high_surrogate_not_terminator.
    + now apply isSentenceTerminator_false, low_surrogate_not_terminator.
Qed.

Lemma concat_snoc (l : list jsstring) (s : jsstring) : concat (l ++ [s]) = concat l ++ s.
Proof. rewrite concat_app. simpl. now rewrite app_nil_r. Qed.

(** What the loop of [extractCompletedSentences] keeps true. *)
Lemma extractLoop_inv (chars : list jsstring) :
  Forall codePointShape chars ->
  forall (completed : list jsstring) (current : jsstring),
    Forall (fun c : jsstring => c <> [] /\ endsInTerminator c) completed ->
    noTerminator current ->
    Forall (fun c : jsstring => c <> [] /\ endsInTerminator c)
      (fst (extractLoop chars (completed, current)))
    /\ noTerminator (snd (extractLoop chars (completed, current)))
    /\ stripWs (concat (fst (extractLoop chars (completed, current)))
                ++ snd (extractLoop chars (completed, current)))
       = stripWs (concat completed ++ current ++ concat chars).
Proof.
  induction 1 as [|ch chars Hch Hchars IH]; intros completed current Hc Hr.
  - simpl. rewrite app_nil_r. auto.
  - unfold extractLoop in *. cbn [fold_left extractStep].
    destruct (isSentenceTerminator ch) eqn:E.
    + destruct (terminator_one_unit ch E) as [u ->].
      pose proof (terminator_not_whitespace u E) as Hu.
      rewrite trim_snoc by assumption.
      assert (Ht : truthy (trimStart current ++ [u]) = true)
        by (destruct (trimStart current); reflexivity).
      rewrite Ht.
      specialize (IH (completed ++ [trimStart current ++ [u]]) []).
      destruct IH as (I1 & I2 & I3).
      * apply Forall_app. split; [assumption|]. constructor; [|constructor]. split.
        -- destruct (trimStart current); discriminate.
        -- exists (trimStart current), u. split; [reflexivity|].
           now apply isSentenceTerminator_iff.
      * constructor.
      * repeat split; [assumption | assumption |].
        etransitivity; [exact I3|]. rewrite concat_snoc, concat_cons.
        rewrite !stripWs_app, stripWs_trimStart. now rewrite <- !app_assoc.
    + specialize (IH completed (current ++ ch) Hc).
      destruct IH as (I1 & I2 & I3).
      * apply noTerminator_app. split; [assumption | now apply open_code_point].
      * repeat split; [assumption | assumption |].
        etransitivity; [exact I3|]. rewrite concat_cons. now rewrite <- !app_assoc.
Qed.

(** Sentence extraction partitions the text, whitespace apart. *)
Lemma extract_partition (s : jsstring) :
  Forall (fun c : jsstring => c <> [] /\ endsInTerminator c)
    (fst (extractCompletedSentences s))
  /\ noTerminator (snd (extractCompletedSentences s))
  /\ stripWs (concat (fst (extractCompletedSentences s))
              ++ snd (extractCompletedSentences s))
     = stripWs s.
Proof.
  unfold extractCompletedSentences.
  set (cleaned := trim (collapseWhitespace s)).
  assert (Hs : stripWs cleaned = stripWs s)
    by (unfold cleaned; now rewrite stripWs_trim, stripWs_collapse).
  destruct (truthy cleaned) eqn:E; cbn [negb].
  - pose proof (extractLoop_inv (stringIterator cleaned) (stringIterator_shape cleaned)
                  [] [] ltac:(constructor) ltac:(constructor)) as (I1 & I2 & I3).
    destruct (extractLoop (stringIterator cleaned) ([], [])) as [completed current].
    simpl in *. repeat split.
    + assumption.
    + now apply noTerminator_trim.
    + rewrite stripWs_app, stripWs_trim, <- stripWs_app, I3.
      now rewrite concat_stringIterator.
  - apply truthy_false in E. rewrite E in Hs. simpl in *.
    repeat split; [constructor | constructor | now rewrite <- Hs].
Qed.

(** C10. For every string [s], [extractCompletedSentences s] returns
    completed sentences that are each non-empty and end in one of the
    terminators [. ! ?] U+3002 U+FF01 U+FF1F, and a remainder that contains
    no terminator; the completed sentences followed by the remainder, with
    all whitespace removed, are [s] with all whitespace removed: sentence
    extraction neither loses, duplicates nor reorders a unit that is not
    whitespace. *)
Theorem extractCompletedSentences_partition (s : jsstring) :
  Forall (fun c : jsstring => c <> [] /\ endsInTerminator c)
    (fst (extractCompletedSentences s))
  /\ noTerminator (snd (extractCompletedSentences s))
  /\ stripWs (concat (fst (extractCompletedSentences s))
              ++ snd (extractCompletedSentences s))
     = stripWs s.
Proof. exact (extract_partition s). Qed.

End ExtractFacts.

(** ** Chunk packing *)

Module ChunkFacts.
Import JS JSFacts Bufferer Predicates.

Lemma lastIndexOf_lower (c : N) (s : jsstring) : (-1 <= lastIndexOf c s)%Z.
Proof.
  induction s as [|u s IH]; simpl; [lia|].
  destruct (0 <=? lastIndexOf c s)%Z eqn:E; [apply Z.leb_le in E; lia|].
  destruct (u =? c)%N; lia.
Qed.

Lemma lastIndexOf_upper (c : N) (s : jsstring) : (lastIndexOf c s < Z.of_nat (length s))%Z.
Proof.
  induction s as [|u s IH]; simpl length; [simpl; lia|].
  cbn [lastIndexOf]. cbv zeta.
  destruct (0 <=? lastIndexOf c s)%Z; [lia|].
  destruct (u =? c)%N; lia.
Qed.

(** The index [lastIndexOf] returns holds the needle, and no later index
    does. *)
Lemma lastIndexOf_found (c : N) (s : jsstring) (i : nat) :
  lastIndexOf c s = Z.of_nat i ->
  s !! i = Some c /\ forall j, i < j -> s !! j <> Some c.
Proof.
  revert i. induction s as [|u s IH]; intros i; cbn [lastIndexOf]; cbv zeta; [lia|].
  destruct (0 <=? lastIndexOf c s)%Z eqn:E.
  - apply Z.leb_le in E. intros H. destruct i as [|i]; [lia|].
    destruct (IH i ltac:(lia)) as [H1 H2]. split; [exact H1|].
    intros [|j] Hj; [lia|]. simpl. apply H2. lia.
  - apply Z.leb_gt in E. destruct (N.eqb_spec u c) as [->|Hne]; [|lia].
    intros H. assert (i = 0) as -> by lia. split; [reflexivity|].
    intros [|j] Hj; [lia|]. simpl. intros Hc.
    assert (Hnone : forall (t : jsstring) k, lastIndexOf c t = (-1)%Z -> t !! k <> Some c).
    { clear. induction t as [|v t IHt]; intros k; cbn [lastIndexOf]; cbv zeta.
      - intros _. now destruct k.
      - destruct (0 <=? lastIndexOf c t)%Z eqn:E'.
        + apply Z.leb_le in E'. lia.
        + destruct (N.eqb_spec v c) as [->|Hne]; [lia|].
          intros _. destruct k as [|k]; simpl; [congruence|].
          apply IHt. apply Z.leb_gt in E'. pose proof (lastIndexOf_lower c t). lia. }
    apply (Hnone s j); [|exact Hc]. pose proof (lastIndexOf_lower c s). lia.
Qed.

(** Without an occurrence [lastIndexOf] answers [-1]. *)
Lemma lastIndexOf_none (c : N) (s : jsstring) :
  (lastIndexOf c s < 0)%Z -> forall j, s !! j <> Some c.
Proof.
  induction s as [|u s IH]; cbn [lastIndexOf]; cbv zeta; intros H j.
  - now destruct j.
  - destruct (0 <=? lastIndexOf c s)%Z eqn:E.
    + apply Z.leb_le in E. lia.
    + apply Z.leb_gt in E. destruct (N.eqb_spec u c) as [->|Hne]; [lia|].
      destruct j as [|j]; simpl; [congruence | now apply IH].
Qed.

Section Budget.

Variable maxChars : nat.
Hypothesis maxChars_pos : 0 < maxChars.

Lemma cutAt_bounds (remaining : jsstring) :
  1 <= cutAt remaining maxChars <= maxChars.
Proof.
  unfold cutAt, pastSixTenths, sliceTo.
  pose proof (lastIndexOf_upper SPACE (take maxChars remaining)) as Hu.
  rewrite length_take in Hu.
  destruct (3 * Z.of_nat maxChars <? 5 * lastIndexOf SPACE (take maxChars remaining))%Z eqn:E.
  - apply Z.ltb_lt in E. lia.
  - lia.
Qed.

Lemma stripWs_trim_nil (s : jsstring) : trim s = [] -> stripWs s = [].
Proof. intros H. now rewrite <- stripWs_trim, H. Qed.

Lemma chunkLoop_inv (fuel : nat) :
  forall (chunks : list jsstring) (remaining : jsstring) r,
    chunkLoop fuel maxChars chunks remaining = Some r ->
    Forall (goodPiece maxChars) chunks ->
    Forall (goodPiece maxChars) (fst r)
    /\ (trim remaining = remaining -> trim (snd r) = snd r)
    /\ length (snd r) <= maxChars
    /\ stripWs (concat (fst r) ++ snd r) = stripWs (concat chunks ++ remaining).
Proof.
  induction fuel as [|fuel IH]; intros chunks remaining r; cbn [chunkLoop].
  - destruct (maxChars <? length remaining) eqn:E; [discriminate|].
    apply Nat.ltb_ge in E. intros [= <-] Hc. simpl. auto.
  - destruct (maxChars <? length remaining) eqn:E.
    + cbv zeta. intros Hr Hc.
      set (cut := cutAt remaining maxChars) in *.
      set (chunk := trim (sliceTo cut remaining)) in *.
      pose proof (cutAt_bounds remaining) as Hcut. fold cut in Hcut.
      apply IH in Hr.
      * destruct Hr as (I1 & I2 & I3 & I4). repeat split; try assumption.
        -- intros _. apply I2, trim_idem.
        -- etransitivity; [exact I4|].
           rewrite !stripWs_app, stripWs_trim.
           rewrite <- (stripWs_take_drop cut remaining), app_assoc. f_equal.
           destruct (truthy chunk) eqn:Et.
           ++ rewrite ExtractFacts.concat_snoc, stripWs_app. unfold chunk.
              now rewrite stripWs_trim.
           ++ apply truthy_false in Et. unfold chunk in Et.
              rewrite (stripWs_trim_nil _ Et). now rewrite app_nil_r.
      * destruct (truthy chunk) eqn:Et; [|assumption].
        apply Forall_app. split; [assumption|]. constructor; [|constructor].
        repeat split.
        -- now apply truthy_true.
        -- apply trim_idem.
        -- unfold chunk, sliceTo. pose proof (length_trim (take cut remaining)).
           rewrite length_take in *. lia.
    + apply Nat.ltb_ge in E. intros [= <-] Hc. simpl. auto.
Qed.

Lemma chunkLoop_total (fuel : nat) :
  forall (chunks : list jsstring) (remaining : jsstring),
    length remaining <= fuel + maxChars ->
    exists r, chunkLoop fuel maxChars chunks remaining = Some r.
Proof.
  induction fuel as [|fuel IH]; intros chunks remaining Hlen; cbn [chunkLoop].
  - destruct (maxChars <? length remaining) eqn:E; [|eauto].
    apply Nat.ltb_lt in E. simpl in Hlen. lia.
  - destruct (maxChars <? length remaining) eqn:E; [|eauto].
    cbv zeta. apply IH. apply Nat.ltb_lt in E.
    pose proof (cutAt_bounds remaining) as Hcut.
    pose proof (length_trim (sliceFrom (cutAt remaining maxChars) remaining)) as Ht.
    unfold sliceFrom in *. rewrite length_drop in Ht. lia.
Qed.

(** [chunkText] returns, and its pieces are fit and keep every unit that
    is not whitespace. *)
Lemma chunkText_total (text : jsstring) : exists out, chunkText text maxChars = Some out.
Proof.
  unfold chunkText.
  destruct (truthy (trim text)); [|simpl; eauto]. cbn [negb].
  destruct (length (trim text) <=? maxChars); [eauto|].
  destruct (chunkLoop_total (length (trim text)) [] (trim text) ltac:(lia)) as [[c r] ->].
  eauto.
Qed.

Lemma chunkText_spec (text : jsstring) (out : list jsstring) :
  chunkText text maxChars = Some out ->
  Forall (goodPiece maxChars) out /\ stripWs (concat out) = stripWs text.
Proof.
  unfold chunkText.
  destruct (truthy (trim text)) eqn:Et; cbn [negb].
  - destruct (length (trim text) <=? maxChars) eqn:El.
    + intros [= <-]. apply Nat.leb_le in El. split.
      * constructor; [|constructor]. repeat split;
          [now apply truthy_true | apply trim_idem | assumption].
      * simpl. now rewrite app_nil_r, stripWs_trim.
    + destruct (chunkLoop (length (trim text)) maxChars [] (trim text))
        as [[chunks remaining]|] eqn:Ec; [|discriminate].
      intros [= <-].
      destruct (chunkLoop_inv _ _ _ _ Ec ltac:(constructor)) as (I1 & I2 & I3 & I4).
      simpl in *. specialize (I2 (trim_idem text)).
      destruct (truthy remaining) eqn:Er.
      * split.
        -- apply Forall_app. split; [assumption|]. constructor; [|constructor].
           repeat split; [now apply truthy_true | assumption | assumption].
        -- rewrite ExtractFacts.concat_snoc, I4. apply stripWs_trim.
      * apply truthy_false in Er. subst remaining. rewrite app_nil_r in I4.
        split; [assumption|]. rewrite I4. apply stripWs_trim.
  - intros [= <-]. split; [constructor|]. apply truthy_false in Et.
    simpl. symmetry. now apply stripWs_trim_nil.
Qed.

End Budget.

End ChunkFacts.

Module PackFacts.
Import JS JSFacts Bufferer Predicates ChunkFacts.

Lemma trimStart_nil_all (s : jsstring) :
  trimStart s = [] -> forall u, In u s -> isWhitespace u = true.
Proof.
  induction s as [|v s IH]; simpl; [tauto|].
  destruct (isWhitespace v) eqn:E; [|discriminate].
  intros H u [<-|Hu]; auto.
Qed.

Lemma trim_nonempty (s : jsstring) : headOk s = true -> s <> [] -> trim s <> [].
Proof.
  intros Hh Hne Ht. unfold trim in Ht. rewrite trimStart_fixed in Ht by assumption.
  unfold trimEnd in Ht. apply (f_equal (@rev N)) in Ht.
  rewrite rev_involutive in Ht. simpl in Ht.
  destruct s as [|u s]; [congruence|]. simpl in Hh.
  rewrite (trimStart_nil_all _ Ht u) in Hh; [discriminate|].
  apply in_rev. rewrite rev_involutive. now left.
Qed.

Lemma headOk_of_trimmed (s : jsstring) : trim s = s -> headOk s = true.
Proof. intros <-. apply headOk_trim. Qed.

Lemma lastOk_of_trimmed (s : jsstring) : trim s = s -> lastOk s = true.
Proof. intros <-. apply lastOk_trim. Qed.

Lemma headOk_app (a b : jsstring) : a <> [] -> headOk a = true -> headOk (a ++ b) = true.
Proof. destruct a; [congruence | auto]. Qed.

Lemma lastOk_app (a b : jsstring) : b <> [] -> lastOk b = true -> lastOk (a ++ b) = true.
Proof.
  unfold lastOk. intros Hb H. rewrite rev_app_distr. apply headOk_app; [|assumption].
  intros Hr. apply Hb. apply (f_equal (@rev N)) in Hr. now rewrite rev_involutive in Hr.
Qed.

(** Two trimmed, non-empty strings joined by one space are trimmed. *)
Lemma trim_joined (a b : jsstring) :
  trim a <> [] -> trim b <> [] ->
  trim (trim a ++ [SPACE] ++ trim b) = trim a ++ [SPACE] ++ trim b.
Proof.
  intros Ha Hb. apply trim_fixed.
  - apply headOk_app; [assumption | apply headOk_trim].
  - rewrite app_assoc. apply lastOk_app; [assumption | apply lastOk_trim].
Qed.

Lemma chunkLoop_done (fuel maxChars : nat) (chunks : list jsstring) (remaining : jsstring) :
  (maxChars <? length remaining) = false ->
  chunkLoop fuel maxChars chunks remaining = Some (chunks, remaining).
Proof. intros H. destruct fuel; simpl; now rewrite H. Qed.

Lemma chunkLoop_prefix (maxChars fuel : nat) :
  forall (pre chunks : list jsstring) (remaining : jsstring),
    chunkLoop fuel maxChars (pre ++ chunks) remaining =
    match chunkLoop fuel maxChars chunks remaining with
    | Some (cs, r) => Some (pre ++ cs, r)
    | None => None
    end.
Proof.
  induction fuel as [|fuel IH]; intros pre chunks remaining; cbn [chunkLoop].
  - now destruct (maxChars <? length remaining).
  - destruct (maxChars <? length remaining); [|reflexivity]. cbv zeta.
    destruct (truthy (trim (sliceTo (cutAt remaining maxChars) remaining))).
    + rewrite <- app_assoc. apply IH.
    + apply IH.
Qed.

Lemma chunkLoop_more_fuel (maxChars fuel : nat) :
  forall (fuel' : nat) (chunks : list jsstring) (remaining : jsstring) r,
    chunkLoop fuel maxChars chunks remaining = Some r ->
    fuel <= fuel' ->
    chunkLoop fuel' maxChars chunks remaining = Some r.
Proof.
  induction fuel as [|fuel IH]; intros fuel' chunks remaining r; cbn [chunkLoop].
  - destruct (maxChars <? length remaining) eqn:E; [discriminate|].
    intros [= <-] _. now apply chunkLoop_done.
  - destruct (maxChars <? length remaining) eqn:E.
    + cbv zeta. intros H Hle. destruct fuel' as [|fuel']; [lia|].
      cbn [chunkLoop]. rewrite E. cbv zeta. apply IH; [assumption | lia].
    + intros [= <-] _. now apply chunkLoop_done.
Qed.

Section Budget.

Variable maxChars : nat.
Hypothesis maxChars_pos : 0 < maxChars.

(** A trimmed string over the budget: its first piece is the trimmed
    prefix up to the cut, the rest is the chunking of what follows. *)
Lemma chunkText_long (t : jsstring) :
  trim t = t -> maxChars < length t ->
  trim (sliceTo (cutAt t maxChars) t) <> []
  /\ chunkText t maxChars =
     match chunkText (sliceFrom (cutAt t maxChars) t) maxChars with
     | Some rest => Some (trim (sliceTo (cutAt t maxChars) t) :: rest)
     | None => None
     end.
Proof.
  intros Ht Hlen.
  pose proof (cutAt_bounds maxChars maxChars_pos t) as Hcut.
  set (cut := cutAt t maxChars) in *.
  assert (Hfirst : trim (sliceTo cut t) <> []).
  { apply trim_nonempty.
    - destruct t as [|u t]; [simpl in Hlen; lia|].
      pose proof (headOk_of_trimmed _ Ht) as Hh.
      unfold sliceTo. destruct cut; [lia | exact Hh].
    - unfold sliceTo. intros E. apply (f_equal (@length N)) in E.
      rewrite length_take in E. simpl in E. lia. }
  split; [assumption|].
  unfold chunkText at 1. rewrite Ht.
  assert (Etr : truthy t = true) by (apply truthy_length; lia).
  rewrite Etr. cbn [negb].
  assert (El : (length t <=? maxChars) = false) by (apply Nat.leb_gt; lia).
  rewrite El.
  destruct (length t) as [|n] eqn:En; [lia|].
  cbn [chunkLoop].
  assert (Ec : (maxChars <? length t) = true) by (apply Nat.ltb_lt; lia).
  rewrite Ec. cbv zeta. fold cut.
  apply truthy_true in Hfirst. rewrite Hfirst.
  change ([] ++ [trim (sliceTo cut t)]) with ([trim (sliceTo cut t)] ++ []).
  rewrite chunkLoop_prefix.
  set (r := trim (sliceFrom cut t)).
  assert (Hr : length r <= n).
  { unfold r, sliceFrom. pose proof (length_trim (drop cut t)) as H.
    rewrite length_drop in H. lia. }
  unfold chunkText. fold r.
  destruct (truthy r) eqn:Er; cbn [negb].
  - destruct (length r <=? maxChars) eqn:Elr.
    + rewrite chunkLoop_done by (apply Nat.ltb_ge; now apply Nat.leb_le).
      now rewrite Er.
    + destruct (chunkLoop_total maxChars maxChars_pos (length r) [] r ltac:(lia))
        as [[cs rem] Hcs].
      rewrite Hcs. rewrite (chunkLoop_more_fuel _ _ _ _ _ _ Hcs Hr).
      now destruct (truthy rem).
  - apply truthy_false in Er. rewrite Er.
    rewrite chunkLoop_done by (apply Nat.ltb_ge; simpl; lia).
    reflexivity.
Qed.

(** A string that fits is one chunk. *)
Lemma chunkText_short (t : jsstring) :
  trim t <> [] -> length (trim t) <= maxChars -> chunkText t maxChars = Some [trim t].
Proof.
  intros Hne Hlen. unfold chunkText.
  apply truthy_true in Hne. rewrite Hne. cbn [negb].
  apply Nat.leb_le in Hlen. now rewrite Hlen.
Qed.

Lemma chunkText_trim (t : jsstring) : chunkText (trim t) maxChars = chunkText t maxChars.
Proof. unfold chunkText. now rewrite trim_idem. Qed.

(** The closure [flush]: it returns, its pieces are fit, and no unit that
    is not whitespace is lost. *)
Lemma packFlush_spec (out : list jsstring) (buf : jsstring) :
  Forall (goodPiece maxChars) out ->
  exists out', packFlush maxChars (out, buf) = Some (out', [])
    /\ Forall (goodPiece maxChars) out'
    /\ stripWs (concat out') = stripWs (concat out ++ buf).
Proof.
  intros Hout. unfold packFlush.
  destruct (truthy (trim buf)) eqn:E.
  - destruct (chunkText_total maxChars maxChars_pos (trim buf)) as [cs Hcs].
    rewrite Hcs. destruct (chunkText_spec maxChars maxChars_pos _ _ Hcs) as [G S].
    exists (out ++ cs). repeat split.
    + apply Forall_app. now split.
    + rewrite concat_app, !stripWs_app, S. now rewrite stripWs_trim.
  - exists out. repeat split; [assumption|].
    apply truthy_false in E. rewrite stripWs_app.
    now rewrite (stripWs_trim_nil _ E), app_nil_r.
Qed.

Lemma packStep_spec (out : list jsstring) (buf raw : jsstring) :
  Forall (goodPiece maxChars) out ->
  exists out' buf', packStep maxChars (out, buf) raw = Some (out', buf')
    /\ Forall (goodPiece maxChars) out'
    /\ stripWs (concat out' ++ buf') = stripWs (concat out ++ buf ++ raw).
Proof.
  intros Hout. unfold packStep.
  destruct (truthy (trim raw)) eqn:Ep; cbn [negb].
  - destruct (truthy buf) eqn:Eb; cbn [negb].
    + destruct (length (trim (buf ++ [SPACE] ++ trim raw)) <=? maxChars).
      * exists out, (trim (buf ++ [SPACE] ++ trim raw)). repeat split; [assumption|].
        rewrite !stripWs_app, stripWs_trim, !stripWs_app, stripWs_trim. reflexivity.
      * destruct (packFlush_spec out buf Hout) as (out' & -> & G & S).
        exists out', (trim raw). repeat split; [assumption|].
        rewrite stripWs_app, S, !stripWs_app, stripWs_trim. now rewrite app_assoc.
    + apply truthy_false in Eb. subst buf.
      exists out, (trim raw). repeat split; [assumption|].
      rewrite !stripWs_app, stripWs_trim. reflexivity.
  - exists out, buf. repeat split; [assumption|].
    apply truthy_false in Ep. rewrite !stripWs_app.
    now rewrite (stripWs_trim_nil _ Ep), app_nil_r.
Qed.

Lemma packLoop_spec (parts : list jsstring) :
  forall (out : list jsstring) (buf : jsstring),
    Forall (goodPiece maxChars) out ->
    exists out' buf', packLoop maxChars parts (out, buf) = Some (out', buf')
      /\ Forall (goodPiece maxChars) out'
      /\ stripWs (concat out' ++ buf') = stripWs (concat out ++ buf ++ concat parts).
Proof.
  induction parts as [|raw parts IH]; intros out buf Hout; cbn [packLoop].
  - exists out, buf. rewrite app_nil_r. auto.
  - destruct (packStep_spec out buf raw Hout) as (out1 & buf1 & -> & G1 & S1).
    destruct (IH out1 buf1 G1) as (out2 & buf2 & -> & G2 & S2).
    exists out2, buf2. repeat split; [assumption|].
    rewrite S2, concat_cons. rewrite (app_assoc (concat out1)), stripWs_app, S1.
    rewrite <- stripWs_app. now rewrite <- !app_assoc.
Qed.

(** [packIntoChunks] returns; every piece is non-empty, trimmed and within
    the budget; the pieces hold the units of the parts that are not
    whitespace, each once and in order. *)
Lemma packIntoChunks_spec (parts : list jsstring) :
  exists out, packIntoChunks parts maxChars = Some out
    /\ Forall (goodPiece maxChars) out
    /\ stripWs (concat out) = stripWs (concat parts).
Proof.
  unfold packIntoChunks.
  destruct (packLoop_spec parts [] [] ltac:(constructor)) as (out1 & buf1 & -> & G1 & S1).
  destruct (packFlush_spec out1 buf1 G1) as (out2 & -> & G2 & S2).
  exists out2. repeat split; [assumption|]. now rewrite S2, S1.
Qed.

(** A fit piece passes [truncateForQuery] unchanged. *)
Lemma truncateForQuery_fit (p : jsstring) :
  goodPiece maxChars p -> truncateForQuery p maxChars = p.
Proof.
  intros (_ & Ht & Hl). unfold truncateForQuery. rewrite Ht.
  apply Nat.leb_le in Hl. now rewrite Hl.
Qed.

End Budget.

End PackFacts.

Module PackingClaims.
Import JS JSFacts Bufferer Predicates ChunkFacts PackFacts.

(** Where [chunkText] cuts: at the last space of the first [maxChars]
    units when that space lies past six tenths of the budget, else at the
    budget. *)
Lemma cutAt_spec (t : jsstring) (maxChars : nat) :
  (3 * maxChars < 5 * cutAt t maxChars /\ cutAt t maxChars < maxChars
   /\ t !! cutAt t maxChars = Some SPACE
   /\ forall j, cutAt t maxChars < j -> j < maxChars -> t !! j <> Some SPACE)
  \/ (cutAt t maxChars = maxChars
      /\ forall j, 3 * maxChars < 5 * j -> j < maxChars -> t !! j <> Some SPACE).
Proof.
  unfold cutAt, pastSixTenths, sliceTo.
  pose proof (lastIndexOf_upper SPACE (take maxChars t)) as Hu.
  rewrite length_take in Hu.
  destruct (3 * Z.of_nat maxChars <? 5 * lastIndexOf SPACE (take maxChars t))%Z eqn:E.
  - apply Z.ltb_lt in E. left.
    destruct (lastIndexOf_found SPACE (take maxChars t)
                (Z.to_nat (lastIndexOf SPACE (take maxChars t))) ltac:(lia)) as [H1 H2].
    repeat split; try lia.
    + rewrite lookup_take_lt in H1 by lia. exact H1.
    + intros j Hj Hm Hs. apply (H2 j Hj). now rewrite lookup_take_lt.
  - apply Z.ltb_ge in E. right. split; [reflexivity|].
    intros j Hj Hm Hs.
    assert (Hs' : take maxChars t !! j = Some SPACE) by now rewrite lookup_take_lt.
    destruct (Z_lt_le_dec (lastIndexOf SPACE (take maxChars t)) 0) as [Hneg|Hpos].
    + exact (lastIndexOf_none _ _ Hneg j Hs').
    + destruct (lastIndexOf_found SPACE (take maxChars t)
                  (Z.to_nat (lastIndexOf SPACE (take maxChars t))) ltac:(lia)) as [_ H2].
      apply (H2 j); [lia | exact Hs'].
Qed.

Lemma packIntoChunks_two (maxChars : nat) (a b : jsstring) :
  0 < maxChars -> trim a <> [] -> trim b <> [] ->
  packIntoChunks [a; b] maxChars =
  if (length (trim a ++ [SPACE] ++ trim b) <=? maxChars)
  then Some [trim a ++ [SPACE] ++ trim b]
  else match chunkText a maxChars, chunkText b maxChars with
       | Some ca, Some cb => Some (ca ++ cb)
       | _, _ => None
       end.
Proof.
  intros Hmax Ha Hb.
  pose proof (proj2 (truthy_true _) Ha) as Ta.
  pose proof (proj2 (truthy_true _) Hb) as Tb.
  unfold packIntoChunks. cbn [packLoop].
  assert (S1 : packStep maxChars ([], []) a = Some ([], trim a))
    by (unfold packStep; now rewrite Ta).
  rewrite S1. unfold packStep. rewrite Tb, Ta. cbn [negb].
  rewrite (trim_joined a b Ha Hb).
  destruct (length (trim a ++ [SPACE] ++ trim b) <=? maxChars) eqn:E.
  - unfold packFlush. rewrite (trim_joined a b Ha Hb).
    assert (Hj : truthy (trim a ++ [SPACE] ++ trim b) = true)
      by (destruct (trim a); [congruence | reflexivity]).
    rewrite Hj. unfold chunkText. rewrite (trim_joined a b Ha Hb), Hj. cbn [negb].
    now rewrite E.
  - unfold packFlush at 1. rewrite trim_idem, Ta, chunkText_trim.
    destruct (chunkText a maxChars) as [ca|]; [|reflexivity].
    unfold packFlush. rewrite trim_idem, Tb, chunkText_trim.
    destruct (chunkText b maxChars) as [cb|]; reflexivity.
Qed.

(** *** Greedy packing of a list of chunks *)

Lemma cleanParts_cons (raw : jsstring) (parts : list jsstring) :
  cleanParts (raw :: parts)
  = if truthy (trim raw) then trim raw :: cleanParts parts else cleanParts parts.
Proof. reflexivity. Qed.

Lemma cleanParts_clean (parts : list jsstring) :
  Forall (fun c => c <> [] /\ trim c = c) (cleanParts parts).
Proof.
  induction parts as [|raw parts IH]; [constructor|].
  rewrite cleanParts_cons. destruct (truthy (trim raw)) eqn:E; [|exact IH].
  constructor; [|exact IH]. split; [now apply truthy_true | apply trim_idem].
Qed.

Lemma chunkEach_app_out (maxChars : nat) (out cs : list jsstring) (groups : list jsstring) :
  option_map (app (out ++ cs)) (chunkEach maxChars groups)
  = option_map (app out) (option_map (app cs) (chunkEach maxChars groups)).
Proof. destruct (chunkEach maxChars groups); cbn; [now rewrite app_assoc | reflexivity]. Qed.

(** The loop of [packIntoChunks] with a group in hand, and the closing
    [flush]: the pieces are the greedy groups, each passed through
    [chunkText]. *)
Lemma packLoop_greedy (maxChars : nat) (parts : list jsstring) :
  0 < maxChars ->
  forall (out : list jsstring) (buf : jsstring),
    buf <> [] -> trim buf = buf ->
    match packLoop maxChars parts (out, buf) with
    | Some st => option_map fst (packFlush maxChars st)
    | None => None
    end
    = option_map (app out) (chunkEach maxChars (greedyFrom maxChars buf (cleanParts parts))).
Proof.
  intros Hpos. induction parts as [|raw parts IH]; intros out buf Hne Ht.
  - cbn [packLoop cleanParts map List.filter greedyFrom chunkEach]. unfold packFlush.
    rewrite Ht. apply truthy_true in Hne. rewrite Hne.
    destruct (chunkText buf maxChars) as [cs|]; cbn; [now rewrite app_nil_r | reflexivity].
  - cbn [packLoop]. rewrite cleanParts_cons. unfold packStep.
    destruct (truthy (trim raw)) eqn:Ep; cbn [negb]; [|now apply IH].
    pose proof (proj2 (truthy_true _) Hne) as Tb. rewrite Tb. cbn [negb].
    apply truthy_true in Ep.
    assert (J : trim (buf ++ [SPACE] ++ trim raw) = buf ++ [SPACE] ++ trim raw).
    { rewrite <- Ht at 1 2. apply trim_joined; [now rewrite Ht | exact Ep]. }
    rewrite J. cbn [greedyFrom].
    destruct (length (buf ++ [SPACE] ++ trim raw) <=? maxChars) eqn:E.
    + apply IH; [|exact J]. destruct buf; [congruence | discriminate].
    + unfold packFlush at 1. rewrite Ht, Tb.
      cbn [chunkEach].
      destruct (chunkText buf maxChars) as [cs|]; [|reflexivity].
      rewrite (IH (out ++ cs) (trim raw) Ep (trim_idem raw)).
      rewrite chunkEach_app_out.
      destruct (chunkEach maxChars (greedyFrom maxChars (trim raw) (cleanParts parts)));
        reflexivity.
Qed.

Lemma packLoop_blank (maxChars : nat) (parts : list jsstring) (out : list jsstring) :
  cleanParts parts = [] -> packLoop maxChars parts (out, []) = Some (out, []).
Proof.
  induction parts as [|raw parts IH]; [reflexivity|].
  rewrite cleanParts_cons. destruct (truthy (trim raw)) eqn:E; [discriminate|].
  intros H. cbn [packLoop]. unfold packStep. rewrite E. cbn [negb]. now apply IH.
Qed.

(** [packIntoChunks] is greedy packing followed by [chunkText] on every
    group. *)
Lemma packIntoChunks_greedy (maxChars : nat) (parts : list jsstring) :
  0 < maxChars ->
  packIntoChunks parts maxChars
  = chunkEach maxChars (greedyGroups maxChars (cleanParts parts)).
Proof.
  intros Hpos. unfold packIntoChunks.
  assert (G : forall parts,
             match packLoop maxChars parts ([], []) with
             | Some st => option_map fst (packFlush maxChars st)
             | None => None
             end = chunkEach maxChars (greedyGroups maxChars (cleanParts parts))).
  { clear parts. induction parts as [|raw parts IH]; [reflexivity|].
    cbn [packLoop]. rewrite cleanParts_cons. unfold packStep.
    destruct (truthy (trim raw)) eqn:Ep; cbn [negb truthy]; [|exact IH].
    cbn [greedyGroups].
    rewrite (packLoop_greedy maxChars parts Hpos [] (trim raw)
               (proj1 (truthy_true _) Ep) (trim_idem raw)).
    destruct (chunkEach maxChars (greedyFrom maxChars (trim raw) (cleanParts parts)));
      reflexivity. }
  rewrite <- G. destruct (packLoop maxChars parts ([], [])) as [st|]; [|reflexivity].
  destruct (packFlush maxChars st) as [[out buf]|]; reflexivity.
Qed.

(** Groups of chunks that fit the budget fit it. *)
Lemma greedyFrom_fit (maxChars : nat) (chunks : list jsstring) :
  forall group : jsstring,
    group <> [] -> trim group = group -> length group <= maxChars ->
    Forall (fun c => c <> [] /\ trim c = c) chunks ->
    Forall (fun c => length c <= maxChars) chunks ->
    Forall (goodPiece maxChars) (greedyFrom maxChars group chunks).
Proof.
  induction chunks as [|c chunks IH]; intros group Hne Ht Hl Hc Hf; cbn [greedyFrom].
  - repeat constructor; assumption.
  - apply Forall_cons in Hc as [[Hc1 Hc2] Hc]. apply Forall_cons in Hf as [Hf1 Hf].
    destruct (length (group ++ [SPACE] ++ c) <=? maxChars) eqn:E.
    + apply Nat.leb_le in E. apply IH; try assumption.
      * destruct group; [congruence | discriminate].
      * rewrite <- Ht, <- Hc2. apply trim_joined; [now rewrite Ht | now rewrite Hc2].
    + constructor; [repeat split; assumption|]. now apply IH.
Qed.

Lemma chunkEach_fit (maxChars : nat) (groups : list jsstring) :
  Forall (goodPiece maxChars) groups -> chunkEach maxChars groups = Some groups.
Proof.
  induction 1 as [|g groups (Hne & Ht & Hl) _ IH]; [reflexivity|].
  cbn [chunkEach]. rewrite IH.
  assert (E : chunkText g maxChars = Some [g]).
  { unfold chunkText. rewrite Ht. apply truthy_true in Hne. rewrite Hne. cbn [negb].
    apply Nat.leb_le in Hl. now rewrite Hl. }
  now rewrite E.
Qed.

Lemma packIntoChunks_greedy_fit (maxChars : nat) (parts : list jsstring) :
  0 < maxChars ->
  Forall (fun c => length c <= maxChars) (cleanParts parts) ->
  packIntoChunks parts maxChars = Some (greedyGroups maxChars (cleanParts parts)).
Proof.
  intros Hpos Hf. rewrite (packIntoChunks_greedy maxChars parts Hpos).
  apply chunkEach_fit. pose proof (cleanParts_clean parts) as Hc.
  destruct (cleanParts parts) as [|c chunks]; [constructor|]. cbn [greedyGroups].
  apply Forall_cons in Hc as [[Hc1 Hc2] Hc]. apply Forall_cons in Hf as [Hf1 Hf].
  now apply greedyFrom_fit.
Qed.

(** C8. Packing joins chunks with a single space up to 450 characters.  Two
    chunks (taken without outer whitespace, neither blank) whose joined
    length is at most 450 yield the one combined chunk; when the joined
    length exceeds 450 each is chunked on its own, which yields the two
    chunks separately when each fits.  A single chunk longer than 450 is
    cut at the last space among its first 450 characters if that space lies
    past index 270, and exactly at 450 if no space lies there; the first
    piece is the text before the cut and the rest is chunked in the same
    way.  For a list of chunks of any length, the result is greedy packing:
    the chunks (trimmed, the blank ones left out) are taken in order, each
    joined to the current group after a single space as long as the group
    stays within 450, a new group being opened otherwise; every group then
    passes through [chunkText], which leaves a group within 450 as it is. *)
Theorem packIntoChunks_joins_and_splits :
  (forall a b : jsstring,
      trim a <> [] -> trim b <> [] ->
      (length (trim a ++ [SPACE] ++ trim b) <= 450 ->
       packIntoChunks [a; b] 450 = Some [trim a ++ [SPACE] ++ trim b])
      /\ (450 < length (trim a ++ [SPACE] ++ trim b) ->
          (exists ca cb, chunkText a 450 = Some ca /\ chunkText b 450 = Some cb
                         /\ packIntoChunks [a; b] 450 = Some (ca ++ cb))
          /\ (length (trim a) <= 450 -> length (trim b) <= 450 ->
              packIntoChunks [a; b] 450 = Some [trim a; trim b])))
  /\ (forall t : jsstring,
         450 < length (trim t) ->
         ((270 < cutAt (trim t) 450 < 450
           /\ trim t !! cutAt (trim t) 450 = Some SPACE
           /\ forall j, cutAt (trim t) 450 < j < 450 -> trim t !! j <> Some SPACE)
          \/ (cutAt (trim t) 450 = 450
              /\ forall j, 270 < j < 450 -> trim t !! j <> Some SPACE))
         /\ trim (sliceTo (cutAt (trim t) 450) (trim t)) <> []
         /\ exists rest,
             chunkText (sliceFrom (cutAt (trim t) 450) (trim t)) 450 = Some rest
             /\ chunkText t 450
                = Some (trim (sliceTo (cutAt (trim t) 450) (trim t)) :: rest))
  /\ (forall parts : list jsstring,
         packIntoChunks parts 450 = chunkEach 450 (greedyGroups 450 (cleanParts parts)))
  /\ (forall parts : list jsstring,
         Forall (fun c => length c <= 450) (cleanParts parts) ->
         packIntoChunks parts 450 = Some (greedyGroups 450 (cleanParts parts))).
Proof.
  assert (Hpos : 0 < 450) by lia.
  split; [|split; [|split]];
    [| | intros parts; now apply packIntoChunks_greedy
       | intros parts Hf; now apply packIntoChunks_greedy_fit].
  - intros a b Ha Hb.
    pose proof (packIntoChunks_two 450 a b Hpos Ha Hb) as Hp.
    split.
    + intros Hle. apply Nat.leb_le in Hle. now rewrite Hle in Hp.
    + intros Hgt. apply Nat.leb_gt in Hgt. rewrite Hgt in Hp.
      destruct (chunkText_total 450 Hpos a) as [ca Hca].
      destruct (chunkText_total 450 Hpos b) as [cb Hcb].
      rewrite Hca, Hcb in Hp. split.
      * now exists ca, cb.
      * intros La Lb. rewrite Hp.
        rewrite (chunkText_short 450 a Ha La) in Hca.
        rewrite (chunkText_short 450 b Hb Lb) in Hcb.
        now injection Hca as <-; injection Hcb as <-.
  - intros t Hlen. split; [|].
    + destruct (cutAt_spec (trim t) 450) as [(H1 & H2 & H3 & H4) | (H1 & H2)].
      * left. repeat split; try lia; [exact H3|].
        intros j Hj. apply H4; lia.
      * right. split; [exact H1|]. intros j Hj. apply H2; lia.
    + destruct (chunkText_long 450 Hpos (trim t) (trim_idem t) Hlen) as [Hne Heq].
      split; [exact Hne|].
      destruct (chunkText_total 450 Hpos (sliceFrom (cutAt (trim t) 450) (trim t)))
        as [rest Hrest].
      exists rest. split; [exact Hrest|].
      rewrite <- (chunkText_trim 450 t). now rewrite Heq, Hrest.
Qed.

(** The example of the specification: two short sentences become one
    chunk. *)
Example pack_short_sentences :
  packIntoChunks [lit "A short sentence."; lit "Another one."] 450
  = Some [lit "A short sentence. Another one."].
Proof. vm_compute. reflexivity. Qed.

(** Two sentences of 300 characters each do not fit together. *)
Example pack_long_sentences :
  packIntoChunks [repeat 97%N 299 ++ lit "."; repeat 98%N 299 ++ lit "."] 450
  = Some [repeat 97%N 299 ++ lit "."; repeat 98%N 299 ++ lit "."].
Proof. vm_compute. reflexivity. Qed.

(** Three sentences of 300, 300 and 2 characters: the third joins the
    second. *)
Example pack_three_sentences :
  packIntoChunks [repeat 97%N 299 ++ lit "."; repeat 98%N 299 ++ lit "."; lit "c."] 450
  = Some [repeat 97%N 299 ++ lit "."; repeat 98%N 299 ++ lit "." ++ lit " c."].
Proof. vm_compute. reflexivity. Qed.

(** 500 characters with spaces at 100, 280 and 300 only: the cut falls at
    300. *)
Example chunk_at_last_space :
  chunkText (repeat 97%N 100 ++ [SPACE] ++ repeat 98%N 179 ++ [SPACE]
             ++ repeat 99%N 19 ++ [SPACE] ++ repeat 100%N 199) 450
  = Some [repeat 97%N 100 ++ [SPACE] ++ repeat 98%N 179 ++ [SPACE] ++ repeat 99%N 19;
          repeat 100%N 199].
Proof. vm_compute. reflexivity. Qed.

(** 500 characters whose only space is at index 100: the cut falls at
    450. *)
Example chunk_at_limit :
  chunkText (repeat 97%N 100 ++ [SPACE] ++ repeat 98%N 399) 450
  = Some [repeat 97%N 100 ++ [SPACE] ++ repeat 98%N 349; repeat 98%N 50].
Proof. vm_compute. reflexivity. Qed.

End PackingClaims.

(** ** The component: segments and flushing *)

Module ComponentFacts.
Import JS JSFacts Bufferer Predicates ChunkFacts PackFacts Timers Component.

Lemma map_insert_same {A B : Type} (f : A -> B) (l : list A) (i : nat) (x y : A) :
  l !! i = Some x -> f y = f x -> map f (<[i := y]> l) = map f l.
Proof.
  revert i. induction l as [|a l IH]; intros [|i]; simpl; try discriminate.
  - intros [= ->] ->. reflexivity.
  - intros H E. f_equal. now apply IH.
Qed.

Lemma controls_inv (st st' : component) :
  controls st' = controls st ->
  switches st' = switches st /\ speechBuffer st' = speechBuffer st
  /\ selectedLanguage st' = selectedLanguage st /\ manualMode st' = manualMode st
  /\ timers st' = timers st /\ isListening st' = isListening st.
Proof. unfold controls, switches. intros [= -> -> -> -> -> -> ->]. repeat split. Qed.

Lemma updateSegment_keeps (id : nat) (p : patch) (st : component) :
  ids (updateSegment id p st) = ids st
  /\ originals (updateSegment id p st) = originals st
  /\ nextSegmentId (updateSegment id p st) = nextSegmentId st
  /\ requests (updateSegment id p st) = requests st
  /\ controls (updateSegment id p st) = controls st.
Proof.
  unfold updateSegment, ids, originals.
  destruct (list_find _ _) as [[idx s]|] eqn:E; [|auto].
  apply list_find_Some in E as (Hl & _ & _). cbn.
  repeat split; now apply map_insert_same with (x := s).
Qed.

Lemma rebuildDisplayStrings_keeps (st : component) :
  segments (rebuildDisplayStrings st) = segments st
  /\ nextSegmentId (rebuildDisplayStrings st) = nextSegmentId st
  /\ requests (rebuildDisplayStrings st) = requests st
  /\ controls (rebuildDisplayStrings st) = controls st.
Proof. unfold rebuildDisplayStrings. destruct (manualMode st); cbn; auto. Qed.

Lemma settle_keeps (st : component) :
  segments (settle st) = segments st
  /\ nextSegmentId (settle st) = nextSegmentId st
  /\ requests (settle st) = requests st
  /\ controls (settle st) = controls st.
Proof. unfold settle. cbn. auto. Qed.

(** What the translate callbacks leave alone. *)
Lemma translateNext_keeps (id : nat) (r : translateResult) (st : component) :
  ids (translateNext id r st) = ids st
  /\ originals (translateNext id r st) = originals st
  /\ nextSegmentId (translateNext id r st) = nextSegmentId st
  /\ requests (translateNext id r st) = requests st
  /\ controls (translateNext id r st) = controls st.
Proof.
  unfold translateNext.
  set (st1 := if errorTruthy (error_of r) then _ else _).
  destruct (rebuildDisplayStrings_keeps (settle st1)) as (R1 & R2 & R3 & R4).
  destruct (settle_keeps st1) as (S1 & S2 & S3 & S4).
  unfold ids, originals. rewrite R1, R2, R3, R4, S1, S2, S3, S4.
  unfold st1. destruct (errorTruthy (error_of r)).
  - destruct (updateSegment_keeps id (resolved []) st) as (U1 & U2 & U3 & U4 & U5).
    cbn. unfold ids, originals in *. auto.
  - apply updateSegment_keeps.
Qed.

Lemma translateError_keeps (id : nat) (st : component) :
  ids (translateError id st) = ids st
  /\ originals (translateError id st) = originals st
  /\ nextSegmentId (translateError id st) = nextSegmentId st
  /\ requests (translateError id st) = requests st
  /\ controls (translateError id st) = controls st.
Proof.
  unfold translateError.
  destruct (rebuildDisplayStrings_keeps (settle (updateSegment id (resolved []) st)))
    as (R1 & R2 & R3 & R4).
  destruct (settle_keeps (updateSegment id (resolved []) st)) as (S1 & S2 & S3 & S4).
  unfold ids, originals. rewrite R1, R2, R3, R4, S1, S2, S3, S4.
  apply updateSegment_keeps.
Qed.

(** The count of the errors of [translate], which only a call of it
    touches. *)
Lemma updateSegment_uncaught (id : nat) (p : patch) (st : component) :
  uncaught (updateSegment id p st) = uncaught st.
Proof. unfold updateSegment. now destruct (list_find _ _) as [[idx s]|]. Qed.

Lemma rebuildDisplayStrings_uncaught (st : component) :
  uncaught (rebuildDisplayStrings st) = uncaught st.
Proof. unfold rebuildDisplayStrings. now destruct (manualMode st). Qed.

Lemma translateNext_uncaught (id : nat) (r : translateResult) (st : component) :
  uncaught (translateNext id r st) = uncaught st.
Proof.
  unfold translateNext. rewrite rebuildDisplayStrings_uncaught.
  unfold settle. cbn.
  destruct (errorTruthy (error_of r)); cbn; apply updateSegment_uncaught.
Qed.

Lemma translateError_uncaught (id : nat) (st : component) :
  uncaught (translateError id st) = uncaught st.
Proof.
  unfold translateError. rewrite rebuildDisplayStrings_uncaught.
  unfold settle. cbn. apply updateSegment_uncaught.
Qed.

(** A text without an unpaired surrogate makes no call throw. *)
Lemma wellFormed_no_throw (text : jsstring) (st : component) :
  wellFormed (truncateForQuery text MAX_CHARS) = true ->
  appendSegmentThrows text st = false.
Proof.
  intros W. unfold appendSegmentThrows, translateThrows. rewrite W.
  cbn [negb]. now rewrite andb_false_r, andb_false_r.
Qed.

(** [appendSegment] adds one segment at the end, with the next id, and
    sends its text when a source language is selected and the call of
    [translate] returns. *)
Lemma appendSegment_adds (text : jsstring) (st : component) :
  ids (appendSegment text st) = ids st ++ [nextSegmentId st]
  /\ originals (appendSegment text st) = originals st ++ [truncateForQuery text MAX_CHARS]
  /\ nextSegmentId (appendSegment text st) = S (nextSegmentId st)
  /\ dispatched (appendSegment text st)
     = dispatched st ++ (if String.eqb (selectedLanguage st) "" then []
                         else if appendSegmentThrows text st then []
                              else [truncateForQuery text MAX_CHARS])
  /\ controls (appendSegment text st) = controls st.
Proof.
  unfold appendSegment, appendSegmentThrows. cbv zeta.
  destruct (String.eqb (selectedLanguage st) "") eqn:E.
  - match goal with |- context [rebuildDisplayStrings ?x] =>
      destruct (rebuildDisplayStrings_keeps x) as (R1 & R2 & R3 & R4) end.
    match goal with |- context [updateSegment ?i ?p ?x] =>
      destruct (updateSegment_keeps i p x) as (U1 & U2 & U3 & U4 & U5) end.
    unfold ids, originals, dispatched in *. rewrite R1, R2, R3, R4, U1, U2, U3, U4, U5.
    cbn. rewrite !map_app, app_nil_r. auto.
  - cbn [negb andb].
    change (translateThrows (truncateForQuery text MAX_CHARS)
              (set_isTranslating true _))
      with (translateThrows (truncateForQuery text MAX_CHARS) st).
    destruct (translateThrows (truncateForQuery text MAX_CHARS) st);
      unfold ids, originals, dispatched; cbn; rewrite !map_app, ?app_nil_r; auto.
Qed.

(** The count of errors goes up by one exactly when the call throws. *)
Lemma appendSegment_uncaught (text : jsstring) (st : component) :
  uncaught (appendSegment text st)
  = if appendSegmentThrows text st then S (uncaught st) else uncaught st.
Proof.
  unfold appendSegment, appendSegmentThrows. cbv zeta.
  destruct (String.eqb (selectedLanguage st) "") eqn:E.
  - cbn [negb andb].
    now rewrite rebuildDisplayStrings_uncaught, updateSegment_uncaught.
  - cbn [negb andb].
    change (translateThrows (truncateForQuery text MAX_CHARS)
              (set_isTranslating true _))
      with (translateThrows (truncateForQuery text MAX_CHARS) st).
    now destruct (translateThrows (truncateForQuery text MAX_CHARS) st).
Qed.

Lemma attempted_all (pieces : list jsstring) :
  forall st : component,
    snd (appendPieces pieces st) = false -> attempted pieces st = pieces.
Proof.
  induction pieces as [|p pieces IH]; intros st; cbn [appendPieces attempted];
    [reflexivity|].
  destruct (appendSegmentThrows p st); [discriminate|].
  intros H. f_equal. now apply IH.
Qed.

(** An invariant of [appendSegment] is one of the loop. *)
Lemma appendPieces_invariant (P : component -> Prop) (pieces : list jsstring) :
  (forall piece st, goodPiece MAX_CHARS piece -> P st -> P (appendSegment piece st)) ->
  Forall (goodPiece MAX_CHARS) pieces ->
  forall st, P st -> P (fst (appendPieces pieces st)).
Proof.
  intros H G. induction G as [|p ps Hp _ IH]; intros st Hst; cbn [appendPieces];
    [exact Hst|].
  destruct (appendSegmentThrows p st); cbn [fst]; auto.
Qed.

(** The count of errors after the loop: as before when no call threw, one
    more when one did. *)
Lemma appendPieces_uncaught (pieces : list jsstring) :
  forall st : component,
    uncaught (fst (appendPieces pieces st))
    = if snd (appendPieces pieces st) then S (uncaught st) else uncaught st.
Proof.
  induction pieces as [|p pieces IH]; intros st; cbn [appendPieces]; [reflexivity|].
  pose proof (appendSegment_uncaught p st) as U.
  destruct (appendSegmentThrows p st); cbn [fst snd]; [exact U|].
  now rewrite IH, U.
Qed.

Lemma appendPieces_wellFormed (pieces : list jsstring) :
  Forall (fun p => wellFormed (truncateForQuery p MAX_CHARS) = true) pieces ->
  forall st : component, snd (appendPieces pieces st) = false.
Proof.
  induction 1 as [|p pieces Hp _ IH]; intros st; cbn [appendPieces]; [reflexivity|].
  rewrite (wellFormed_no_throw p st Hp). apply IH.
Qed.

Lemma appendSegments_add (pieces : list jsstring) :
  forall st : component,
    let st' := fst (appendPieces pieces st) in
    let done := attempted pieces st in
    ids st' = ids st ++ seq (nextSegmentId st) (length done)
    /\ originals st' = originals st ++ map (fun p => truncateForQuery p MAX_CHARS) done
    /\ nextSegmentId st' = nextSegmentId st + length done
    /\ (exists sent, dispatched st' = dispatched st ++ sent
          /\ (snd (appendPieces pieces st) = false ->
              sent = if String.eqb (selectedLanguage st) "" then []
                     else map (fun p => truncateForQuery p MAX_CHARS) pieces))
    /\ controls st' = controls st.
Proof.
  induction pieces as [|p pieces IH]; intros st; cbn [appendPieces attempted].
  - cbv zeta. cbn [fst snd length seq map]. rewrite !app_nil_r, Nat.add_0_r.
    repeat split. exists []. rewrite app_nil_r. split; [reflexivity|].
    now destruct (String.eqb _ _).
  - cbv zeta.
    destruct (appendSegment_adds p st) as (A1 & A2 & A3 & A4 & A5).
    assert (EL : selectedLanguage (appendSegment p st) = selectedLanguage st).
    { now apply controls_inv in A5 as (_ & _ & ? & _). }
    destruct (appendSegmentThrows p st) eqn:T; cbn [fst snd length seq map].
    + rewrite A1, A2, A3, A5. repeat split; try lia.
      eexists. split; [exact A4|]. discriminate.
    + specialize (IH (appendSegment p st)). cbv zeta in IH.
      destruct IH as (I1 & I2 & I3 & (sent & I4 & I4') & I5).
      rewrite I1, I2, I3, I5, A1, A2, A3, A5.
      repeat split; rewrite <- ?app_assoc; try reflexivity; try lia.
      eexists. split; [rewrite I4, A4, <- app_assoc; reflexivity|].
      intros F. rewrite (I4' F), EL.
      now destruct (String.eqb (selectedLanguage st) "").
Qed.

Lemma map_truncate_fit (pieces : list jsstring) :
  Forall (goodPiece MAX_CHARS) pieces ->
  map (fun p => truncateForQuery p MAX_CHARS) pieces = pieces.
Proof.
  induction 1 as [|p pieces Hp _ IH]; simpl; [reflexivity|].
  rewrite IH. f_equal. apply truncateForQuery_fit. exact Hp.
Qed.

Lemma MAX_CHARS_pos : 0 < MAX_CHARS.
Proof. unfold MAX_CHARS. lia. Qed.

Lemma flushPieces_good (force : bool) (buffer : jsstring) :
  Forall (goodPiece MAX_CHARS) (flushPieces force buffer).
Proof.
  unfold flushPieces. destruct (truthy (trim buffer)); [|constructor].
  destruct (packIntoChunks_spec MAX_CHARS MAX_CHARS_pos
              (fst (toTranslate force (trim buffer)))) as (pieces & -> & G & _).
  exact G.
Qed.

(** The three ways a flush ends: the buffer was blank; every piece was
    handed over; a call of [translate] threw. *)
Lemma flushSpeechBuffer_shape (force : bool) (st : component) :
  let pieces := flushPieces force (speechBuffer st) in
  (trim (speechBuffer st) = []
   /\ flushSpeechBuffer force st
      = Some (rebuildDisplayStrings
                (set_interimTranslated [] (set_interimOriginal [] st))))
  \/ (trim (speechBuffer st) <> []
      /\ snd (appendPieces pieces st) = false
      /\ flushSpeechBuffer force st
         = Some (rebuildDisplayStrings
                   (set_interimTranslated []
                      (set_interimOriginal (flushRest force (speechBuffer st))
                         (set_speechBuffer (flushRest force (speechBuffer st))
                            (fst (appendPieces pieces st)))))))
  \/ (trim (speechBuffer st) <> []
      /\ snd (appendPieces pieces st) = true
      /\ flushSpeechBuffer force st = Some (fst (appendPieces pieces st))).
Proof.
  cbv zeta. unfold flushSpeechBuffer, flushRest, flushPieces.
  destruct (truthy (trim (speechBuffer st))) eqn:E; cbn [negb].
  - right.
    assert (NE : trim (speechBuffer st) <> []) by now apply truthy_true.
    destruct (toTranslate force (trim (speechBuffer st))) as [parts remainder] eqn:ET.
    cbn [fst snd].
    destruct (packIntoChunks_spec MAX_CHARS MAX_CHARS_pos parts) as (pieces & HP & G & _).
    rewrite HP.
    assert (Hflushed :
      match parts with
      | [] => Some (st, false)
      | _ :: _ => Some (appendPieces pieces st)
      end = Some (appendPieces pieces st)).
    { destruct parts; [|reflexivity]. vm_compute in HP. now injection HP as <-. }
    rewrite Hflushed.
    destruct (appendPieces pieces st) as [st1 []]; cbn [fst snd]; auto.
  - left. apply truthy_false in E. auto.
Qed.

(** [flushSpeechBuffer] returns.  When no call of [translate] throws it
    appends the pieces of the flush as new segments, in order and with
    fresh ids, sends each when a source language is selected, and leaves
    [flushRest] in the buffer. *)
Lemma flushSpeechBuffer_spec (force : bool) (st : component) :
  exists st', flushSpeechBuffer force st = Some st'
    /\ switches st' = switches st
    /\ (uncaught st' = uncaught st
        /\ snd (appendPieces (flushPieces force (speechBuffer st)) st) = false
        /\ ids st' = ids st ++ seq (nextSegmentId st)
                                (length (flushPieces force (speechBuffer st)))
        /\ originals st' = originals st ++ flushPieces force (speechBuffer st)
        /\ nextSegmentId st'
           = nextSegmentId st + length (flushPieces force (speechBuffer st))
        /\ dispatched st'
           = dispatched st ++ (if String.eqb (selectedLanguage st) "" then []
                               else flushPieces force (speechBuffer st))
        /\ speechBuffer st' = flushRest force (speechBuffer st)
        \/ uncaught st' = S (uncaught st)
           /\ snd (appendPieces (flushPieces force (speechBuffer st)) st) = true
           /\ speechBuffer st' = speechBuffer st).
Proof.
  pose proof (flushPieces_good force (speechBuffer st)) as G.
  pose proof (appendSegments_add (flushPieces force (speechBuffer st)) st) as A.
  pose proof (appendPieces_uncaught (flushPieces force (speechBuffer st)) st) as U.
  cbv zeta in A. destruct A as (A1 & A2 & A3 & (sent & A4 & A4') & A5).
  apply controls_inv in A5 as (A5 & A6 & A7 & _).
  destruct (flushSpeechBuffer_shape force st) as [(E & F) | [(E & T & F) | (E & T & F)]];
    cbv zeta in *; rewrite F; eexists; (split; [reflexivity|]).
  - match goal with |- context [rebuildDisplayStrings ?x] =>
      destruct (rebuildDisplayStrings_keeps x) as (R1 & R2 & R3 & R4);
      pose proof (rebuildDisplayStrings_uncaught x) as R6 end.
    apply controls_inv in R4 as (R4 & R5 & _).
    split; [rewrite R4; reflexivity|]. left.
    assert (EP : flushPieces force (speechBuffer st) = []).
    { unfold flushPieces. now rewrite E. }
    assert (ER : flushRest force (speechBuffer st) = speechBuffer st).
    { unfold flushRest. now rewrite E. }
    unfold ids, originals, dispatched in *.
    rewrite R1, R2, R3, R5, R6, EP, ER. cbn. rewrite !app_nil_r, Nat.add_0_r.
    repeat split. now destruct (String.eqb _ _); rewrite app_nil_r.
  - match goal with |- context [rebuildDisplayStrings ?x] =>
      destruct (rebuildDisplayStrings_keeps x) as (R1 & R2 & R3 & R4);
      pose proof (rebuildDisplayStrings_uncaught x) as R6 end.
    apply controls_inv in R4 as (R4 & R5 & _).
    split; [rewrite R4; exact A5|]. left.
    rewrite T in U. rewrite (attempted_all _ _ T) in A1, A2, A3.
    rewrite (A4' T) in A4. rewrite (map_truncate_fit _ G) in A2, A4.
    unfold ids, originals, dispatched in *.
    rewrite R1, R2, R3, R5, R6. cbn.
    rewrite A1, A2, A3, A4. repeat split; [exact U | exact T].
  - split; [exact A5|]. right. rewrite T in U. auto.
Qed.

(** Whether it ends by an error or not, a flush appends segments with
    fresh ids and touches no other. *)
Lemma flushSpeechBuffer_ids (force : bool) (st : component) :
  exists st' k, flushSpeechBuffer force st = Some st'
    /\ ids st' = ids st ++ seq (nextSegmentId st) k
    /\ nextSegmentId st' = nextSegmentId st + k.
Proof.
  pose proof (appendSegments_add (flushPieces force (speechBuffer st)) st) as A.
  cbv zeta in A. destruct A as (A1 & _ & A3 & _).
  destruct (flushSpeechBuffer_shape force st) as [(E & F) | [(E & T & F) | (E & T & F)]];
    cbv zeta in *; rewrite F; eexists; eexists; (split; [reflexivity|]).
  - match goal with |- context [rebuildDisplayStrings ?x] =>
      destruct (rebuildDisplayStrings_keeps x) as (R1 & R2 & _) end.
    unfold ids. rewrite R1, R2. cbn. instantiate (1 := 0). cbn.
    now rewrite app_nil_r, Nat.add_0_r.
  - match goal with |- context [rebuildDisplayStrings ?x] =>
      destruct (rebuildDisplayStrings_keeps x) as (R1 & R2 & _) end.
    unfold ids in *. rewrite R1, R2. cbn. rewrite A1, A3. split; reflexivity.
  - rewrite A1, A3. split; reflexivity.
Qed.

Lemma rebuildDisplayStrings_interim (st : component) :
  interimOriginal (rebuildDisplayStrings st) = interimOriginal st.
Proof. unfold rebuildDisplayStrings. now destruct (manualMode st). Qed.

(** After a flush in which no call throws the interim line shows what is
    left in the buffer. *)
Lemma flushSpeechBuffer_interim (force : bool) (st st' : component) :
  flushSpeechBuffer force st = Some st' ->
  trim (speechBuffer st) <> [] ->
  uncaught st' = uncaught st ->
  interimOriginal st' = speechBuffer st'.
Proof.
  intros H Hne HU.
  destruct (flushSpeechBuffer_shape force st) as [(E & F) | [(E & T & F) | (E & T & F)]];
    cbv zeta in *; rewrite F in H; injection H as <-.
  - contradiction.
  - rewrite rebuildDisplayStrings_interim.
    match goal with |- context [rebuildDisplayStrings ?x] =>
      destruct (rebuildDisplayStrings_keeps x) as (_ & _ & _ & R4) end.
    apply controls_inv in R4 as (_ & -> & _). reflexivity.
  - pose proof (appendPieces_uncaught (flushPieces force (speechBuffer st)) st) as U.
    rewrite T in U. lia.
Qed.

Lemma pipeline_inv (st st' : component) :
  pipeline st' = pipeline st ->
  segments st' = segments st /\ nextSegmentId st' = nextSegmentId st
  /\ speechBuffer st' = speechBuffer st /\ interimOriginal st' = interimOriginal st
  /\ manualMode st' = manualMode st /\ isListening st' = isListening st
  /\ speechPauseTimer st' = speechPauseTimer st
  /\ scrollScheduleTimer st' = scrollScheduleTimer st
  /\ timers st' = timers st /\ requests st' = requests st.
Proof. unfold pipeline. intros [= -> -> -> -> -> -> -> -> -> ->]. repeat split. Qed.

Lemma rebuildDisplayStrings_pipeline (st : component) :
  pipeline (rebuildDisplayStrings st) = pipeline st.
Proof. unfold rebuildDisplayStrings. now destruct (manualMode st). Qed.

Lemma speakTranslation_pipeline (text : jsstring) (st : component) :
  pipeline (speakTranslation text st) = pipeline st.
Proof.
  unfold speakTranslation.
  destruct (negb (truthy text) || (length (trim text) =? 0)); [reflexivity|].
  destruct (isSpeaking st && sameString (lastTranslatedText st) text); [reflexivity|].
  cbv zeta. now destruct (speakThrows _).
Qed.

Lemma translateInterim_pipeline (text : jsstring) (st : component) :
  pipeline (translateInterim text st) = pipeline st.
Proof.
  unfold translateInterim, translateTextOnce.
  destruct (negb (truthy (trim text))).
  - now rewrite rebuildDisplayStrings_pipeline.
  - destruct (manualMode st) eqn:M; [|reflexivity].
    destruct (String.eqb (selectedLanguage st) ""); [unfold pipeline; cbn; now rewrite M|].
    cbv zeta. destruct (translateThrows _ _); unfold pipeline; cbn; now rewrite M.
Qed.

Ltac branch :=
  match goal with |- context [if ?c then _ else _] => destruct c end.

(** The events beside the pipeline leave its fields alone. *)
Lemma step_aside (ev : event) (st : component) :
  aside ev = true -> exists st', step ev st = Some st' /\ pipeline st' = pipeline st.
Proof.
  destruct ev as [text isFinal | listening | kind | id r | id | h | | text | code | | dt
                 | | k r | k status errorMsg | i | i | enabled |
                 | savedLanguage enableTTS supported | t | throws];
    try discriminate; intros _; cbn [step].
  - (* the language *)
    eexists. split; [reflexivity|]. unfold onLanguageChange, autoStartListening, queueText.
    cbv zeta. repeat branch; reflexivity.
  - (* the debounced text *)
    eexists. split; [reflexivity|]. unfold debounceElapsed.
    destruct (debounced st) as [[value due]|]; [|reflexivity].
    destruct (due <=? now (timers st))%N; [|reflexivity].
    cbv zeta. cbn [lastDistinct set_debounced].
    destruct (lastDistinct st) as [previous|];
      [destruct (sameString previous value); [reflexivity|]|];
      now rewrite translateInterim_pipeline.
  - (* the reply to a manual translation *)
    destruct (manualRequests st !! k) as [req|]; eexists; (split; [reflexivity|]);
      [|reflexivity].
    unfold manualNext. destruct (errorTruthy (error_of r)); [reflexivity|].
    cbv zeta.
    match goal with |- context [if ?c then _ else _] => destruct c end;
      [|reflexivity].
    unfold emit.
    match goal with |- context [speakTranslation ?a ?b] =>
      pose proof (speakTranslation_pipeline a b) as S;
      set (x := speakTranslation a b) in * end.
    unfold pipeline in *. cbn. exact S.
  - (* its failure *)
    destruct (manualRequests st !! k) as [req|]; eexists; (split; [reflexivity|]);
      reflexivity.
  - (* the auto-start timer *)
    destruct (dueAt i (autoStarts st) (timers st)); eexists; (split; [reflexivity|]);
      [|reflexivity].
    unfold autoStartCallback. cbn.
    now destruct (negb (String.eqb (selectedLanguage st) "") && negb (isListening st)).
  - (* the speaking timer *)
    destruct (dueAt i (speakingTimers st) (timers st)); eexists;
      (split; [reflexivity|]); [|reflexivity].
    unfold speakingCallback. cbn. now destruct (isSpeaking st).
  - (* text-to-speech *)
    eexists. split; [reflexivity|]. unfold onTextToSpeechChange. cbv zeta. cbn.
    now destruct (negb enabled && isSpeaking st).
  - (* the listening button *)
    eexists. split; [reflexivity|]. unfold toggleListening.
    destruct (String.eqb (selectedLanguage st) ""); [reflexivity|].
    now destruct (isListening st).
  - (* the initialisation *)
    eexists. split; [reflexivity|]. unfold ngOnInit. cbv zeta.
    destruct (negb (String.eqb savedLanguage "")); now destruct supported.
  - (* the translation service *)
    eexists. split; reflexivity.
  - (* the speech service *)
    eexists. split; reflexivity.
Qed.


Lemma run_invariant (P : component -> Prop) :
  (forall ev st, P st -> exists st', step ev st = Some st' /\ P st') ->
  forall evs st, P st -> exists st', run evs st = Some st' /\ P st'.
Proof.
  intros H. induction evs as [|ev evs IH]; intros st Hst; cbn [run].
  - now exists st.
  - destruct (H ev st Hst) as (st1 & -> & H1). now apply IH.
Qed.

End ComponentFacts.

Module FlushClaims.
Import JS JSFacts Bufferer Predicates Component ComponentFacts Examples.

(** As the claim has it, a forced flush of the example would send two
    chunks.  It sends one. *)
Lemma forced_flush_not_two_chunks :
  option_map dispatched (flushSpeechBuffer true helloThere)
  <> Some [lit "Hello there."; lit "How are"].
Proof. vm_compute. discriminate. Qed.

Example forced_flush_one_chunk :
  option_map dispatched (flushSpeechBuffer true helloThere)
  = Some [lit "Hello there. How are"].
Proof. vm_compute. reflexivity. Qed.

(** C7, amended.  Given the buffered text [Hello there. How are], a forced
    flush builds the list to translate [Hello there.] (completed) plus
    [How are] (the remainder); packing joins the two, so one segment with
    the original [Hello there. How are] is appended (and sent when a source
    language is selected), and the buffer is cleared.  A non-forced flush
    appends only [Hello there.], and the buffer and the interim line keep
    [How are]. *)
Theorem flush_hello_there (st : component) :
  speechBuffer st = lit "Hello there. How are" ->
  fst (toTranslate true (trim (speechBuffer st))) = [lit "Hello there."; lit "How are"]
  /\ (exists st', flushSpeechBuffer true st = Some st'
        /\ originals st' = originals st ++ [lit "Hello there. How are"]
        /\ dispatched st'
           = dispatched st ++ (if String.eqb (selectedLanguage st) "" then []
                               else [lit "Hello there. How are"])
        /\ speechBuffer st' = [])
  /\ (exists st', flushSpeechBuffer false st = Some st'
        /\ originals st' = originals st ++ [lit "Hello there."]
        /\ dispatched st'
           = dispatched st ++ (if String.eqb (selectedLanguage st) "" then []
                               else [lit "Hello there."])
        /\ speechBuffer st' = lit "How are"
        /\ interimOriginal st' = lit "How are").
Proof.
  intros H. split; [rewrite H; vm_compute; reflexivity|].
  assert (W : forall force,
             snd (appendPieces (flushPieces force (speechBuffer st)) st) = false).
  { intros force. apply appendPieces_wellFormed. rewrite H.
    destruct force.
    - change (flushPieces true (lit "Hello there. How are"))
        with [lit "Hello there. How are"].
      constructor; [vm_compute; reflexivity | constructor].
    - change (flushPieces false (lit "Hello there. How are"))
        with [lit "Hello there."].
      constructor; [vm_compute; reflexivity | constructor]. }
  split.
  - destruct (flushSpeechBuffer_spec true st)
      as (st' & F & _ & [(_ & _ & _ & O & _ & D & B) | (_ & T & _)]);
      [|rewrite W in T; discriminate].
    exists st'. rewrite H in O, D, B.
    split; [exact F|]. split; [exact O|]. split; [exact D | exact B].
  - destruct (flushSpeechBuffer_spec false st)
      as (st' & F & _ & [(U & _ & _ & O & _ & D & B) | (_ & T & _)]);
      [|rewrite W in T; discriminate].
    exists st'. rewrite H in O, D, B.
    split; [exact F|]. split; [exact O|]. split; [exact D|]. split; [exact B|].
    rewrite (flushSpeechBuffer_interim false st st' F); [exact B | | exact U].
    rewrite H. vm_compute. discriminate.
Qed.

Lemma flush_hello_there_witness :
  speechBuffer helloThere = lit "Hello there. How are"
  /\ exists st', flushSpeechBuffer true helloThere = Some st'
       /\ originals st' = originals helloThere ++ [lit "Hello there. How are"]
       /\ dispatched st'
          = dispatched helloThere
            ++ (if String.eqb (selectedLanguage helloThere) "" then []
                else [lit "Hello there. How are"])
       /\ speechBuffer st' = [].
Proof.
  split; [reflexivity|].
  exact (proj1 (proj2 (flush_hello_there helloThere eq_refl))).
Defined.

End FlushClaims.

(** ** Segments are shown in the order they were created *)

Module SegmentClaims.
Import JS JSFacts Bufferer Predicates Timers Component ComponentFacts Examples.

Example three_out_of_order_shown :
  translatedText threeOutOfOrder = lit "one" ++ NEWLINE ++ lit "two" ++ NEWLINE ++ lit "three"
  /\ ids threeOutOfOrder = [1; 2; 3].
Proof. vm_compute. split; reflexivity. Qed.

Lemma updateSegment_at (id : nat) (p : patch) (st : component)
  (l1 l2 : list segment) (s : segment) :
  segments st = l1 ++ s :: l2 ->
  Forall (fun x => seg_id x <> id) l1 -> seg_id s = id ->
  segments (updateSegment id p st) = l1 ++ applyPatch p s :: l2.
Proof.
  intros Hs Hl Hid. unfold updateSegment.
  assert (F : list_find (fun x => seg_id x = id) (segments st) = Some (length l1, s)).
  { apply list_find_Some. rewrite Hs. split.
    - now rewrite list_lookup_middle.
    - split; [exact Hid|]. intros j y Hj Hlt.
      rewrite lookup_app_l in Hj by exact Hlt.
      rewrite Forall_forall in Hl. apply Hl.
      eapply list_elem_of_lookup_2. exact Hj. }
  rewrite F. cbn. rewrite Hs. now rewrite insert_app_r_alt, Nat.sub_diag by lia.
Qed.

Lemma updateSegment_mode (id : nat) (p : patch) (st : component) :
  manualMode (updateSegment id p st) = manualMode st
  /\ interimTranslated (updateSegment id p st) = interimTranslated st.
Proof. unfold updateSegment. now destruct (list_find _ _) as [[idx s]|]. Qed.

Lemma rebuildDisplayStrings_shows (st : component) :
  manualMode st = false ->
  translatedText (rebuildDisplayStrings st) = renderAll st
  /\ interimTranslated (rebuildDisplayStrings st) = interimTranslated st
  /\ manualMode (rebuildDisplayStrings st) = false.
Proof. intros H. unfold rebuildDisplayStrings. rewrite H. cbn. auto. Qed.

(** A reply puts its text in the segment with its id and redraws. *)
Lemma translateNext_shows (id : nat) (r : translateResult) (st : component) :
  manualMode st = false ->
  segments (translateNext id r st)
    = segments (updateSegment id (resolved (replyText r)) st)
  /\ interimTranslated (translateNext id r st) = interimTranslated st
  /\ manualMode (translateNext id r st) = false
  /\ translatedText (translateNext id r st) = renderAll (translateNext id r st).
Proof.
  intros HM. unfold translateNext, replyText.
  set (st1 := if errorTruthy (error_of r) then _ else _).
  assert (H1 : segments st1
               = segments (updateSegment id
                   (resolved (if errorTruthy (error_of r) then [] else translatedText_of r)) st)
               /\ interimTranslated st1 = interimTranslated st
               /\ manualMode st1 = false).
  { unfold st1. destruct (errorTruthy (error_of r)); cbn;
      destruct (updateSegment_mode id (resolved []) st) as [M I];
      destruct (updateSegment_mode id (resolved (translatedText_of r)) st) as [M' I'];
      repeat split; congruence. }
  destruct H1 as (S1 & I1 & M1).
  destruct (rebuildDisplayStrings_shows (settle st1)) as (T & I & M); [exact M1|].
  destruct (rebuildDisplayStrings_keeps (settle st1)) as (R1 & _).
  rewrite R1, I, M, T. repeat split; [exact S1 | exact I1 |].
  unfold renderAll. now rewrite R1, I.
Qed.

Lemma appendSegment_selected (text : jsstring) (st : component) :
  selectedLanguage st <> ""%string ->
  segments (appendSegment text st)
    = segments st ++ [{| seg_id := nextSegmentId st;
                         original := truncateForQuery text MAX_CHARS;
                         translated := []; translating := true |}]
  /\ nextSegmentId (appendSegment text st) = S (nextSegmentId st)
  /\ selectedLanguage (appendSegment text st) = selectedLanguage st
  /\ manualMode (appendSegment text st) = manualMode st
  /\ interimTranslated (appendSegment text st) = interimTranslated st.
Proof.
  intros HL. apply String.eqb_neq in HL. unfold appendSegment. cbv zeta.
  rewrite HL. destruct (translateThrows _ _); cbn; auto.
Qed.

Lemma ids_below_differ (l : list segment) (n id : nat) :
  Forall (fun i => i < n) (map seg_id l) -> n <= id ->
  Forall (fun x => seg_id x <> id) l.
Proof.
  intros H Hn. induction l as [|x l IH]; [constructor|].
  cbn in H. apply Forall_cons in H as [H1 H2].
  constructor; [lia | now apply IH].
Qed.

Lemma three_appended (st : component) (a b c : jsstring) (rA rB rC : translateResult) :
  manualMode st = false -> selectedLanguage st <> ""%string -> idsOrdered st ->
  let n := nextSegmentId st in
  let st3 := appendSegment c (appendSegment b (appendSegment a st)) in
  let st6 := translateNext (S n) rB (translateNext n rA (translateNext (S (S n)) rC st3)) in
  ids st6 = ids st ++ [n; S n; S (S n)]
  /\ map translated (segments st6)
     = map translated (segments st) ++ [replyText rA; replyText rB; replyText rC]
  /\ translatedText st6
     = join NEWLINE (map renderTranslated (segments st)
                     ++ [replyText rA; replyText rB; replyText rC]
                     ++ (if truthy (interimTranslated st) then [interimTranslated st] else [])).
Proof.
  intros HM HL [_ HO]. cbv zeta. unfold ids in HO.
  destruct (appendSegment_selected a st HL) as (S1 & N1 & L1 & M1 & I1).
  set (st1 := appendSegment a st) in *.
  destruct (appendSegment_selected b st1 ltac:(congruence)) as (S2 & N2 & L2 & M2 & I2).
  set (st2 := appendSegment b st1) in *.
  destruct (appendSegment_selected c st2 ltac:(congruence)) as (S3 & N3 & L3 & M3 & I3).
  set (st3 := appendSegment c st2) in *.
  rewrite S2, S1, N2, N1, <- !app_assoc in S3. cbn [app] in S3.
  set (n := nextSegmentId st) in *. set (pre := segments st) in *.
  set (sA := {| seg_id := n; original := truncateForQuery a MAX_CHARS;
                translated := []; translating := true |}) in *.
  set (sB := {| seg_id := S n; original := truncateForQuery b MAX_CHARS;
                translated := []; translating := true |}) in *.
  set (sC := {| seg_id := S (S n); original := truncateForQuery c MAX_CHARS;
                translated := []; translating := true |}) in *.
  assert (HM3 : manualMode st3 = false) by congruence.
  destruct (translateNext_shows (S (S n)) rC st3 HM3) as (T4 & I4 & HM4 & _).
  set (st4 := translateNext _ rC st3) in *.
  rewrite (updateSegment_at _ _ st3 (pre ++ [sA; sB]) [] sC) in T4;
    [| now rewrite <- app_assoc
     | apply Forall_app; split;
       [apply (ids_below_differ pre n); [exact HO | lia]
       | repeat constructor; cbn; lia]
     | reflexivity].
  destruct (translateNext_shows n rA st4 HM4) as (T5 & I5 & HM5 & _).
  set (st5 := translateNext _ rA st4) in *.
  rewrite (updateSegment_at _ _ st4 pre [sB; applyPatch (resolved (replyText rC)) sC] sA)
    in T5;
    [| rewrite T4; now rewrite <- app_assoc
     | apply (ids_below_differ pre n); [exact HO | lia]
     | reflexivity].
  destruct (translateNext_shows (S n) rB st5 HM5) as (T6 & I6 & HM6 & R6).
  set (st6 := translateNext _ rB st5) in *.
  rewrite (updateSegment_at _ _ st5 (pre ++ [applyPatch (resolved (replyText rA)) sA])
             [applyPatch (resolved (replyText rC)) sC] sB) in T6;
    [| rewrite T5; now rewrite <- app_assoc
     | apply Forall_app; split;
       [apply (ids_below_differ pre n); [exact HO | lia]
       | repeat constructor; cbn; lia]
     | reflexivity].
  split; [|split].
  - unfold ids. rewrite T6, <- app_assoc, map_app. reflexivity.
  - rewrite T6, <- app_assoc, map_app. reflexivity.
  - rewrite R6. unfold renderAll. rewrite T6, I6, I5, I4, I3, I2, I1.
    rewrite <- !app_assoc, map_app, <- !app_assoc. reflexivity.
Qed.

Lemma extends_trans (a b c : component) : extends a b -> extends b c -> extends a c.
Proof.
  intros [Hab [(n1 & E1 & F1) | F1]] [Hbc [(n2 & E2 & F2) | F2]];
    (split; [lia|]).
  - left. exists (n1 ++ n2). rewrite E2, E1, <- app_assoc. split; [reflexivity|].
    apply Forall_app. split; [exact F1|].
    eapply Forall_impl; [exact F2|]. intros; cbn in *; lia.
  - right. eapply Forall_impl; [exact F2|]. intros; cbn in *; lia.
  - right. rewrite E2. apply Forall_app. split; [exact F1|].
    eapply Forall_impl; [exact F2|]. intros; cbn in *; lia.
  - right. eapply Forall_impl; [exact F2|]. intros; cbn in *; lia.
Qed.

Lemma same_ids_extends (st st' : component) :
  ids st' = ids st -> nextSegmentId st' = nextSegmentId st ->
  idsOrdered st -> idsOrdered st' /\ extends st st'.
Proof.
  intros E N [O1 O2]. unfold idsOrdered, extends. rewrite E, N.
  repeat split; try assumption; [lia|]. left. exists []. now rewrite app_nil_r.
Qed.

Lemma cleared_extends (st st' : component) :
  ids st' = [] -> nextSegmentId st' = nextSegmentId st ->
  idsOrdered st' /\ extends st st'.
Proof.
  intros E N. unfold idsOrdered, extends. rewrite E, N.
  split; [split; constructor|]. split; [lia|]. right. constructor.
Qed.

Lemma StronglySorted_seq_after (l : list nat) (n k : nat) :
  StronglySorted lt l -> Forall (fun i => i < n) l -> StronglySorted lt (l ++ seq n k).
Proof.
  induction 1 as [|x l Hl IH Hx]; intros Hn.
  - cbn. revert n Hn. induction k as [|k IHk]; intros n _; cbn; constructor.
    + apply IHk. constructor.
    + apply Forall_forall. intros y Hy. apply list_elem_of_In, in_seq in Hy. lia.
  - apply Forall_cons in Hn as [Hxn Hn]. cbn. constructor; [now apply IH|].
    apply Forall_app. split; [exact Hx|].
    apply Forall_forall. intros y Hy. apply list_elem_of_In, in_seq in Hy. lia.
Qed.

Lemma flushed_extends (st st' : component) (k : nat) :
  ids st' = ids st ++ seq (nextSegmentId st) k ->
  nextSegmentId st' = nextSegmentId st + k ->
  idsOrdered st -> idsOrdered st' /\ extends st st'.
Proof.
  intros E N [O1 O2]. unfold idsOrdered, extends. rewrite E, N. repeat split.
  - now apply StronglySorted_seq_after.
  - apply Forall_app. split.
    + eapply Forall_impl; [exact O2|]. intros; cbn in *; lia.
    + apply Forall_forall. intros y Hy. apply list_elem_of_In, in_seq in Hy. lia.
  - lia.
  - left. exists (seq (nextSegmentId st) k). split; [reflexivity|].
    apply Forall_forall. intros y Hy. apply list_elem_of_In, in_seq in Hy. lia.
Qed.

Lemma flush_extends (force : bool) (st st' : component) :
  flushSpeechBuffer force st = Some st' ->
  idsOrdered st -> idsOrdered st' /\ extends st st'.
Proof.
  intros F. destruct (flushSpeechBuffer_ids force st) as (st1 & k & F1 & I & N).
  rewrite F in F1. injection F1 as <-. now apply flushed_extends with (k := k).
Qed.

(** Every event keeps the ids ordered and extends the segment list. *)
Lemma step_extends (ev : event) (st st' : component) :
  step ev st = Some st' -> idsOrdered st -> idsOrdered st' /\ extends st st'.
Proof.
  destruct (aside ev) eqn:A.
  { intros H O. destruct (step_aside ev st A) as (st1 & E & P).
    rewrite H in E. injection E as <-.
    apply pipeline_inv in P as (P1 & P2 & _).
    apply same_ids_extends; [unfold ids; now rewrite P1 | exact P2 | exact O]. }
  destruct ev as [text isFinal | listening | kind | id r | id | h | | text | code | | dt
                 | | k r | k status errorMsg | i | i | enabled |
                 | savedLanguage enableTTS supported | t | throws];
    try discriminate A; cbn [step]; intros H O.
  - (* a transcript *)
    unfold onTranscript in H.
    set (st0 := if manualMode st then _ else st) in H.
    assert (H0 : idsOrdered st0 /\ extends st st0).
    { unfold st0. destruct (manualMode st).
      - apply cleared_extends;
          unfold clearSpeechPauseTimer; cbn; now destruct (speechPauseTimer st).
      - now apply same_ids_extends. }
    destruct H0 as [O0 X0].
    assert (H1 : idsOrdered (resetSpeechPauseTimer st0)
                 /\ extends st0 (resetSpeechPauseTimer st0)).
    { apply same_ids_extends; [| |exact O0];
        unfold resetSpeechPauseTimer, clearSpeechPauseTimer;
        now destruct (speechPauseTimer st0). }
    destruct H1 as [O1 X1]. clearbody st0.
    pose proof (extends_trans _ _ _ X0 X1) as X01.
    destruct isFinal.
    + destruct (truthy (trim text)); cbn [negb] in H.
      * apply flush_extends in H; [|exact O1].
        destruct H as [O2 X2]. split; [exact O2|].
        eapply extends_trans; [exact X01 | exact X2].
      * injection H as <-. now split.
    + injection H as <-.
      match goal with |- context [rebuildDisplayStrings ?x] =>
        destruct (rebuildDisplayStrings_keeps x) as (R1 & R2 & _) end.
      match goal with |- idsOrdered ?y /\ _ =>
        assert (Hy : idsOrdered y /\ extends (resetSpeechPauseTimer st0) y) end.
      { apply same_ids_extends; [unfold ids; now rewrite R1 | now rewrite R2 | exact O1]. }
      destruct Hy as [Oy Xy]. split; [exact Oy|].
      eapply extends_trans; [exact X01 | exact Xy].
  - (* the listening state *)
    unfold onListening in H.
    destruct (negb listening && isListening st).
    + apply flush_extends in H.
      * destruct H as [O2 X2]. split; [exact O2|].
        eapply extends_trans; [|exact X2].
        apply same_ids_extends; [| |exact O];
          unfold clearSpeechPauseTimer; cbn; now destruct (speechPauseTimer st).
      * eapply proj1. apply (same_ids_extends st); [| |exact O];
          unfold clearSpeechPauseTimer; cbn; now destruct (speechPauseTimer st).
    + injection H as <-. now apply same_ids_extends.
  - (* an error kind *)
    injection H as <-.
    apply same_ids_extends; [| |exact O];
      unfold handleError; repeat (destruct (String.eqb kind _)); reflexivity.
  - (* a translation arrives *)
    injection H as <-. destruct (translateNext_keeps id r st) as (I & _ & N & _).
    now apply same_ids_extends.
  - (* a translation fails *)
    injection H as <-. destruct (translateError_keeps id st) as (I & _ & N & _).
    now apply same_ids_extends.
  - (* a timer expires *)
    destruct (expire h (timers st)) as [[[] t]|];
      try (injection H as <-; now apply same_ids_extends).
    apply flush_extends in H; [|exact O]. exact H.
  - (* the display effect *)
    injection H as <-.
    apply same_ids_extends; [| |exact O];
      unfold scheduleAutoScrollToLatest, clearScrollScheduleTimer;
      now destruct (scrollScheduleTimer st).
  - (* typing *)
    injection H as <-.
    apply cleared_extends; unfold onTextChange; cbv zeta;
      now destruct (negb (truthy text) || (length (trim text) =? 0)).
  - (* clearing *)
    injection H as <-.
    apply cleared_extends; unfold clearText, clearSpeechPauseTimer; cbv zeta;
      now destruct (speechPauseTimer _).
  - (* time passes *)
    injection H as <-. now apply same_ids_extends.
Qed.

Lemma run_extends (evs : list event) :
  forall st st' : component,
    run evs st = Some st' -> idsOrdered st -> idsOrdered st' /\ extends st st'.
Proof.
  induction evs as [|ev evs IH]; intros st st' H O; cbn [run] in H.
  - injection H as <-. now apply same_ids_extends.
  - destruct (step ev st) as [st1|] eqn:E; [|discriminate].
    destruct (step_extends ev st st1 E O) as [O1 X1].
    destruct (IH st1 st' H O1) as [O2 X2].
    split; [exact O2|]. eapply extends_trans; eassumption.
Qed.

Lemma init_idsOrdered : idsOrdered init.
Proof. split; constructor. Qed.

Lemma StronglySorted_lt_NoDup (l : list nat) : StronglySorted lt l -> NoDup l.
Proof.
  induction 1 as [|x l Hl IH Hx]; constructor; [|exact IH].
  intros Hin. rewrite Forall_forall in Hx. specialize (Hx x Hin). lia.
Qed.

(** C2.  Segments are shown in the order they were created, whatever the
    order in which their translations arrive.  First, three segments A, B,
    C appended in this order (in speech mode, a source language selected),
    their replies arriving in the order C, A, B: after what the earlier
    segments show, the translated box lists the text of A's reply, of B's
    and of C's, in this order.  Second, across any sequence of events, a
    segment that is still in the list is at the index at which it was
    created: its place in the rendered text does not change.  The ids are
    ordered in every state the component reaches, and the translated box is
    the join of what the segments show, in list order. *)
Theorem display_order_is_creation_order :
  (forall (st : component) (a b c : jsstring) (rA rB rC : translateResult),
      manualMode st = false -> selectedLanguage st <> ""%string -> idsOrdered st ->
      let n := nextSegmentId st in
      let st3 := appendSegment c (appendSegment b (appendSegment a st)) in
      let st6 :=
        translateNext (S n) rB (translateNext n rA (translateNext (S (S n)) rC st3)) in
      ids st6 = ids st ++ [n; S n; S (S n)]
      /\ map translated (segments st6)
         = map translated (segments st) ++ [replyText rA; replyText rB; replyText rC]
      /\ translatedText st6
         = join NEWLINE
             (map renderTranslated (segments st)
              ++ [replyText rA; replyText rB; replyText rC]
              ++ (if truthy (interimTranslated st) then [interimTranslated st] else [])))
  /\ (forall (st st' : component) (evs : list event) (id i j : nat),
         idsOrdered st -> run evs st = Some st' ->
         ids st !! i = Some id -> ids st' !! j = Some id -> i = j)
  /\ (forall (evs : list event) (st : component),
         run evs init = Some st -> idsOrdered st)
  /\ (forall st : component,
         manualMode st = false ->
         translatedText (rebuildDisplayStrings st) = renderAll st).
Proof.
  split; [exact three_appended|]. split; [|split].
  - intros st st' evs id i j O R Hi Hj.
    destruct (run_extends evs st st' R O) as [[O' _] [_ [(new & E & _) | F]]].
    + apply StronglySorted_lt_NoDup in O'.
      apply (NoDup_lookup _ i j id O'); [|exact Hj].
      rewrite E. now apply lookup_app_l_Some.
    + destruct O as [_ O]. rewrite Forall_forall in O, F.
      pose proof (O id (list_elem_of_lookup_2 _ _ _ Hi)).
      pose proof (F id (list_elem_of_lookup_2 _ _ _ Hj)). cbn in *. lia.
  - intros evs st R. exact (proj1 (run_extends evs init st R init_idsOrdered)).
  - intros st HM. exact (proj1 (rebuildDisplayStrings_shows st HM)).
Qed.

End SegmentClaims.

(** ** Timers: one outstanding handle per kind *)

Module TimerFacts.
Import Predicates Timers.

Lemma kind_eqb_eq (a b : kind) : kind_eqb a b = true <-> a = b.
Proof. destruct a, b; cbn; split; congruence. Qed.

Lemma kind_eqb_refl (a : kind) : kind_eqb a a = true.
Proof. now destruct a. Qed.

Lemma remove_Forall (P : entry -> Prop) (h : handle) (l : list entry) :
  Forall P l -> Forall P (remove h l).
Proof.
  induction 1 as [|e l He Hl IH]; cbn; [constructor|].
  destruct (Pos.eqb (e_handle e) h); [exact IH | now constructor].
Qed.

Lemma remove_handles (h : handle) (l : list entry) (x : handle) :
  In x (map e_handle (remove h l)) -> In x (map e_handle l) /\ x <> h.
Proof.
  induction l as [|e l IH]; cbn; [tauto|].
  destruct (Pos.eqb_spec (e_handle e) h) as [E|E].
  - intros H. destruct (IH H). auto.
  - cbn. intros [<-|H]; [auto|]. destruct (IH H). auto.
Qed.

Lemma remove_NoDup (h : handle) (l : list entry) :
  NoDup (map e_handle l) -> NoDup (map e_handle (remove h l)).
Proof.
  induction l as [|e l IH]; cbn; [auto|].
  intros H. apply NoDup_cons in H as [H1 H2].
  destruct (Pos.eqb (e_handle e) h); [now apply IH|].
  cbn. apply NoDup_cons. split; [|now apply IH].
  intros Hin. apply H1. apply list_elem_of_In in Hin.
  apply list_elem_of_In. now apply remove_handles in Hin as [? _].
Qed.

Lemma remove_gone (h : handle) (l : list entry) :
  Forall (fun e => e_handle e <> h) (remove h l).
Proof.
  induction l as [|e l IH]; cbn; [constructor|].
  destruct (Pos.eqb_spec (e_handle e) h); [exact IH | now constructor].
Qed.

Lemma remove_absent (h : handle) (l : list entry) :
  Forall (fun e => e_handle e <> h) l -> remove h l = l.
Proof.
  induction 1 as [|e l He Hl IH]; cbn; [reflexivity|].
  destruct (Pos.eqb_spec (e_handle e) h); [contradiction | now rewrite IH].
Qed.

Lemma outstanding_nil (k : kind) (l : list entry) :
  Forall (fun e => e_kind e <> k) l -> outstanding k l = [].
Proof.
  induction 1 as [|e l He Hl IH]; cbn; [reflexivity|].
  destruct (kind_eqb (e_kind e) k) eqn:E; [|exact IH].
  apply kind_eqb_eq in E. contradiction.
Qed.

Lemma outstanding_app (k : kind) (l1 l2 : list entry) :
  outstanding k (l1 ++ l2) = outstanding k l1 ++ outstanding k l2.
Proof.
  induction l1 as [|e l1 IH]; cbn; [reflexivity|].
  destruct (kind_eqb (e_kind e) k); cbn; now rewrite IH.
Qed.

Lemma outstanding_In (k : kind) (l : list entry) (e : entry) :
  In e (outstanding k l) <-> In e l /\ e_kind e = k.
Proof.
  induction l as [|x l IH]; cbn; [tauto|].
  destruct (kind_eqb (e_kind x) k) eqn:E; cbn; rewrite IH.
  - apply kind_eqb_eq in E. split; [intros [<-|[? ?]]; auto | intros [[<-|?] ?]; auto].
  - split; [intros [? ?]; auto | intros [[<-|?] Hk]; auto].
    apply kind_eqb_eq in Hk. congruence.
Qed.

Lemma entries_ext (owner owner' : kind -> option handle) (t : table) :
  (forall k, owner k = owner' k) -> entriesTracked owner t -> entriesTracked owner' t.
Proof.
  intros E (W & N & O). repeat split; try assumption.
  eapply Forall_impl; [exact O|]. intros e He. cbn in *. now rewrite <- E.
Qed.

(** With a tracked table, no timer of a kind whose field is null is
    outstanding. *)
Lemma entries_none (owner : kind -> option handle) (t : table) (k : kind) :
  entriesTracked owner t -> owner k = None -> outstanding k (pending t) = [].
Proof.
  intros (_ & _ & O) Hk. apply outstanding_nil.
  eapply Forall_impl; [exact O|]. intros e He Ek. cbn in *. congruence.
Qed.

(** At most one timer of each kind is outstanding. *)
Lemma entries_at_most_one (owner : kind -> option handle) (t : table) (k : kind) :
  entriesTracked owner t -> length (outstanding k (pending t)) <= 1.
Proof.
  intros (_ & N & O).
  induction (pending t) as [|e l IH]; cbn; [lia|].
  cbn in N. apply NoDup_cons in N as [N1 N2]. apply Forall_cons in O as [O1 O2].
  destruct (kind_eqb (e_kind e) k) eqn:E; [|now apply IH].
  apply kind_eqb_eq in E.
  assert (Hnil : outstanding k l = []).
  { apply outstanding_nil. rewrite Forall_forall in O2 |- *.
    intros x Hx Ek. specialize (O2 x Hx). cbn in O2.
    apply N1. apply list_elem_of_In, in_map_iff. exists x. split.
    - rewrite Ek, <- E, O1 in O2. congruence.
    - now apply list_elem_of_In. }
  rewrite Hnil. cbn. lia.
Qed.

(** Clearing the handle a field holds, and nulling the field. *)
Lemma entries_clear (owner : kind -> option handle) (t : table) (k : kind) (h : handle) :
  entriesTracked owner t -> owner k = Some h ->
  entriesTracked (setOwner owner k None) (clearTimeout h t).
Proof.
  intros (W & N & O) Hk. unfold entriesTracked, clearTimeout. cbn. repeat split.
  - now apply remove_Forall.
  - now apply remove_NoDup.
  - pose proof (remove_gone h (pending t)) as G.
    pose proof (remove_Forall _ h _ O) as O'.
    rewrite Forall_forall in G, O' |- *. intros e He.
    specialize (G e He). specialize (O' e He). cbn in *.
    unfold setOwner. destruct (kind_eqb (e_kind e) k) eqn:E; [|exact O'].
    apply kind_eqb_eq in E. rewrite E, Hk in O'. congruence.
Qed.

(** Arming a timer of a kind whose field is null, and storing the handle. *)
Lemma entries_set (owner : kind -> option handle) (t : table) (k : kind) (delay : N) :
  entriesTracked owner t -> owner k = None ->
  entriesTracked (setOwner owner k (Some (fst (setTimeout k delay t)))) (snd (setTimeout k delay t))
  /\ outstanding k (pending (snd (setTimeout k delay t)))
     = [{| e_handle := nextHandle t; e_kind := k; e_due := (now t + delay)%N |}].
Proof.
  intros T Hk. pose proof (entries_none owner t k T Hk) as Hnone.
  destruct T as (W & N & O). unfold entriesTracked, setTimeout. cbn. split; [repeat split|].
  - apply Forall_app. split.
    + eapply Forall_impl; [exact W|]. intros e He. cbn in *. lia.
    + repeat constructor. cbn. lia.
  - rewrite map_app. cbn. apply NoDup_app. repeat split.
    + exact N.
    + intros x Hx Hx'. apply list_elem_of_In in Hx'. cbn in Hx'.
      destruct Hx' as [<-|[]]. apply list_elem_of_In, in_map_iff in Hx as (e & He & Hin).
      rewrite Forall_forall in W. apply list_elem_of_In in Hin.
      specialize (W e Hin). cbn in W. lia.
    + repeat constructor. intros Hin. now apply list_elem_of_In in Hin.
  - apply Forall_app. split.
    + rewrite Forall_forall in O |- *. intros e He. specialize (O e He). cbn in *.
      unfold setOwner. destruct (kind_eqb (e_kind e) k) eqn:E; [|exact O].
      apply kind_eqb_eq in E. rewrite E, Hk in O. discriminate.
    + repeat constructor. cbn. unfold setOwner. now rewrite kind_eqb_refl.
  - rewrite outstanding_app, Hnone. cbn. now rewrite kind_eqb_refl.
Qed.

Lemma lookup_Some (h : handle) (l : list entry) (e : entry) :
  lookup h l = Some e -> In e l /\ e_handle e = h.
Proof.
  induction l as [|x l IH]; cbn; [discriminate|].
  destruct (Pos.eqb_spec (e_handle x) h) as [E|E].
  - intros [= <-]. auto.
  - intros H. destruct (IH H). auto.
Qed.

(** A timer expires: it leaves the table, the fields stay as they are, and
    no timer of its kind is outstanding any more. *)
Lemma entries_expire (owner : kind -> option handle) (t t' : table) (h : handle) (k : kind) :
  entriesTracked owner t -> expire h t = Some (k, t') ->
  entriesTracked owner t'
  /\ outstanding k (pending t') = []
  /\ owner k = Some h
  /\ now t' = now t
  /\ exists due, In {| e_handle := h; e_kind := k; e_due := due |} (pending t)
                 /\ (due <= now t)%N.
Proof.
  intros (W & N & O) H. unfold expire in H.
  destruct (lookup h (pending t)) as [e|] eqn:L; [|discriminate].
  destruct (e_due e <=? now t)%N eqn:D; [|discriminate].
  injection H as <- <-. apply lookup_Some in L as [Hin Hh].
  assert (Ok : owner (e_kind e) = Some h).
  { rewrite Forall_forall in O. rewrite <- Hh. apply O. now apply list_elem_of_In. }
  split; [|split; [|split; [exact Ok|split; [reflexivity|]]]].
  - unfold entriesTracked, clearTimeout. cbn. repeat split;
      [now apply remove_Forall | now apply remove_NoDup | now apply remove_Forall].
  - cbn. apply outstanding_nil.
    pose proof (remove_gone h (pending t)) as G.
    pose proof (remove_Forall _ h _ O) as O'.
    rewrite Forall_forall in G, O' |- *. intros x Hx Ek.
    specialize (G x Hx). specialize (O' x Hx). cbn in *.
    rewrite Ek, Ok in O'. congruence.
  - exists (e_due e). split; [|now apply N.leb_le].
    destruct e as [eh ek ed]. cbn in *. now subst.
Qed.

Lemma entries_elapse (owner : kind -> option handle) (t : table) (dt : N) :
  entriesTracked owner t -> entriesTracked owner (elapse dt t).
Proof. intros T. exact T. Qed.

Lemma entries_empty (owner : kind -> option handle) : entriesTracked owner Timers.empty.
Proof. repeat split; constructor. Qed.

Lemma entries_null (owner : kind -> option handle) (t : table) (k : kind) :
  entriesTracked owner t -> outstanding k (pending t) = [] ->
  entriesTracked (setOwner owner k None) t.
Proof.
  intros (W & N & O) Hk. repeat split; try assumption.
  rewrite Forall_forall in O |- *. intros e He. specialize (O e He). cbn in *.
  unfold setOwner. destruct (kind_eqb (e_kind e) k) eqn:E; [|exact O].
  apply kind_eqb_eq in E.
  assert (Hin : In e (outstanding k (pending t))).
  { apply outstanding_In. split; [now apply list_elem_of_In | exact E]. }
  rewrite Hk in Hin. destruct Hin.
Qed.

(** *** The same with the fields' handles fresh and apart *)

Lemma fresh_ext (owner owner' : kind -> option handle) (t : table) :
  (forall k, owner k = owner' k) -> ownersFresh owner t -> ownersFresh owner' t.
Proof.
  intros E [B A]. split.
  - intros k h H. apply (B k). now rewrite E.
  - intros k k' h H H'. apply (A k k' h); now rewrite E.
Qed.

Lemma fresh_null (owner : kind -> option handle) (t : table) (k : kind) :
  ownersFresh owner t -> ownersFresh (setOwner owner k None) t.
Proof.
  intros [B A]. unfold setOwner. split.
  - intros k1 h. destruct (kind_eqb k1 k); [discriminate | apply B].
  - intros k1 k2 h. destruct (kind_eqb k1 k); [discriminate|].
    destruct (kind_eqb k2 k); [discriminate | apply A].
Qed.

Lemma tracked_ext (owner owner' : kind -> option handle) (t : table) :
  (forall k, owner k = owner' k) -> tracked owner t -> tracked owner' t.
Proof.
  intros E [T F]. split; [now apply (entries_ext owner) | now apply (fresh_ext owner)].
Qed.

Lemma tracked_none (owner : kind -> option handle) (t : table) (k : kind) :
  tracked owner t -> owner k = None -> outstanding k (pending t) = [].
Proof. intros [T _]. now apply entries_none. Qed.

(** At most one timer of each kind is outstanding. *)
Lemma tracked_at_most_one (owner : kind -> option handle) (t : table) (k : kind) :
  tracked owner t -> length (outstanding k (pending t)) <= 1.
Proof. intros [T _]. now apply (entries_at_most_one owner). Qed.

Lemma tracked_clear (owner : kind -> option handle) (t : table) (k : kind) (h : handle) :
  tracked owner t -> owner k = Some h ->
  tracked (setOwner owner k None) (clearTimeout h t).
Proof.
  intros [T F] Hk. split; [now apply entries_clear|].
  apply fresh_null. exact F.
Qed.

Lemma tracked_set (owner : kind -> option handle) (t : table) (k : kind) (delay : N) :
  tracked owner t -> owner k = None ->
  tracked (setOwner owner k (Some (fst (setTimeout k delay t)))) (snd (setTimeout k delay t))
  /\ outstanding k (pending (snd (setTimeout k delay t)))
     = [{| e_handle := nextHandle t; e_kind := k; e_due := (now t + delay)%N |}].
Proof.
  intros [T [B A]] Hk. destruct (entries_set owner t k delay T Hk) as [T' O'].
  split; [|exact O']. split; [exact T'|]. unfold setOwner, setTimeout. cbn. split.
  - intros k1 h. destruct (kind_eqb k1 k).
    + intros [= <-]. simpl. lia.
    + intros H. specialize (B k1 h H). simpl. lia.
  - intros k1 k2 h. destruct (kind_eqb k1 k) eqn:E1, (kind_eqb k2 k) eqn:E2.
    + intros _ _. apply kind_eqb_eq in E1, E2. congruence.
    + intros [= <-] H. specialize (B k2 _ H). simpl in B. lia.
    + intros H [= <-]. specialize (B k1 _ H). simpl in B. lia.
    + apply A.
Qed.

Lemma tracked_expire (owner : kind -> option handle) (t t' : table) (h : handle) (k : kind) :
  tracked owner t -> expire h t = Some (k, t') ->
  tracked owner t'
  /\ outstanding k (pending t') = []
  /\ owner k = Some h
  /\ now t' = now t
  /\ exists due, In {| e_handle := h; e_kind := k; e_due := due |} (pending t)
                 /\ (due <= now t)%N.
Proof.
  intros [T F] H. destruct (entries_expire owner t t' h k T H) as (T' & R).
  split; [|exact R]. split; [exact T'|].
  unfold expire in H. destruct (lookup h (pending t)); [|discriminate].
  destruct (_ <=? _)%N; [|discriminate]. injection H as _ <-. exact F.
Qed.

Lemma tracked_null (owner : kind -> option handle) (t : table) (k : kind) :
  tracked owner t -> outstanding k (pending t) = [] ->
  tracked (setOwner owner k None) t.
Proof. intros [T F] H. split; [now apply entries_null | now apply fresh_null]. Qed.

Lemma tracked_empty (owner : kind -> option handle) :
  (forall k, owner k = None) -> tracked owner Timers.empty.
Proof.
  intros H. split; [apply entries_empty|].
  split; intros k; intros; rewrite H in *; discriminate.
Qed.

(** *** Timers of other kinds are left alone *)

Lemma outstanding_remove_other (owner : kind -> option handle) (t : table)
  (k k' : kind) (h : handle) :
  tracked owner t -> owner k = Some h -> k' <> k ->
  outstanding k' (pending (clearTimeout h t)) = outstanding k' (pending t).
Proof.
  intros [(_ & _ & O) [_ A]] Hk Hne. cbn.
  induction (pending t) as [|e l IH]; cbn; [reflexivity|].
  apply Forall_cons in O as [O1 O2].
  destruct (Pos.eqb_spec (e_handle e) h) as [E|E].
  - rewrite IH by exact O2. cbn in O1. rewrite E in O1.
    assert (e_kind e = k) by (apply (A _ _ h); assumption).
    destruct (kind_eqb (e_kind e) k') eqn:Ek; [|reflexivity].
    apply kind_eqb_eq in Ek. congruence.
  - cbn. now rewrite IH.
Qed.

Lemma outstanding_set_other (t : table) (k k' : kind) (delay : N) :
  k' <> k ->
  outstanding k' (pending (snd (setTimeout k delay t))) = outstanding k' (pending t).
Proof.
  intros Hne. cbn. rewrite outstanding_app. cbn.
  destruct (kind_eqb k k') eqn:E; [apply kind_eqb_eq in E; congruence|].
  apply app_nil_r.
Qed.

Lemma outstanding_expire_other (owner : kind -> option handle) (t t' : table)
  (k k' : kind) (h : handle) :
  tracked owner t -> expire h t = Some (k, t') -> k' <> k ->
  outstanding k' (pending t') = outstanding k' (pending t).
Proof.
  intros T H Hne. destruct (tracked_expire owner t t' h k T H) as (_ & _ & Ok & _).
  assert (t' = clearTimeout h t) as ->.
  { unfold expire in H. destruct (lookup h (pending t)); [|discriminate].
    destruct (_ <=? _)%N; [|discriminate]. now injection H as _ <-. }
  now apply (outstanding_remove_other owner t k).
Qed.

End TimerFacts.

(** ** The listening supervisor *)

Module ServiceFacts.
Import JS Predicates Timers TimerFacts Service.

Lemma clearListeningTimeout_tracked (st : service) :
  serviceTracked st ->
  serviceTracked (clearListeningTimeout st)
  /\ listeningTimeout (clearListeningTimeout st) = None.
Proof.
  unfold serviceTracked, clearListeningTimeout. intros T.
  destruct (listeningTimeout st) as [h|] eqn:E; [|auto].
  split; [|reflexivity]. cbn.
  apply (tracked_ext (setOwner (serviceOwner st) Inactivity None)).
  - now intros [].
  - now apply tracked_clear.
Qed.

Lemma clearRestartTimeout_tracked (st : service) :
  serviceTracked st ->
  serviceTracked (clearRestartTimeout st)
  /\ restartTimeout (clearRestartTimeout st) = None.
Proof.
  unfold serviceTracked, clearRestartTimeout. intros T.
  destruct (restartTimeout st) as [h|] eqn:E; [|auto].
  split; [|reflexivity]. cbn.
  apply (tracked_ext (setOwner (serviceOwner st) Restart None)).
  - now intros [].
  - now apply tracked_clear.
Qed.

(** What the two clearing helpers leave alone. *)
Lemma clearListeningTimeout_keeps (st : service) :
  now (timers (clearListeningTimeout st)) = now (timers st)
  /\ nextHandle (timers (clearListeningTimeout st)) = nextHandle (timers st)
  /\ log (clearListeningTimeout st) = log st
  /\ restartTimeout (clearListeningTimeout st) = restartTimeout st.
Proof. unfold clearListeningTimeout. now destruct (listeningTimeout st). Qed.

Lemma clearRestartTimeout_keeps (st : service) :
  now (timers (clearRestartTimeout st)) = now (timers st)
  /\ nextHandle (timers (clearRestartTimeout st)) = nextHandle (timers st)
  /\ log (clearRestartTimeout st) = log st
  /\ listeningTimeout (clearRestartTimeout st) = listeningTimeout st.
Proof. unfold clearRestartTimeout. now destruct (restartTimeout st). Qed.

(** Arming the inactivity timer: afterwards exactly one is outstanding,
    due 120 seconds from now. *)
Lemma startListeningTimeout_tracked (st : service) :
  serviceTracked st ->
  serviceTracked (startListeningTimeout st)
  /\ listeningTimeout (startListeningTimeout st) = Some (nextHandle (timers st))
  /\ outstanding Inactivity (pending (timers (startListeningTimeout st)))
     = [timerEntry (nextHandle (timers st)) Inactivity (now (timers st)) listeningDuration].
Proof.
  intros T. destruct (clearListeningTimeout_tracked st T) as [T1 N1].
  destruct (clearListeningTimeout_keeps st) as (K1 & K2 & _).
  unfold startListeningTimeout.
  set (st1 := clearListeningTimeout st) in *.
  destruct (tracked_set (serviceOwner st1) (timers st1) Inactivity listeningDuration T1 N1)
    as [T2 O2].
  destruct (setTimeout Inactivity listeningDuration (timers st1)) as [h t] eqn:E.
  assert (Hh : h = nextHandle (timers st)).
  { unfold setTimeout in E. injection E as <- _. exact K2. }
  cbn [fst snd] in *. split; [|split].
  - unfold serviceTracked. cbn.
    apply (tracked_ext (setOwner (serviceOwner st1) Inactivity (Some h))); [|exact T2].
    now intros [].
  - cbn. now f_equal.
  - cbn. rewrite O2. unfold timerEntry. now rewrite K1, K2.
Qed.

(** Scheduling a restart: afterwards exactly one restart timer is
    outstanding, due after the backoff delay, and the attempt counter is one
    higher. *)
Lemma scheduleRestart_tracked (st : service) :
  serviceTracked st ->
  serviceTracked (scheduleRestart st)
  /\ outstanding Restart (pending (timers (scheduleRestart st)))
     = [timerEntry (nextHandle (timers st)) Restart (now (timers st))
          (restartDelay (isMobileDevice st) (restartAttempts st) (lastNonCriticalError st))].
Proof.
  intros T. destruct (clearRestartTimeout_tracked st T) as [T1 N1].
  destruct (clearRestartTimeout_keeps st) as (K1 & K2 & _).
  unfold scheduleRestart. cbv zeta.
  set (st1 := clearRestartTimeout st) in *.
  assert (F : isMobileDevice st1 = isMobileDevice st
              /\ restartAttempts st1 = restartAttempts st
              /\ lastNonCriticalError st1 = lastNonCriticalError st).
  { unfold st1, clearRestartTimeout. now destruct (restartTimeout st). }
  destruct F as (F1 & F2 & F3). rewrite F1, F2, F3.
  set (delay := restartDelay _ _ _).
  set (st2 := set_restartAttempts (restartAttempts st + 1) st1).
  destruct (tracked_set (serviceOwner st1) (timers st1) Restart delay T1 N1) as [T2 O2].
  change (timers st2) with (timers st1).
  destruct (setTimeout Restart delay (timers st1)) as [h t] eqn:E.
  cbn [fst snd] in *. split.
  - unfold serviceTracked. cbn.
    apply (tracked_ext (setOwner (serviceOwner st1) Restart (Some h))); [|exact T2].
    now intros [].
  - cbn. rewrite O2. unfold timerEntry. now rewrite K1, K2.
Qed.

Lemma scheduleRestart_spec (st : service) :
  restartAttempts (scheduleRestart st) = (restartAttempts st + 1)%N
  /\ restartTimeout (scheduleRestart st) = Some (nextHandle (timers st))
  /\ In (timerEntry (nextHandle (timers st)) Restart (now (timers st))
           (restartDelay (isMobileDevice st) (restartAttempts st) (lastNonCriticalError st)))
        (pending (timers (scheduleRestart st)))
  /\ log (scheduleRestart st) = log st
  /\ shouldBeListening (scheduleRestart st) = shouldBeListening st
  /\ isManuallyStopped (scheduleRestart st) = isManuallyStopped st
  /\ lang (scheduleRestart st) = lang st
  /\ isListeningValue (scheduleRestart st) = isListeningValue st
  /\ listeningTimeout (scheduleRestart st) = listeningTimeout st.
Proof.
  unfold scheduleRestart, clearRestartTimeout.
  destruct (restartTimeout st) as [h|]; cbn; repeat split;
    apply in_or_app; right; now left.
Qed.

Lemma startListeningTimeout_spec (st : service) :
  listeningTimeout (startListeningTimeout st) = Some (nextHandle (timers st))
  /\ In (timerEntry (nextHandle (timers st)) Inactivity (now (timers st)) listeningDuration)
        (pending (timers (startListeningTimeout st)))
  /\ log (startListeningTimeout st) = log st
  /\ shouldBeListening (startListeningTimeout st) = shouldBeListening st
  /\ isManuallyStopped (startListeningTimeout st) = isManuallyStopped st
  /\ lang (startListeningTimeout st) = lang st
  /\ isListeningValue (startListeningTimeout st) = isListeningValue st
  /\ restartTimeout (startListeningTimeout st) = restartTimeout st
  /\ restartAttempts (startListeningTimeout st) = restartAttempts st.
Proof.
  unfold startListeningTimeout, clearListeningTimeout.
  destruct (listeningTimeout st) as [h|]; cbn; repeat split;
    apply in_or_app; right; now left.
Qed.

Lemma startRecognitionSafely_tracked (o : oracle) (st : service) :
  serviceTracked st -> serviceTracked (startRecognitionSafely o st).
Proof.
  intros T. unfold startRecognitionSafely.
  destruct (negb (hasRecognition st)); [exact T|].
  destruct (isRecognizing st); [exact T|].
  destruct (startThrows o); [|exact T].
  now apply scheduleRestart_tracked.
Qed.

Lemma restartCallback_tracked (o : oracle) (st : service) :
  serviceTracked st -> serviceTracked (restartCallback o st).
Proof.
  intros T. unfold restartCallback.
  destruct (_ || _); [exact T|]. now apply startRecognitionSafely_tracked.
Qed.

Lemma listeningTimeoutCallback_tracked (o : oracle) (st : service) :
  serviceTracked st -> serviceTracked (listeningTimeoutCallback o st).
Proof.
  intros T. unfold listeningTimeoutCallback. cbv zeta.
  destruct (hasRecognition _); [|exact T]. destruct (stopThrows o); exact T.
Qed.

Lemma stopListening_tracked (o : oracle) (st : service) :
  serviceTracked st ->
  serviceTracked (stopListening o st)
  /\ outstanding Inactivity (pending (timers (stopListening o st))) = []
  /\ outstanding Restart (pending (timers (stopListening o st))) = [].
Proof.
  intros T. unfold stopListening. cbv zeta.
  set (st1 := set_shouldBeListening false (set_isManuallyStopped true st)).
  assert (T1 : serviceTracked st1) by exact T.
  destruct (clearRestartTimeout_tracked st1 T1) as [T2 N2].
  destruct (clearListeningTimeout_tracked _ T2) as [T3 N3].
  destruct (clearListeningTimeout_keeps (clearRestartTimeout st1)) as (_ & _ & _ & K).
  set (st3 := clearListeningTimeout (clearRestartTimeout st1)) in *.
  assert (R : serviceTracked st3 /\ outstanding Inactivity (pending (timers st3)) = []
              /\ outstanding Restart (pending (timers st3)) = []).
  { split; [exact T3|]. split.
    - now apply (tracked_none (serviceOwner st3)).
    - apply (tracked_none (serviceOwner st3)); [exact T3|]. cbn. now rewrite K. }
  destruct (hasRecognition st3 && isListeningValue st3); exact R.
Qed.

Lemma onresult_tracked (results : list (jsstring * bool)) (st : service) :
  serviceTracked st -> serviceTracked (onresult results st).
Proof.
  intros T. unfold onresult. cbv zeta.
  set (st1 := if truthy (trim (finalTranscript results)) then _ else st).
  set (st2 := if truthy (trim (interimTranscript results)) then _ else st1).
  assert (T2 : serviceTracked st2).
  { unfold st2, st1. destruct (truthy (trim (interimTranscript results)));
      destruct (truthy (trim (finalTranscript results))); exact T. }
  destruct (_ && _); [|exact T2]. now apply startListeningTimeout_tracked.
Qed.

Lemma onerror_tracked (o : oracle) (kind : string) (st : service) :
  serviceTracked st -> serviceTracked (onerror o kind st).
Proof.
  intros T. unfold onerror.
  destruct (String.eqb kind "no-speech"); [exact T|]. cbv zeta.
  destruct (includes criticalErrors kind); [|exact T].
  now apply stopListening_tracked.
Qed.

Lemma onend_tracked (st : service) : serviceTracked st -> serviceTracked (onend st).
Proof.
  intros T. unfold onend. cbv zeta.
  destruct (_ || _).
  - apply clearListeningTimeout_tracked. exact T.
  - apply scheduleRestart_tracked. exact T.
Qed.

Lemma startListening_resume_tracked (language : string) (p : permission)
  (o : oracle) (st : service) :
  serviceTracked st -> serviceTracked (startListening_resume language p o st).
Proof.
  intros T. destruct p; cbn [startListening_resume]; try exact T.
  apply startListeningTimeout_tracked. apply startRecognitionSafely_tracked. exact T.
Qed.

(** Every event keeps the service's timers tracked. *)
Lemma step_tracked (o : oracle) (ev : event) (st : service) :
  serviceTracked st -> serviceTracked (step o ev st).
Proof.
  intros T. destruct ev as [| language p | | | | results | kind | h | dt]; cbn [step].
  - unfold startListening_call. destruct (negb (hasRecognition st)); exact T.
  - destruct (hasRecognition st); [|exact T]. now apply startListening_resume_tracked.
  - now apply stopListening_tracked.
  - destruct (hasRecognition st); exact T.
  - destruct (hasRecognition st); [|exact T]. now apply onend_tracked.
  - destruct (hasRecognition st); [|exact T]. now apply onresult_tracked.
  - destruct (hasRecognition st); [|exact T]. now apply onerror_tracked.
  - destruct (expire h (timers st)) as [[k t]|] eqn:E; [|exact T].
    destruct (tracked_expire _ _ _ _ _ T E) as (T' & _).
    destruct k; [| | exact T' | exact T'].
    + now apply listeningTimeoutCallback_tracked.
    + now apply restartCallback_tracked.
  - exact T.
Qed.

Lemma run_tracked (evs : list (oracle * event)) :
  forall st : service, serviceTracked st -> serviceTracked (run evs st).
Proof.
  induction evs as [|[o ev] evs IH]; intros st T; cbn [run]; [exact T|].
  apply IH. now apply step_tracked.
Qed.

Lemma init_tracked (supported mobile : bool) : serviceTracked (init supported mobile).
Proof. apply tracked_empty. now intros []. Qed.

End ServiceFacts.

Module SupervisorClaims.
Import JS Predicates Timers TimerFacts Service ServiceFacts Examples.

(** C3.  When the engine's [onend] fires while [shouldBeListening] is
    true and the instance was not manually stopped, a restart is scheduled
    after [min(base + restartAttempts * step + penalty, cap)] milliseconds,
    with base 300, step 250, cap 2000 on the desktop and 1500, 500, 5000 on
    a mobile device, the penalty being 1000 on a mobile device whose last
    error was [no-speech] and 0 otherwise.  [restartAttempts] grows by
    exactly one with every scheduled restart, and [onstart] resets it
    to 0. *)
Theorem restart_backoff (st : service) :
  shouldBeListening st = true -> isManuallyStopped st = false ->
  restartAttempts (onend st) = (restartAttempts st + 1)%N
  /\ restartTimeout (onend st) = Some (nextHandle (timers st))
  /\ In (timerEntry (nextHandle (timers st)) Restart (now (timers st))
           (N.min ((if isMobileDevice st then 1500 else 300)
                   + restartAttempts st * (if isMobileDevice st then 500 else 250)
                   + (if isMobileDevice st
                         && match lastNonCriticalError st with
                            | Some e => String.eqb e "no-speech"
                            | None => false
                            end
                      then 1000 else 0))
                  (if isMobileDevice st then 5000 else 2000))%N)
        (pending (timers (onend st)))
  /\ (serviceTracked st ->
      length (outstanding Restart (pending (timers (onend st)))) = 1)
  /\ (forall s : service, restartAttempts (scheduleRestart s) = (restartAttempts s + 1)%N)
  /\ (forall s : service, restartAttempts (onstart s) = 0%N).
Proof.
  intros HS HM.
  assert (E : onend st = scheduleRestart (set_isRecognizing false st)).
  { unfold onend. cbv zeta.
    change (isManuallyStopped (set_isRecognizing false st)) with (isManuallyStopped st).
    change (shouldBeListening (set_isRecognizing false st)) with (shouldBeListening st).
    now rewrite HS, HM. }
  rewrite E.
  destruct (scheduleRestart_spec (set_isRecognizing false st)) as (A & B & C & _).
  split; [exact A|]. split; [exact B|]. split; [exact C|]. split; [|split].
  - intros T. destruct (scheduleRestart_tracked (set_isRecognizing false st) T) as [_ O].
    now rewrite O.
  - intros s. apply scheduleRestart_spec.
  - reflexivity.
Qed.

Lemma restart_backoff_witness :
  shouldBeListening (started false) = true
  /\ isManuallyStopped (started false) = false
  /\ restartAttempts (onend (started false)) = 1%N
  /\ In (timerEntry 2%positive Restart 0%N 300%N) (pending (timers (onend (started false))))
  /\ restartAttempts (onstart (onend (started false))) = 0%N.
Proof.
  split; [reflexivity|]. split; [reflexivity|].
  pose proof (restart_backoff (started false) eq_refl eq_refl) as (A & _ & C & _ & _ & D).
  split; [exact A|]. split; [exact C | exact (D _)].
Defined.

(** Restart delays on the desktop and on a mobile device after
    [no-speech], by attempt. *)
Example restart_delays :
  map (fun n => restartDelay false n None) [0; 1; 2; 6; 7; 8; 100]%N
  = [300; 550; 800; 1800; 2000; 2000; 2000]%N
  /\ map (fun n => restartDelay true n (Some "no-speech"%string)) [0; 1; 2; 5; 6]%N
     = [2500; 3000; 3500; 5000; 5000]%N
  /\ map (fun n => restartDelay true n (Some "network"%string)) [0; 1; 7; 8]%N
     = [1500; 2000; 5000; 5000]%N.
Proof. vm_compute. repeat split. Qed.

Lemma expire_gone (h : handle) (t : table) (k : kind) (t' : table) :
  expire h t = Some (k, t') -> expire h t' = None.
Proof.
  unfold expire. destruct (lookup h (pending t)) as [e|]; [|discriminate].
  destruct (e_due e <=? now t)%N; [|discriminate]. intros [= <- <-]. cbn.
  assert (L : lookup h (remove h (pending t)) = None).
  { induction (pending t) as [|x l IH]; cbn; [reflexivity|].
    destruct (Pos.eqb (e_handle x) h) eqn:E; [exact IH|]. cbn. now rewrite E. }
  now rewrite L.
Qed.

(** *** Silence leaves the inactivity timer alone *)

Lemma scheduleRestart_keeps_inactivity (st : service) :
  serviceTracked st ->
  outstanding Inactivity (pending (timers (scheduleRestart st)))
  = outstanding Inactivity (pending (timers st)).
Proof.
  intros T. unfold scheduleRestart. cbv zeta.
  set (st1 := clearRestartTimeout st).
  assert (E1 : outstanding Inactivity (pending (timers st1))
               = outstanding Inactivity (pending (timers st))).
  { unfold st1, clearRestartTimeout. destruct (restartTimeout st) as [h|] eqn:E; [|reflexivity].
    cbn. apply (outstanding_remove_other (serviceOwner st) (timers st) Restart);
      [exact T | exact E | discriminate]. }
  set (delay := restartDelay _ _ _).
  change (timers (set_restartAttempts (restartAttempts st1 + 1) st1)) with (timers st1).
  pose proof (outstanding_set_other (timers st1) Restart Inactivity delay ltac:(discriminate))
    as E2.
  destruct (setTimeout Restart delay (timers st1)) as [h t]. cbn in E2 |- *.
  now rewrite E2.
Qed.

Lemma startRecognitionSafely_quiet (o : oracle) (st : service) :
  serviceTracked st ->
  outstanding Inactivity (pending (timers (startRecognitionSafely o st)))
  = outstanding Inactivity (pending (timers st))
  /\ shouldBeListening (startRecognitionSafely o st) = shouldBeListening st
  /\ isManuallyStopped (startRecognitionSafely o st) = isManuallyStopped st.
Proof.
  intros T. unfold startRecognitionSafely.
  destruct (negb (hasRecognition st)); [auto|].
  destruct (isRecognizing st); [auto|].
  destruct (startThrows o); [|auto].
  destruct (scheduleRestart_spec (emit (EngineStart true) st)) as (_ & _ & _ & _ & S & M & _).
  rewrite S, M. split; [|auto].
  now rewrite scheduleRestart_keeps_inactivity.
Qed.

(** A quiet event while the service listens keeps the inactivity timer,
    its due time and the listening intent. *)
Lemma quiet_step (o : oracle) (ev : event) (st : service) :
  serviceTracked st -> shouldBeListening st = true -> isManuallyStopped st = false ->
  quiet ev st = true ->
  outstanding Inactivity (pending (timers (step o ev st)))
  = outstanding Inactivity (pending (timers st))
  /\ shouldBeListening (step o ev st) = true
  /\ isManuallyStopped (step o ev st) = false.
Proof.
  intros T HS HM HQ.
  destruct ev as [| language p | | | | results | kind | h | dt]; cbn [step quiet] in *.
  - unfold startListening_call. destruct (negb (hasRecognition st)); cbn; auto.
  - destruct p; [discriminate| |]; destruct (hasRecognition st); cbn; auto.
  - discriminate.
  - destruct (hasRecognition st); cbn; auto.
  - destruct (hasRecognition st); [|auto]. unfold onend. cbv zeta.
    change (isManuallyStopped (set_isRecognizing false st)) with (isManuallyStopped st).
    change (shouldBeListening (set_isRecognizing false st)) with (shouldBeListening st).
    rewrite HS, HM. cbn [negb orb].
    destruct (scheduleRestart_spec (set_isRecognizing false st))
      as (_ & _ & _ & _ & S & M & _).
    rewrite S, M. split; [|auto].
    now rewrite scheduleRestart_keeps_inactivity.
  - destruct (hasRecognition st); [|auto]. unfold onresult. cbv zeta.
    unfold activity in HQ. apply negb_true_iff, orb_false_iff in HQ as [Q1 Q2].
    rewrite Q1, Q2. cbn. auto.
  - destruct (hasRecognition st); [|auto]. unfold onerror.
    destruct (String.eqb kind "no-speech"); [cbn; auto|]. cbv zeta.
    apply negb_true_iff in HQ. rewrite HQ. cbn. auto.
  - destruct (expire h (timers st)) as [[k t]|] eqn:E; [|auto].
    destruct (tracked_expire _ _ _ _ _ T E) as (T' & _).
    destruct k; [discriminate | | |].
    + unfold restartCallback.
      change (shouldBeListening (set_timers t st)) with (shouldBeListening st).
      change (isManuallyStopped (set_timers t st)) with (isManuallyStopped st).
      rewrite HS, HM. cbn [negb orb].
      pose proof (outstanding_expire_other _ _ _ Restart Inactivity h T E ltac:(discriminate))
        as EO.
      destruct (negb (hasRecognition (set_timers t st))); [cbn; auto|].
      destruct (startRecognitionSafely_quiet o (set_lastNonCriticalError None (set_timers t st)))
        as (Q1 & Q2 & Q3); [exact T'|].
      rewrite Q1, Q2, Q3. cbn. auto.
    + pose proof (outstanding_expire_other _ _ _ Pause Inactivity h T E ltac:(discriminate)).
      cbn. auto.
    + pose proof (outstanding_expire_other _ _ _ Scroll Inactivity h T E ltac:(discriminate)).
      cbn. auto.
  - cbn. auto.
Qed.

Lemma quiet_run (evs : list (oracle * event)) :
  forall st : service,
    serviceTracked st -> shouldBeListening st = true -> isManuallyStopped st = false ->
    quietRun evs st = true ->
    outstanding Inactivity (pending (timers (run evs st)))
    = outstanding Inactivity (pending (timers st))
    /\ shouldBeListening (run evs st) = true
    /\ isManuallyStopped (run evs st) = false.
Proof.
  induction evs as [|[o ev] evs IH]; intros st T HS HM HQ; cbn [run quietRun] in *; [auto|].
  apply andb_true_iff in HQ as [Q1 Q2].
  destruct (quiet_step o ev st T HS HM Q1) as (E1 & S1 & M1).
  destruct (IH (step o ev st) (step_tracked o ev st T) S1 M1 Q2) as (E2 & S2 & M2).
  rewrite E2, E1. auto.
Qed.

Lemma lookup_NoDup (l : list entry) (e : entry) :
  NoDup (map e_handle l) -> In e l -> lookup (e_handle e) l = Some e.
Proof.
  induction l as [|x l IH]; cbn; [tauto|].
  intros N [->|Hin].
  - now rewrite Pos.eqb_refl.
  - apply NoDup_cons in N as [N1 N2].
    destruct (Pos.eqb_spec (e_handle x) (e_handle e)) as [E|E]; [|now apply IH].
    exfalso. apply N1. rewrite E. apply list_elem_of_In, in_map. exact Hin.
Qed.

(** The one outstanding timer of a kind expires exactly when it is due. *)
Lemma sole_timer_expires (owner : kind -> option handle) (t : table) (e : entry) :
  tracked owner t -> outstanding (e_kind e) (pending t) = [e] ->
  expire (e_handle e) t
  = if (e_due e <=? now t)%N then Some (e_kind e, clearTimeout (e_handle e) t) else None.
Proof.
  intros [(_ & N & _) _] H. unfold expire.
  assert (Hin : In e (pending t)).
  { apply (outstanding_In (e_kind e)). rewrite H. now left. }
  now rewrite (lookup_NoDup _ _ N Hin).
Qed.

(** C4.  Transcript activity (a final or an interim transcript that is not
    blank) while [shouldBeListening] is true re-arms the inactivity timer:
    afterwards exactly one is outstanding, due 120 seconds from now.  When
    it expires, which it can only once its 120 seconds have passed, the
    service marks itself manually stopped, asks the engine to stop and emits
    [timeout] once; no inactivity timer is outstanding then, and the expired
    handle cannot expire again.  Between the two, events that are neither
    transcript activity nor a stop (time passing, the engine ending and
    being restarted, errors that are not critical) leave that timer
    outstanding and the service listening, so that the timer can expire
    exactly from the moment 120 seconds have passed since the activity. *)
Theorem inactivity_timeout :
  (forall (st : service) (results : list (jsstring * bool)),
      serviceTracked st -> shouldBeListening st = true ->
      truthy (trim (finalTranscript results))
      || truthy (trim (interimTranscript results)) = true ->
      listeningTimeout (onresult results st) = Some (nextHandle (timers st))
      /\ outstanding Inactivity (pending (timers (onresult results st)))
         = [timerEntry (nextHandle (timers st)) Inactivity (now (timers st)) 120000])
  /\ (forall (st : service) (o : oracle) (h : handle) (t : table),
         serviceTracked st -> hasRecognition st = true -> stopThrows o = false ->
         expire h (timers st) = Some (Inactivity, t) ->
         (exists due, In {| e_handle := h; e_kind := Inactivity; e_due := due |}
                         (pending (timers st))
                      /\ (due <= now (timers st))%N)
         /\ isManuallyStopped (step o (TimerExpired h) st) = true
         /\ log (step o (TimerExpired h) st)
            = log st ++ [EngineStop false; Error "timeout"]
         /\ outstanding Inactivity (pending (timers (step o (TimerExpired h) st))) = []
         /\ expire h (timers (step o (TimerExpired h) st)) = None)
  /\ (forall (st : service) (results : list (jsstring * bool))
             (evs : list (oracle * event)),
         serviceTracked st -> shouldBeListening st = true -> isManuallyStopped st = false ->
         activity results = true ->
         quietRun evs (onresult results st) = true ->
         outstanding Inactivity (pending (timers (run evs (onresult results st))))
         = [timerEntry (nextHandle (timers st)) Inactivity (now (timers st)) 120000]
         /\ shouldBeListening (run evs (onresult results st)) = true
         /\ ((now (timers (run evs (onresult results st))) < now (timers st) + 120000)%N ->
             expire (nextHandle (timers st)) (timers (run evs (onresult results st))) = None)
         /\ ((now (timers st) + 120000 <= now (timers (run evs (onresult results st))))%N ->
             exists t, expire (nextHandle (timers st)) (timers (run evs (onresult results st)))
                       = Some (Inactivity, t))).
Proof.
  assert (Arm : forall (st : service) (results : list (jsstring * bool)),
      serviceTracked st -> shouldBeListening st = true ->
      truthy (trim (finalTranscript results))
      || truthy (trim (interimTranscript results)) = true ->
      listeningTimeout (onresult results st) = Some (nextHandle (timers st))
      /\ outstanding Inactivity (pending (timers (onresult results st)))
         = [timerEntry (nextHandle (timers st)) Inactivity (now (timers st)) 120000]
      /\ isManuallyStopped (onresult results st) = isManuallyStopped st
      /\ shouldBeListening (onresult results st) = true).
  { intros st results T HS HA. unfold onresult. cbv zeta.
    set (st1 := if truthy (trim (finalTranscript results)) then _ else st).
    set (st2 := if truthy (trim (interimTranscript results)) then _ else st1).
    assert (F : serviceTracked st2 /\ timers st2 = timers st
                /\ shouldBeListening st2 = shouldBeListening st
                /\ isManuallyStopped st2 = isManuallyStopped st).
    { unfold st2, st1. destruct (truthy (trim (interimTranscript results)));
        destruct (truthy (trim (finalTranscript results)));
        (split; [exact T | repeat split]). }
    destruct F as (T2 & E2 & S2 & M2). rewrite HA, S2, HS. cbn [andb].
    destruct (startListeningTimeout_tracked st2 T2) as (_ & L & O).
    destruct (startListeningTimeout_spec st2) as (_ & _ & _ & S & M & _).
    rewrite E2 in L, O. rewrite S, M, S2, M2. auto. }
  split; [|split].
  - intros st results T HS HA. destruct (Arm st results T HS HA) as (A & B & _).
    now split.
  - intros st o h t T HR HT E. cbn [step]. rewrite E.
    destruct (tracked_expire _ _ _ _ _ T E) as (_ & O & _ & _ & D).
    split; [exact D|].
    unfold listeningTimeoutCallback. cbv zeta.
    change (hasRecognition (set_isManuallyStopped true (set_timers t st)))
      with (hasRecognition st).
    rewrite HR, HT. cbn. rewrite <- app_assoc. repeat split.
    + exact O.
    + exact (expire_gone _ _ _ _ E).
  - intros st results evs T HS HM HA HQ.
    destruct (Arm st results T HS HA) as (_ & B & C & D).
    pose proof (onresult_tracked results st T) as T1.
    destruct (quiet_run evs (onresult results st) T1 D ltac:(congruence) HQ)
      as (E & S & _).
    rewrite B in E. split; [exact E|]. split; [exact S|].
    pose proof (sole_timer_expires (serviceOwner (run evs (onresult results st)))
                  (timers (run evs (onresult results st)))
                  (timerEntry (nextHandle (timers st)) Inactivity (now (timers st)) 120000)
                  (run_tracked evs _ T1) E) as X.
    cbn [timerEntry e_handle e_kind e_due] in X. split.
    + intros Hlt. rewrite X. apply N.leb_gt in Hlt. now rewrite Hlt.
    + intros Hle. rewrite X. apply N.leb_le in Hle. rewrite Hle. eauto.
Qed.

(** The silent session: [hola] re-arms the timer at 5 s; it cannot expire
    at 124.999 s; at 125 s it expires, the engine is asked to stop and
    [timeout] is emitted, once. *)
Example silent_session_times_out :
  log (run silentSession (started false))
  = [EngineStart false; Listening true; Transcript (lit "hola") true;
     EngineStop false; Error "timeout"]
  /\ isManuallyStopped (run silentSession (started false)) = true
  /\ log (run (firstn 4 silentSession) (started false))
     = [EngineStart false; Listening true; Transcript (lit "hola") true].
Proof. vm_compute. repeat split. Qed.

Lemma stopListening_spec (o : oracle) (st : service) :
  shouldBeListening (stopListening o st) = false
  /\ isManuallyStopped (stopListening o st) = true
  /\ log (stopListening o st)
     = log st ++ (if hasRecognition st && isListeningValue st
                  then [EngineStop (stopThrows o)] else []).
Proof.
  destruct st as [hr lg ms lt sb ir rt ra mo le lv tm lo].
  unfold stopListening, clearListeningTimeout, clearRestartTimeout. cbv zeta.
  destruct rt, lt; cbn; destruct (hr && lv); cbn; now rewrite ?app_nil_r.
Qed.

(** A restart in the middle of the silence does not reset the 120
    seconds. *)
Example restart_keeps_deadline :
  quietRun restartsInSilence heard = true
  /\ outstanding Inactivity (pending (timers (run restartsInSilence heard)))
     = [timerEntry 2%positive Inactivity 0 120000]
  /\ now (timers (run restartsInSilence heard)) = 120000%N
  /\ log (step calm (TimerExpired 2%positive) (run restartsInSilence heard))
     = [EngineStart false; Listening true; Transcript (lit "hola") true;
        EngineStart false; Listening true; EngineStop false; Error "timeout"].
Proof. vm_compute. repeat split. Qed.

(** C5.  On an engine error of kind [kind]: [no-speech] changes nothing
    but the memo of the last error, so it neither stops listening nor
    reaches the error stream (and the component's [handleError] would ignore
    it); [not-allowed], [audio-capture] and [service-not-allowed] are
    emitted and stop listening; every other kind is emitted and does not
    stop listening.  The subscriber of the error stream, [handleError],
    changes the message and the displayed listening flag of the component
    only: buffer, segments, requests and timers stay as they are. *)
Theorem onerror_by_kind (o : oracle) (st : service) (kind : string) :
  (log (onerror o "no-speech" st) = log st
   /\ shouldBeListening (onerror o "no-speech" st) = shouldBeListening st
   /\ isManuallyStopped (onerror o "no-speech" st) = isManuallyStopped st
   /\ isListeningValue (onerror o "no-speech" st) = isListeningValue st
   /\ timers (onerror o "no-speech" st) = timers st
   /\ lastNonCriticalError (onerror o "no-speech" st) = Some "no-speech"%string
   /\ forall c : Component.component, Component.handleError "no-speech" c = c)
  /\ (forall c : Component.component,
         Component.speechBuffer (Component.handleError kind c) = Component.speechBuffer c
         /\ Component.segments (Component.handleError kind c) = Component.segments c
         /\ Component.requests (Component.handleError kind c) = Component.requests c
         /\ Component.timers (Component.handleError kind c) = Component.timers c
         /\ Component.speechPauseTimer (Component.handleError kind c)
            = Component.speechPauseTimer c)
  /\ (In kind ["not-allowed"; "audio-capture"; "service-not-allowed"]%string ->
      log (onerror o kind st)
      = log st ++ Error kind
               :: (if hasRecognition st && isListeningValue st
                   then [EngineStop (stopThrows o)] else [])
      /\ shouldBeListening (onerror o kind st) = false
      /\ isManuallyStopped (onerror o kind st) = true)
  /\ (kind <> "no-speech"%string ->
      ~ In kind ["not-allowed"; "audio-capture"; "service-not-allowed"]%string ->
      log (onerror o kind st) = log st ++ [Error kind]
      /\ shouldBeListening (onerror o kind st) = shouldBeListening st
      /\ isManuallyStopped (onerror o kind st) = isManuallyStopped st
      /\ isListeningValue (onerror o kind st) = isListeningValue st
      /\ timers (onerror o kind st) = timers st).
Proof.
  split; [|split; [|split]].
  - repeat split.
  - intros c. unfold Component.handleError.
    repeat (destruct (String.eqb kind _)); repeat split.
  - intros HK.
    assert (HC : includes criticalErrors kind = true).
    { cbn in HK. destruct HK as [<-|[<-|[<-|[]]]]; reflexivity. }
    assert (HN : String.eqb kind "no-speech" = false).
    { cbn in HK. destruct HK as [<-|[<-|[<-|[]]]]; reflexivity. }
    unfold onerror. rewrite HN, HC. cbv zeta.
    destruct (stopListening_spec o
                (emit (Error kind)
                   (set_lastNonCriticalError
                      (if String.eqb kind "" then None else Some kind) st)))
      as (A & B & C).
    rewrite A, B, C. cbn. now rewrite <- app_assoc.
  - intros HN HK. apply String.eqb_neq in HN.
    assert (HC : includes criticalErrors kind = false).
    { unfold includes, criticalErrors. cbn.
      destruct (String.eqb_spec kind "not-allowed") as [->|_]; [exfalso; apply HK; cbn; auto|].
      destruct (String.eqb_spec kind "audio-capture") as [->|_]; [exfalso; apply HK; cbn; auto|].
      destruct (String.eqb_spec kind "service-not-allowed") as [->|_];
        [exfalso; apply HK; cbn; auto|reflexivity]. }
    unfold onerror. rewrite HN, HC. repeat split.
Qed.

(** C6, what the claim says of a refused permission: [shouldBeListening]
    would be as before.  It is set before the microphone is asked for. *)
Lemma refused_permission_leaves_intent :
  shouldBeListening (startListening "en-US" Refused calm (init true false))
  <> shouldBeListening (init true false).
Proof. vm_compute. discriminate. Qed.

(** C6, amended.  A call of [startListening(language)] on a service that
    has the engine sets [shouldBeListening] before it asks for the
    microphone, whatever the answer.  If the permission is refused (or the
    request fails) the call emits [not-allowed] on the error stream and
    returns; it does not call the engine, arm a timer, or touch
    [manuallyStopped] or the engine language.  If it is granted the call
    sets [manuallyStopped = false] and the engine language, makes the
    guarded start (a call of [start()] unless the engine is known to be
    running) and arms the inactivity timer. *)
Theorem startListening_by_permission (language : string) (o : oracle) (st : service) :
  hasRecognition st = true ->
  (forall p : permission, p <> Granted ->
      log (startListening language p o st) = log st ++ [Error "not-allowed"]
      /\ shouldBeListening (startListening language p o st) = true
      /\ isManuallyStopped (startListening language p o st) = isManuallyStopped st
      /\ lang (startListening language p o st) = lang st
      /\ timers (startListening language p o st) = timers st
      /\ listeningTimeout (startListening language p o st) = listeningTimeout st
      /\ restartTimeout (startListening language p o st) = restartTimeout st)
  /\ (shouldBeListening (startListening language Granted o st) = true
      /\ isManuallyStopped (startListening language Granted o st) = false
      /\ lang (startListening language Granted o st) = language
      /\ log (startListening language Granted o st)
         = log st ++ (if isRecognizing st then [] else [EngineStart (startThrows o)])
      /\ exists h start,
          listeningTimeout (startListening language Granted o st) = Some h
          /\ In (timerEntry h Inactivity start 120000)
                (pending (timers (startListening language Granted o st)))
          /\ start = now (timers st)).
Proof.
  intros HR. unfold startListening, startListening_call. rewrite HR. cbn [negb].
  split.
  - intros p Hp. destruct p; [congruence| |]; cbn; repeat split.
  - cbn [startListening_resume].
    set (st1 := set_lang language (set_isManuallyStopped false (set_shouldBeListening true st))).
    set (st2 := startRecognitionSafely o st1).
    assert (F : shouldBeListening st2 = true /\ isManuallyStopped st2 = false
                /\ lang st2 = language
                /\ log st2 = log st ++ (if isRecognizing st then []
                                         else [EngineStart (startThrows o)])
                /\ now (timers st2) = now (timers st)).
    { unfold st2, startRecognitionSafely.
      change (hasRecognition st1) with (hasRecognition st).
      change (isRecognizing st1) with (isRecognizing st).
      rewrite HR. cbn [negb]. destruct (isRecognizing st).
      - cbn. now rewrite app_nil_r.
      - destruct (startThrows o); [|cbn; auto].
        destruct (scheduleRestart_spec (emit (EngineStart true) st1))
          as (_ & _ & _ & L & S & M & G & _).
        rewrite L, S, M, G. cbn. repeat split.
        unfold scheduleRestart, clearRestartTimeout. cbn.
        now destruct (restartTimeout st). }
    destruct F as (F1 & F2 & F3 & F4 & F5).
    destruct (startListeningTimeout_spec st2) as (A & B & C & D & E & G & _).
    rewrite C, D, E, G, F1, F2, F3, F4. repeat split.
    exists (nextHandle (timers st2)), (now (timers st2)). auto.
Qed.

Lemma startListening_by_permission_witness :
  hasRecognition (init true false) = true
  /\ log (startListening "es-ES" Refused calm (init true false)) = [Error "not-allowed"]
  /\ shouldBeListening (startListening "es-ES" Refused calm (init true false)) = true
  /\ log (startListening "es-ES" Granted calm (init true false)) = [EngineStart false]
  /\ isManuallyStopped (startListening "es-ES" Granted calm (init true false)) = false.
Proof.
  split; [reflexivity|].
  pose proof (startListening_by_permission "es-ES" calm (init true false) eq_refl)
    as [R G].
  destruct (R Refused ltac:(discriminate)) as (R1 & R2 & _).
  destruct G as (_ & G2 & _ & G4 & _).
  split; [exact R1|]. split; [exact R2|]. split; [exact G4 | exact G2].
Defined.

End SupervisorClaims.

Module TimerClaims.
Import JS Predicates Timers TimerFacts.

Section ComponentTimers.
Import Component ComponentFacts.

Lemma switches_tracked (st st' : component) :
  switches st' = switches st -> componentTracked st -> componentTracked st'.
Proof.
  unfold switches, componentTracked. intros [= _ _ E1 E2 E3 _] T.
  rewrite E1. apply (tracked_ext (componentOwner st)); [|exact T].
  intros []; cbn; congruence.
Qed.

Lemma pipeline_tracked (st st' : component) :
  pipeline st' = pipeline st -> componentTracked st -> componentTracked st'.
Proof.
  intros P T. apply pipeline_inv in P as (_ & _ & _ & _ & _ & _ & E2 & E3 & E1 & _).
  unfold componentTracked. rewrite E1.
  apply (tracked_ext (componentOwner st)); [|exact T].
  intros []; cbn; congruence.
Qed.

Lemma clearSpeechPauseTimer_tracked (st : component) :
  componentTracked st ->
  componentTracked (clearSpeechPauseTimer st)
  /\ speechPauseTimer (clearSpeechPauseTimer st) = None.
Proof.
  unfold componentTracked, clearSpeechPauseTimer. intros T.
  destruct (speechPauseTimer st) as [h|] eqn:E; [|auto].
  split; [|reflexivity]. cbn.
  apply (tracked_ext (setOwner (componentOwner st) Pause None)).
  - now intros [].
  - now apply tracked_clear.
Qed.

Lemma clearScrollScheduleTimer_tracked (st : component) :
  componentTracked st ->
  componentTracked (clearScrollScheduleTimer st)
  /\ scrollScheduleTimer (clearScrollScheduleTimer st) = None.
Proof.
  unfold componentTracked, clearScrollScheduleTimer. intros T.
  destruct (scrollScheduleTimer st) as [h|] eqn:E; [|auto].
  split; [|reflexivity]. cbn.
  apply (tracked_ext (setOwner (componentOwner st) Scroll None)).
  - now intros [].
  - now apply tracked_clear.
Qed.

(** Arming the pause timer: afterwards exactly one is outstanding, due
    1300 ms from now. *)
Lemma resetSpeechPauseTimer_tracked (st : component) :
  componentTracked st ->
  componentTracked (resetSpeechPauseTimer st)
  /\ outstanding Pause (pending (timers (resetSpeechPauseTimer st)))
     = [timerEntry (nextHandle (timers st)) Pause (now (timers st)) speechPauseMs].
Proof.
  intros T. destruct (clearSpeechPauseTimer_tracked st T) as [T1 N1].
  assert (K : now (timers (clearSpeechPauseTimer st)) = now (timers st)
              /\ nextHandle (timers (clearSpeechPauseTimer st)) = nextHandle (timers st)).
  { unfold clearSpeechPauseTimer. now destruct (speechPauseTimer st). }
  destruct K as [K1 K2].
  unfold resetSpeechPauseTimer.
  set (st1 := clearSpeechPauseTimer st) in *.
  destruct (tracked_set (componentOwner st1) (timers st1) Pause speechPauseMs T1 N1)
    as [T2 O2].
  destruct (setTimeout Pause speechPauseMs (timers st1)) as [h t] eqn:E.
  cbn [fst snd] in *. split.
  - unfold componentTracked. cbn.
    apply (tracked_ext (setOwner (componentOwner st1) Pause (Some h))); [|exact T2].
    now intros [].
  - cbn. rewrite O2. unfold timerEntry. now rewrite K1, K2.
Qed.

(** Arming the scroll timer: afterwards exactly one is outstanding, due at
    once. *)
Lemma scheduleAutoScrollToLatest_tracked (st : component) :
  componentTracked st ->
  componentTracked (scheduleAutoScrollToLatest st)
  /\ outstanding Scroll (pending (timers (scheduleAutoScrollToLatest st)))
     = [timerEntry (nextHandle (timers st)) Scroll (now (timers st)) 0].
Proof.
  intros T. destruct (clearScrollScheduleTimer_tracked st T) as [T1 N1].
  assert (K : now (timers (clearScrollScheduleTimer st)) = now (timers st)
              /\ nextHandle (timers (clearScrollScheduleTimer st)) = nextHandle (timers st)).
  { unfold clearScrollScheduleTimer. now destruct (scrollScheduleTimer st). }
  destruct K as [K1 K2].
  unfold scheduleAutoScrollToLatest.
  set (st1 := clearScrollScheduleTimer st) in *.
  destruct (tracked_set (componentOwner st1) (timers st1) Scroll 0 T1 N1) as [T2 O2].
  destruct (setTimeout Scroll 0 (timers st1)) as [h t] eqn:E.
  cbn [fst snd] in *. split.
  - unfold componentTracked. cbn.
    apply (tracked_ext (setOwner (componentOwner st1) Scroll (Some h))); [|exact T2].
    now intros [].
  - cbn. rewrite O2. unfold timerEntry. now rewrite K1, K2.
Qed.

Lemma flush_tracked (force : bool) (st st' : component) :
  flushSpeechBuffer force st = Some st' -> componentTracked st -> componentTracked st'.
Proof.
  intros F T. destruct (flushSpeechBuffer_spec force st) as (st1 & F1 & S & _).
  rewrite F in F1. injection F1 as <-. now apply (switches_tracked st).
Qed.

(** Every event keeps the component's timers tracked. *)
Lemma component_step_tracked (ev : event) (st st' : component) :
  step ev st = Some st' -> componentTracked st -> componentTracked st'.
Proof.
  destruct (aside ev) eqn:A.
  { intros H T. destruct (step_aside ev st A) as (st1 & E & P).
    rewrite H in E. injection E as <-. now apply (pipeline_tracked st). }
  destruct ev as [text isFinal | listening | kind | id r | id | h | | text | code | | dt
                 | | k r | k status errorMsg | i | i | enabled |
                 | savedLanguage enableTTS supported | t | throws];
    try discriminate A; cbn [step]; intros H T.
  - (* a transcript *)
    unfold onTranscript in H.
    set (st0 := if manualMode st then _ else st) in H.
    assert (T0 : componentTracked st0).
    { unfold st0. destruct (manualMode st); [|exact T].
      apply clearSpeechPauseTimer_tracked. exact T. }
    clearbody st0.
    destruct (resetSpeechPauseTimer_tracked st0 T0) as [T1 _].
    destruct isFinal.
    + destruct (truthy (trim text)); cbn [negb] in H.
      * eapply flush_tracked; [exact H|]. exact T1.
      * now injection H as <-.
    + injection H as <-.
      match goal with |- componentTracked (rebuildDisplayStrings ?x) =>
        destruct (rebuildDisplayStrings_keeps x) as (_ & _ & _ & R) end.
      apply controls_inv in R as (R & _).
      eapply switches_tracked; [exact R|]. exact T1.
  - (* the listening state *)
    unfold onListening in H.
    destruct (negb listening && isListening st).
    + eapply flush_tracked; [exact H|].
      apply clearSpeechPauseTimer_tracked. exact T.
    + injection H as <-. exact T.
  - (* an error kind *)
    injection H as <-. unfold handleError.
    repeat (destruct (String.eqb kind _)); exact T.
  - (* a translation arrives *)
    injection H as <-. destruct (translateNext_keeps id r st) as (_ & _ & _ & _ & C).
    apply controls_inv in C as (C & _). now apply (switches_tracked st).
  - (* a translation fails *)
    injection H as <-. destruct (translateError_keeps id st) as (_ & _ & _ & _ & C).
    apply controls_inv in C as (C & _). now apply (switches_tracked st).
  - (* a timer expires *)
    destruct (expire h (timers st)) as [[k t]|] eqn:E; [|now injection H as <-].
    destruct (tracked_expire _ _ _ _ _ T E) as (T' & O & _).
    destruct k as [| | |].
    + now injection H as <-.
    + now injection H as <-.
    + eapply flush_tracked; [exact H|]. exact T'.
    + injection H as <-. unfold componentTracked. cbn.
      apply (tracked_ext (setOwner (componentOwner st) Scroll None)); [now intros []|].
      now apply tracked_null.
  - (* the display effect *)
    injection H as <-. now apply scheduleAutoScrollToLatest_tracked.
  - (* typing *)
    injection H as <-. unfold onTextChange. cbv zeta.
    destruct (negb (truthy text) || (length (trim text) =? 0)); exact T.
  - (* clearing *)
    injection H as <-. unfold clearText. cbv zeta.
    apply clearSpeechPauseTimer_tracked. exact T.
  - (* time passes *)
    injection H as <-. exact T.
Qed.

Lemma component_run_tracked (evs : list event) :
  forall st st' : component,
    run evs st = Some st' -> componentTracked st -> componentTracked st'.
Proof.
  induction evs as [|ev evs IH]; intros st st' H T; cbn [run] in H.
  - now injection H as <-.
  - destruct (step ev st) as [st1|] eqn:E; [|discriminate].
    eapply IH; [exact H|]. eapply component_step_tracked; eassumption.
Qed.

End ComponentTimers.

(** C9.  At most one timer of each of the four kinds is outstanding at any
    time: whatever happens to the service, started on any browser, at most
    one inactivity timer and at most one restart timer are outstanding, and
    whatever happens to the component at most one pause timer and at most
    one scroll timer are.  Each of the four operations that arm a timer
    cancels the handle its field holds first, so that afterwards the timer
    it has just armed is the only outstanding one of its kind. *)
Theorem one_timer_per_kind :
  (forall (supported mobile : bool) (evs : list (Service.oracle * Service.event)),
      length (outstanding Inactivity
                (pending (Service.timers (Service.run evs (Service.init supported mobile)))))
      <= 1
      /\ length (outstanding Restart
                   (pending (Service.timers (Service.run evs (Service.init supported mobile)))))
         <= 1)
  /\ (forall (evs : list Component.event) (st : Component.component),
         Component.run evs Component.init = Some st ->
         length (outstanding Pause (pending (Component.timers st))) <= 1
         /\ length (outstanding Scroll (pending (Component.timers st))) <= 1)
  /\ (forall st : Service.service,
         serviceTracked st ->
         outstanding Inactivity (pending (Service.timers (Service.startListeningTimeout st)))
         = [timerEntry (nextHandle (Service.timers st)) Inactivity
              (now (Service.timers st)) 120000]
         /\ outstanding Restart (pending (Service.timers (Service.scheduleRestart st)))
            = [timerEntry (nextHandle (Service.timers st)) Restart
                 (now (Service.timers st))
                 (Service.restartDelay (Service.isMobileDevice st)
                    (Service.restartAttempts st) (Service.lastNonCriticalError st))])
  /\ (forall st : Component.component,
         componentTracked st ->
         outstanding Pause (pending (Component.timers (Component.resetSpeechPauseTimer st)))
         = [timerEntry (nextHandle (Component.timers st)) Pause
              (now (Component.timers st)) 1300]
         /\ outstanding Scroll
              (pending (Component.timers (Component.scheduleAutoScrollToLatest st)))
            = [timerEntry (nextHandle (Component.timers st)) Scroll
                 (now (Component.timers st)) 0])
  /\ (forall (supported mobile : bool) (evs : list (Service.oracle * Service.event)),
         serviceTracked (Service.run evs (Service.init supported mobile)))
  /\ (forall (evs : list Component.event) (st : Component.component),
         Component.run evs Component.init = Some st -> componentTracked st).
Proof.
  assert (S : forall supported mobile evs,
             serviceTracked (Service.run evs (Service.init supported mobile))).
  { intros. apply ServiceFacts.run_tracked, ServiceFacts.init_tracked. }
  assert (C : forall evs st, Component.run evs Component.init = Some st ->
                             componentTracked st).
  { intros evs st R. eapply component_run_tracked; [exact R|].
    apply tracked_empty. now intros []. }
  split; [|split; [|split; [|split; [|split]]]].
  - intros supported mobile evs. split; eapply tracked_at_most_one; apply S.
  - intros evs st R. split; eapply tracked_at_most_one; eapply C; exact R.
  - intros st T. split.
    + now apply ServiceFacts.startListeningTimeout_tracked.
    + now apply ServiceFacts.scheduleRestart_tracked.
  - intros st T. split.
    + now apply resetSpeechPauseTimer_tracked.
    + now apply scheduleAutoScrollToLatest_tracked.
  - exact S.
  - exact C.
Qed.

End TimerClaims.

(** ** The speech buffer loses and repeats nothing *)

Module BufferClaims.
Import JS JSFacts Bufferer Predicates ChunkFacts PackFacts Timers TimerFacts.
Import Component ComponentFacts Examples.






















Example double_space_sent :
  option_map dispatched (run doubleSpace listeningEs) = Some [lit "Hi. Yo."].
Proof. vm_compute. reflexivity. Qed.



(** Choosing a language in the initial state gives a state to start
    from. *)
Example language_chosen_starts :
  exists st, run [LanguageChanged "es"; ListeningChanged true] init = Some st
    /\ manualMode st = false /\ selectedLanguage st <> ""%string
    /\ componentTracked st /\ pauseArmed st.
Proof.
  eexists. split; [reflexivity|]. split; [reflexivity|]. split; [discriminate|].
  split; [|left; reflexivity].
  repeat split; try constructor; intros []; discriminate.
Qed.

Example two_fragments_sent :
  option_map dispatched (run (twoFragments ++ [ListeningChanged false]) listeningEs)
  = Some [lit "Hello there."; lit "How are you"].
Proof. vm_compute. reflexivity. Qed.

End BufferClaims.

(** * Further properties of the pipeline *)

(** ** The string helpers of the bufferer *)

Module BuffererExtras.
Import JS JSFacts Bufferer Predicates ChunkFacts PackFacts.

Lemma trimEnd_headOk_prefix (s : jsstring) :
  headOk s = true -> exists w, s = trim s ++ w.
Proof.
  intros H. unfold trim. rewrite trimStart_fixed by exact H. apply trimEnd_prefix.
Qed.

Lemma headOk_take (n : nat) (s : jsstring) : headOk s = true -> headOk (take n s) = true.
Proof. destruct s, n; auto. Qed.

(** [joinWithSpace]: the result carries no outer whitespace, a blank side
    is dropped, and the result is empty only when both sides are blank. *)
Theorem joinWithSpace_trimmed (a b : jsstring) :
  trim (joinWithSpace a b) = joinWithSpace a b
  /\ (trim a = [] -> joinWithSpace a b = trim b)
  /\ (trim b = [] -> joinWithSpace a b = trim a)
  /\ (joinWithSpace a b = [] <-> trim a = [] /\ trim b = [])
  /\ stripWs (joinWithSpace a b) = stripWs a ++ stripWs b.
Proof.
  unfold joinWithSpace.
  destruct (truthy (trim a)) eqn:Ea; destruct (truthy (trim b)) eqn:Eb; cbn [negb].
  - apply truthy_true in Ea, Eb. repeat split; try congruence.
    + now apply trim_joined.
    + destruct (trim a); [congruence | discriminate].
    + destruct (trim a); [congruence | discriminate].
    + intros [? _]. congruence.
    + now rewrite !stripWs_app, !stripWs_trim.
  - apply truthy_true in Ea. apply truthy_false in Eb. repeat split; try congruence.
    + apply trim_idem.
    + intros [? _]. congruence.
    + now rewrite stripWs_trim, <- (stripWs_trim b), Eb, app_nil_r.
  - apply truthy_false in Ea. apply truthy_true in Eb. repeat split; try congruence.
    + apply trim_idem.
    + intros [_ ?]. congruence.
    + now rewrite stripWs_trim, <- (stripWs_trim a), Ea.
  - apply truthy_false in Ea, Eb. repeat split; try congruence.
    + apply trim_idem.
    + now rewrite stripWs_trim, <- (stripWs_trim a), <- (stripWs_trim b), Ea, Eb.
Qed.

(** [truncateForQuery]: the result never exceeds the budget, carries no
    outer whitespace, is a prefix of the trimmed text, and is the trimmed
    text itself when that fits. *)
Theorem truncateForQuery_bounded (text : jsstring) (maxChars : nat) :
  length (truncateForQuery text maxChars) <= maxChars
  /\ trim (truncateForQuery text maxChars) = truncateForQuery text maxChars
  /\ (exists rest, trim text = truncateForQuery text maxChars ++ rest)
  /\ (length (trim text) <= maxChars -> truncateForQuery text maxChars = trim text).
Proof.
  unfold truncateForQuery, sliceTo.
  destruct (length (trim text) <=? maxChars) eqn:E.
  - apply Nat.leb_le in E.
    repeat split; [exact E | apply trim_idem | exists []; now rewrite app_nil_r].
  - apply Nat.leb_gt in E.
    assert (Hh : headOk (trim text) = true) by apply headOk_trim.
    assert (P : forall k, length (trim (take k (take maxChars (trim text)))) <= maxChars
                /\ exists rest, trim text = trim (take k (take maxChars (trim text))) ++ rest).
    { intros k. split.
      - pose proof (length_trim (take k (take maxChars (trim text)))) as L.
        rewrite !length_take in L. lia.
      - destruct (trimEnd_headOk_prefix (take k (take maxChars (trim text))))
          as [w Hw]; [now apply headOk_take, headOk_take|].
        exists (w ++ drop k (take maxChars (trim text)) ++ drop maxChars (trim text)).
        rewrite app_assoc, <- Hw, app_assoc, take_drop, take_drop. reflexivity. }
    assert (Q : length (trim (take maxChars (trim text))) <= maxChars
                /\ exists rest, trim text = trim (take maxChars (trim text)) ++ rest).
    { split.
      - pose proof (length_trim (take maxChars (trim text))) as L.
        rewrite length_take in L. lia.
      - destruct (trimEnd_headOk_prefix (take maxChars (trim text)))
          as [w Hw]; [now apply headOk_take|].
        exists (w ++ drop maxChars (trim text)).
        rewrite app_assoc, <- Hw, take_drop. reflexivity. }
    destruct (pastSixTenths _ _).
    + destruct (P (Z.to_nat (lastIndexOf SPACE (take maxChars (trim text))))) as [P1 P2].
      repeat split; [exact P1 | apply trim_idem | exact P2 | lia].
    + destruct Q as [Q1 Q2].
      repeat split; [exact Q1 | apply trim_idem | exact Q2 | lia].
Qed.

(** [chunkText] with a positive budget returns; its chunks are non-empty,
    trimmed and within the budget, they hold the units of the text that are
    not whitespace in order, and a blank text gives no chunk. *)
Theorem chunkText_chunks (text : jsstring) (maxChars : nat) :
  0 < maxChars ->
  exists out, chunkText text maxChars = Some out
    /\ Forall (goodPiece maxChars) out
    /\ stripWs (concat out) = stripWs text
    /\ (trim text = [] -> out = []).
Proof.
  intros Hpos. destruct (chunkText_total maxChars Hpos text) as [out Hout].
  destruct (chunkText_spec maxChars Hpos text out Hout) as [G S].
  exists out. repeat split; try assumption.
  intros Hb. unfold chunkText in Hout. rewrite Hb in Hout. cbn in Hout. congruence.
Qed.

Lemma chunkText_chunks_witness :
  exists out, chunkText (lit "  one two three  ") 7 = Some out
    /\ Forall (goodPiece 7) out
    /\ stripWs (concat out) = stripWs (lit "  one two three  ")
    /\ (trim (lit "  one two three  ") = [] -> out = []).
Proof. apply (chunkText_chunks (lit "  one two three  ") 7). lia. Defined.

(** With a budget of zero the loop of [chunkText] makes no progress on a
    text that is not blank: it does not end, whatever the fuel. *)
Theorem chunkText_zero_budget (text : jsstring) :
  trim text <> [] ->
  (forall (fuel : nat) (chunks : list jsstring), chunkLoop fuel 0 chunks (trim text) = None)
  /\ chunkText text 0 = None.
Proof.
  intros Hne.
  assert (L : forall fuel chunks, chunkLoop fuel 0 chunks (trim text) = None).
  { induction fuel as [|fuel IH]; intros chunks; cbn [chunkLoop].
    - destruct (0 <? length (trim text)) eqn:E; [reflexivity|].
      apply Nat.ltb_ge in E. destruct (trim text); [congruence | cbn in E; lia].
    - destruct (0 <? length (trim text)) eqn:E.
      + cbv zeta. unfold cutAt, sliceTo, sliceFrom, pastSixTenths.
        change (take 0 (trim text)) with (@nil N). cbn [lastIndexOf].
        change (if (3 * Z.of_nat 0 <? 5 * -1)%Z then Z.to_nat (-1) else 0) with 0.
        change (take 0 (trim text)) with (@nil N).
        change (drop 0 (trim text)) with (trim text).
        rewrite trim_idem. apply IH.
      + apply Nat.ltb_ge in E. destruct (trim text); [congruence | cbn in E; lia]. }
  split; [exact L|].
  unfold chunkText. apply truthy_true in Hne. rewrite Hne. cbn [negb].
  destruct (length (trim text) <=? 0) eqn:E.
  - apply Nat.leb_le in E. apply truthy_length in Hne. lia.
  - now rewrite L.
Qed.

Lemma chunkText_zero_budget_witness :
  (forall (fuel : nat) (chunks : list jsstring),
      chunkLoop fuel 0 chunks (trim (lit "a")) = None)
  /\ chunkText (lit "a") 0 = None.
Proof. apply (chunkText_zero_budget (lit "a")). discriminate. Defined.

(** [packIntoChunks] with a positive budget returns; every piece is
    non-empty, trimmed and within the budget; the pieces hold the units of
    the parts that are not whitespace in order; blank parts give no piece,
    and a single part that fits is passed on trimmed. *)
Theorem packIntoChunks_pieces (parts : list jsstring) (maxChars : nat) :
  0 < maxChars ->
  (exists out, packIntoChunks parts maxChars = Some out
     /\ Forall (goodPiece maxChars) out
     /\ stripWs (concat out) = stripWs (concat parts)
     /\ (Forall (fun p => trim p = []) parts -> out = []))
  /\ (forall p, trim p <> [] -> length (trim p) <= maxChars ->
        packIntoChunks [p] maxChars = Some [trim p]).
Proof.
  intros Hpos. split.
  - destruct (packIntoChunks_spec maxChars Hpos parts) as (out & HP & G & S).
    exists out. repeat split; try assumption.
    intros Hb.
    assert (E : stripWs (concat parts) = []).
    { clear HP S. induction Hb as [|p ps Hp _ IH]; [reflexivity|].
      rewrite concat_cons, stripWs_app, IH, app_nil_r. now apply stripWs_trim_nil. }
    rewrite E in S. destruct G as [|x out [Hx [Ht _]] _]; [reflexivity|].
    exfalso. rewrite concat_cons, stripWs_app in S.
    apply app_eq_nil in S as [S _]. apply Hx.
    rewrite <- Ht. destruct (trim x) as [|u r] eqn:Ex; [reflexivity|].
    pose proof (headOk_trim x) as Hh. rewrite Ex in Hh. cbn in Hh.
    rewrite <- stripWs_trim, Ex in S. cbn in S.
    destruct (isWhitespace u); [discriminate Hh | discriminate S].
  - intros p Hne Hlen. unfold packIntoChunks. cbn [packLoop]. unfold packStep.
    pose proof (proj2 (truthy_true _) Hne) as T. rewrite T. cbn [negb truthy].
    unfold packFlush. rewrite trim_idem, T, chunkText_trim.
    now rewrite (chunkText_short maxChars p Hne Hlen).
Qed.

Lemma packIntoChunks_pieces_witness :
  exists out, packIntoChunks [lit " Hola. "; lit "   "; lit "Adios."] 450 = Some out
    /\ Forall (goodPiece 450) out
    /\ stripWs (concat out) = stripWs (concat [lit " Hola. "; lit "   "; lit "Adios."])
    /\ (Forall (fun p => trim p = []) [lit " Hola. "; lit "   "; lit "Adios."] -> out = []).
Proof.
  exact (proj1 (packIntoChunks_pieces [lit " Hola. "; lit "   "; lit "Adios."] 450
                  ltac:(lia))).
Defined.

End BuffererExtras.

(** ** The listening supervisor *)

Module ServiceExtras.
Import JS JSFacts Timers Service Predicates Invariants TimerFacts ServiceFacts.
Local Open Scope N_scope.

Ltac handlers :=
  unfold startListening_call, startListening_resume, stopListening, onstart, onend,
    onresult, onerror, listeningTimeoutCallback, restartCallback,
    startRecognitionSafely, scheduleRestart, startListeningTimeout,
    clearListeningTimeout, clearRestartTimeout, nextListening, emit.

Ltac branches :=
  repeat match goal with
    | |- context [match ?x with _ => _ end] =>
        match type of x with
        | bool => destruct x eqn:?
        | option _ => destruct x eqn:?
        | permission => destruct x
        | kind => destruct x
        | (_ * _)%type => destruct x eqn:?
        end; cbn
    end.

Lemma starts_app (a b : list output) : starts (a ++ b) = (starts a + starts b)%nat.
Proof. unfold starts. now rewrite List.filter_app, length_app. Qed.

#[local] Arguments starts : simpl never.
#[local] Arguments lastListening : simpl never.

Ltac count := rewrite ?starts_app; unfold starts; cbn [List.filter isStart length]; lia.

(** The restart delay lies between the base and the cap of the device,
    does not shrink as the attempts grow, is the cap from the seventh
    attempt on, and is never shorter on a mobile device than on the
    desktop. *)
Theorem restartDelay_bounds (mobile : bool) (attempts attempts' : N)
  (lastError : option string) :
  (if mobile then 1500 else 300) <= restartDelay mobile attempts lastError
  /\ restartDelay mobile attempts lastError <= (if mobile then 5000 else 2000)
  /\ (attempts <= attempts' ->
      restartDelay mobile attempts lastError <= restartDelay mobile attempts' lastError)
  /\ (7 <= attempts ->
      restartDelay mobile attempts lastError = (if mobile then 5000 else 2000))
  /\ restartDelay false attempts lastError <= restartDelay true attempts lastError.
Proof.
  unfold restartDelay.
  destruct mobile; cbn [andb];
    destruct (match lastError with Some e => String.eqb e "no-speech" | None => false end);
    repeat split; intros; lia.
Qed.

Lemma step_recognizing (o : oracle) (ev : event) (st : service) :
  isRecognizing st = true -> ended ev = false ->
  isRecognizing (step o ev st) = true /\ starts (log (step o ev st)) = starts (log st).
Proof.
  intros R E. destruct ev; try discriminate E; cbn [step];
    repeat (progress handlers); cbn.
  all: branches; try congruence; (split; [assumption || reflexivity | count]).
Qed.

Lemma step_stopped (o : oracle) (ev : event) (st : service) :
  isManuallyStopped st = true -> granted ev = false ->
  isManuallyStopped (step o ev st) = true /\ starts (log (step o ev st)) = starts (log st).
Proof.
  intros R E. destruct ev as [|language []| | | | | | |]; try discriminate E; cbn [step];
    repeat (progress handlers); cbn.
  all: branches; try congruence; try (split; [assumption || reflexivity | count]).
  all: exfalso; match goal with H : _ || isManuallyStopped _ || _ = false |- _ =>
         rewrite R, orb_true_r in H; discriminate H end.
Qed.

(** While the engine is active (after its [onstart], before its [onend])
    no event makes the service call [start()]. *)
Theorem no_start_while_recognizing (evs : list (oracle * event)) :
  forall st : service,
    isRecognizing st = true ->
    forallb (fun oe => negb (ended (snd oe))) evs = true ->
    isRecognizing (run evs st) = true
    /\ starts (log (run evs st)) = starts (log st).
Proof.
  induction evs as [|[o ev] evs IH]; intros st R E; cbn [run]; [auto|].
  cbn in E. apply andb_prop in E as [E1 E2]. apply negb_true_iff in E1.
  destruct (step_recognizing o ev st R E1) as [R1 S1].
  destruct (IH _ R1 E2) as [R2 S2]. split; [exact R2 | congruence].
Qed.

Lemma no_start_while_recognizing_witness :
  isRecognizing (Examples.started false) = true
  /\ starts (log (run [(Examples.calm, EngineResult [(lit "hola", true)]);
                       (Examples.calm, EngineError "no-speech");
                       (Examples.calm, PermissionSettled "es-ES" Granted);
                       (Examples.calm, TimerExpired 1%positive)]
                      (Examples.started false)))
     = starts (log (Examples.started false)).
Proof.
  split; [reflexivity|].
  apply (no_start_while_recognizing
           [(Examples.calm, EngineResult [(lit "hola", true)]);
            (Examples.calm, EngineError "no-speech");
            (Examples.calm, PermissionSettled "es-ES" Granted);
            (Examples.calm, TimerExpired 1%positive)]
           (Examples.started false)); reflexivity.
Defined.

(** Once the service is stopped, by [stopListening] or by the inactivity
    timeout, it stays stopped and never calls [start()] until a call of
    [startListening] is granted the microphone. *)
Theorem stopped_stays_stopped (evs : list (oracle * event)) :
  forall st : service,
    isManuallyStopped st = true ->
    forallb (fun oe => negb (granted (snd oe))) evs = true ->
    isManuallyStopped (run evs st) = true
    /\ starts (log (run evs st)) = starts (log st).
Proof.
  induction evs as [|[o ev] evs IH]; intros st R E; cbn [run]; [auto|].
  cbn in E. apply andb_prop in E as [E1 E2]. apply negb_true_iff in E1.
  destruct (step_stopped o ev st R E1) as [R1 S1].
  destruct (IH _ R1 E2) as [R2 S2]. split; [exact R2 | congruence].
Qed.

Lemma stopped_stays_stopped_witness :
  isManuallyStopped (stopListening Examples.calm (Examples.started false)) = true
  /\ starts (log (run [(Examples.calm, EngineEnded);
                       (Examples.calm, StartListeningCalled);
                       (Examples.calm, PermissionSettled "es-ES" Refused);
                       (Examples.calm, EngineResult [(lit "hola", true)])]
                      (stopListening Examples.calm (Examples.started false))))
     = starts (log (stopListening Examples.calm (Examples.started false))).
Proof.
  split; [reflexivity|].
  apply (stopped_stays_stopped
           [(Examples.calm, EngineEnded);
            (Examples.calm, StartListeningCalled);
            (Examples.calm, PermissionSettled "es-ES" Refused);
            (Examples.calm, EngineResult [(lit "hola", true)])]
           (stopListening Examples.calm (Examples.started false))); reflexivity.
Defined.

Lemma step_sound (o : oracle) (ev : event) (st : service) :
  Forall soundOutput (log st) -> Forall soundOutput (log (step o ev st)).
Proof.
  intros H.
  assert (T : forall s, truthy (trim s) = true ->
                        soundOutput (Transcript (trim s) true)
                        /\ soundOutput (Transcript (trim s) false)).
  { intros s Hs. apply truthy_true in Hs. cbn. repeat split; auto using trim_idem. }
  destruct ev; cbn [step]; repeat (progress handlers); cbn.
  all: branches; rewrite ?Forall_app; repeat split; try assumption;
    try (apply Forall_singleton; cbn; try exact I).
  all: try (now apply T).
Qed.

(** Every transcript the service sends out, final or interim, is not
    empty and carries no outer whitespace. *)
Theorem transcripts_sound (evs : list (oracle * event)) (supported mobile : bool) :
  Forall soundOutput (log (run evs (init supported mobile))).
Proof.
  assert (G : forall st, Forall soundOutput (log st) -> Forall soundOutput (log (run evs st))).
  { induction evs as [|[o ev] evs IH]; intros st H; cbn [run]; [exact H|].
    apply IH, step_sound, H. }
  apply G. destruct supported; cbn; repeat constructor.
Qed.

Lemma lastListening_snoc (l : list output) (x : output) :
  lastListening (l ++ [x])
  = match x with Listening v => v | _ => lastListening l end.
Proof. unfold lastListening. now rewrite fold_left_app. Qed.

Lemma step_stream (o : oracle) (ev : event) (st : service) :
  streamSound st -> streamSound (step o ev st).
Proof.
  intros [H1 H2]. unfold streamSound.
  destruct ev; cbn [step]; repeat (progress handlers); cbn.
  all: branches; rewrite ?lastListening_snoc; (split; [auto | auto; intros; congruence]).
Qed.

(** In every state the service reaches, the current value of the listening
    stream is the last value sent on it, and it is [true] while the engine
    is active. *)
Theorem listening_stream_follows_engine (evs : list (oracle * event))
  (supported mobile : bool) :
  streamSound (run evs (init supported mobile)).
Proof.
  assert (G : forall st, streamSound st -> streamSound (run evs st)).
  { induction evs as [|[o ev] evs IH]; intros st H; cbn [run]; [exact H|].
    apply IH, step_stream, H. }
  apply G. split; [now destruct supported | discriminate].
Qed.

Lemma stopListening_twice (o o' : oracle) (st : service) (l : list output) :
  set_log l (stopListening o' (stopListening o st)) = set_log l (stopListening o st).
Proof.
  destruct st as [hr lg ms lt sb ir rt ra mo le lv tm lo].
  unfold stopListening, clearListeningTimeout, clearRestartTimeout. cbv zeta.
  destruct rt, lt; cbn; destruct (hr && lv) eqn:E; cbn; rewrite ?E;
    vm_compute; reflexivity.
Qed.

Lemma stopListening_fields (o : oracle) (st : service) :
  listeningTimeout (stopListening o st) = None
  /\ restartTimeout (stopListening o st) = None
  /\ shouldBeListening (stopListening o st) = false
  /\ isManuallyStopped (stopListening o st) = true
  /\ starts (log (stopListening o st)) = starts (log st).
Proof.
  destruct st as [hr lg ms lt sb ir rt ra mo le lv tm lo].
  unfold stopListening, clearListeningTimeout, clearRestartTimeout. cbv zeta.
  destruct rt, lt; cbn; destruct (hr && lv) eqn:E;
    cbv [stopListening emit set_log set_listeningTimeout set_timers set_restartTimeout
         set_shouldBeListening set_isManuallyStopped hasRecognition lang isManuallyStopped
         listeningTimeout shouldBeListening isRecognizing restartTimeout restartAttempts
         isMobileDevice lastNonCriticalError isListeningValue timers log];
    (split; [reflexivity | split; [reflexivity | split; [reflexivity |
       split; [reflexivity | count]]]]).
Qed.

(** [stopListening] in any state the service reaches: afterwards no timer
    of the service is outstanding, the intent to listen is off, the service
    counts as stopped, and [start()] was not called; a second call changes
    nothing but the record of calls to [stop()]. *)
Theorem stopListening_settles (evs : list (oracle * event)) (supported mobile : bool)
  (o o' : oracle) :
  let st := run evs (init supported mobile) in
  pending (timers (stopListening o st)) = []
  /\ shouldBeListening (stopListening o st) = false
  /\ isManuallyStopped (stopListening o st) = true
  /\ starts (log (stopListening o st)) = starts (log st)
  /\ forall l, set_log l (stopListening o' (stopListening o st))
               = set_log l (stopListening o st).
Proof.
  cbv zeta. set (st := run evs (init supported mobile)).
  assert (T : serviceTracked st) by apply run_tracked, init_tracked.
  destruct (stopListening_tracked o st T) as ([(_ & _ & O) _] & _ & _).
  destruct (stopListening_fields o st) as (F1 & F2 & F3 & F4 & F5).
  split; [|split; [exact F3 | split; [exact F4 | split; [exact F5|]]]].
  - destruct (pending (timers (stopListening o st))) as [|e l]; [reflexivity|].
    apply Forall_cons in O as [O _]. unfold serviceOwner in O.
    rewrite F1, F2 in O. now destruct (e_kind e).
  - intros l. apply stopListening_twice.
Qed.

Lemma scheduleRestart_same (st : service) :
  now (timers (scheduleRestart st)) = now (timers st)
  /\ isRecognizing (scheduleRestart st) = isRecognizing st
  /\ hasRecognition (scheduleRestart st) = hasRecognition st.
Proof.
  unfold scheduleRestart, clearRestartTimeout.
  destruct (restartTimeout st); cbn; auto.
Qed.

(** The restart that [onend] schedules does restart the engine.  When the
    engine ends while the service should listen and was not stopped, and
    the restart delay has passed, the expiry of the restart timer calls
    [start()] once and forgets the last error.  If that call throws, a
    further restart is scheduled with one more attempt counted; if not, no
    restart timer is left. *)
Theorem restart_fires (o1 o2 : oracle) (st : service) (dt : N) :
  serviceTracked st -> hasRecognition st = true ->
  shouldBeListening st = true -> isManuallyStopped st = false ->
  restartDelay (isMobileDevice st) (restartAttempts st) (lastNonCriticalError st) <= dt ->
  let h := nextHandle (timers st) in
  let st1 := run [(o1, EngineEnded); (o1, Elapsed dt)] st in
  let st2 := step o2 (TimerExpired h) st1 in
  log st1 = log st
  /\ log st2 = log st ++ [EngineStart (startThrows o2)]
  /\ lastNonCriticalError st2 = None
  /\ restartAttempts st2 = restartAttempts st + (if startThrows o2 then 2 else 1)
  /\ length (outstanding Restart (pending (timers st2)))
     = if startThrows o2 then 1%nat else 0%nat.
Proof.
  intros T HR HS HM Hdt. cbv zeta. cbn [run step]. rewrite HR.
  assert (E : onend st = scheduleRestart (set_isRecognizing false st)).
  { unfold onend. cbv zeta.
    change (isManuallyStopped (set_isRecognizing false st)) with (isManuallyStopped st).
    change (shouldBeListening (set_isRecognizing false st)) with (shouldBeListening st).
    now rewrite HS, HM. }
  rewrite E. set (s0 := set_isRecognizing false st).
  assert (T0 : serviceTracked s0) by exact T.
  destruct (scheduleRestart_tracked s0 T0) as [T1 O1].
  destruct (scheduleRestart_spec s0) as (A & _ & _ & L & S & M & _).
  destruct (scheduleRestart_same s0) as (N1 & R1 & H1).
  set (s1 := scheduleRestart s0) in *.
  set (s2 := set_timers (elapse dt (timers s1)) s1).
  assert (T2 : serviceTracked s2) by exact T1.
  set (e := timerEntry (nextHandle (timers s0)) Restart (now (timers s0))
              (restartDelay (isMobileDevice s0) (restartAttempts s0)
                 (lastNonCriticalError s0))) in *.
  assert (X : expire (nextHandle (timers st)) (timers s2)
              = Some (Restart, clearTimeout (nextHandle (timers st)) (timers s2))).
  { pose proof (SupervisorClaims.sole_timer_expires (serviceOwner s2) (timers s2) e T2 O1)
      as X.
    cbn [e timerEntry e_handle e_due e_kind] in X.
    replace (now (timers s0) + _ <=? now (timers s2)) with true in X; [exact X|].
    symmetry. apply N.leb_le.
    change (now (timers s2)) with (now (timers s1) + dt). rewrite N1.
    change (isMobileDevice s0) with (isMobileDevice st).
    change (restartAttempts s0) with (restartAttempts st).
    change (lastNonCriticalError s0) with (lastNonCriticalError st). lia. }
  rewrite X.
  destruct (tracked_expire _ _ _ _ _ T2 X) as (T3 & O3 & _).
  set (s3 := set_timers (clearTimeout (nextHandle (timers st)) (timers s2)) s2) in *.
  change (timers s2) with (elapse dt (timers s1)) in O3.
  split; [exact L|].
  unfold restartCallback.
  change (shouldBeListening s3) with (shouldBeListening s1).
  change (isManuallyStopped s3) with (isManuallyStopped s1).
  change (hasRecognition s3) with (hasRecognition s1).
  rewrite S, M, H1.
  change (shouldBeListening s0) with (shouldBeListening st).
  change (isManuallyStopped s0) with (isManuallyStopped st).
  change (hasRecognition s0) with (hasRecognition st).
  rewrite HS, HM, HR. cbn [negb orb].
  unfold startRecognitionSafely.
  change (hasRecognition (set_lastNonCriticalError None s3)) with (hasRecognition s1).
  change (isRecognizing (set_lastNonCriticalError None s3)) with (isRecognizing s1).
  rewrite H1, R1.
  change (hasRecognition s0) with (hasRecognition st). rewrite HR.
  cbn [negb isRecognizing s0 set_isRecognizing].
  destruct (startThrows o2).
  - set (s4 := emit (EngineStart true) (set_lastNonCriticalError None s3)).
    assert (T4 : serviceTracked s4) by exact T3.
    destruct (scheduleRestart_tracked s4 T4) as [_ O5].
    destruct (scheduleRestart_spec s4) as (A5 & _ & _ & L5 & _).
    rewrite O5, A5, L5.
    change (restartAttempts s4) with (restartAttempts s1). rewrite A.
    change (restartAttempts s0) with (restartAttempts st).
    change (log s4) with (log s1 ++ [EngineStart true]). rewrite L.
    repeat split; lia.
  - change (log (emit (EngineStart false) (set_lastNonCriticalError None s3)))
      with (log s1 ++ [EngineStart false]).
    change (restartAttempts (emit (EngineStart false) (set_lastNonCriticalError None s3)))
      with (restartAttempts s1).
    change (timers (emit (EngineStart false) (set_lastNonCriticalError None s3)))
      with (clearTimeout (nextHandle (timers st)) (elapse dt (timers s1))).
    rewrite L, A, O3. repeat split.
Qed.

Lemma restart_fires_witness :
  let st := Examples.started true in
  let st1 := run [(Examples.calm, EngineEnded); (Examples.calm, Elapsed 1500)] st in
  let st2 := step Examples.calm (TimerExpired (nextHandle (timers st))) st1 in
  log st1 = log st
  /\ log st2 = log st ++ [EngineStart false]
  /\ lastNonCriticalError st2 = None
  /\ restartAttempts st2 = restartAttempts st + 1
  /\ length (outstanding Restart (pending (timers st2))) = 0%nat.
Proof.
  apply (restart_fires Examples.calm Examples.calm (Examples.started true) 1500).
  - apply run_tracked, init_tracked.
  - reflexivity.
  - reflexivity.
  - reflexivity.
  - vm_compute. discriminate.
Defined.

End ServiceExtras.

(** ** The segment coordinator and the buffer *)

Module ComponentExtras.
Import JS JSFacts Bufferer Timers Component Predicates Invariants ChunkFacts PackFacts ComponentFacts.

Ltac plain :=
  unfold ids, originals, onTextChange, clearText, handleError, scheduleAutoScrollToLatest,
    clearScrollScheduleTimer, resetSpeechPauseTimer, clearSpeechPauseTimer;
  cbv zeta;
  repeat match goal with
    | |- context [match ?x with _ => _ end] =>
        match type of x with
        | bool => destruct x
        | option _ => destruct x
        end
    end;
  cbn; try reflexivity.

(** The handlers beside the pipeline, case by case. *)
Ltac beside :=
  unfold onLanguageChange, autoStartListening, queueText, debounceElapsed,
    translateInterim, translateTextOnce, manualNext, manualError, speakTranslation,
    emit, autoStartCallback, speakingCallback, onTextToSpeechChange, stopSpeaking,
    toggleListening, ngOnInit, settle;
  cbv zeta;
  repeat match goal with
    | |- context [match ?x with _ => _ end] =>
        match type of x with
        | bool => destruct x eqn:?
        | option _ => destruct x eqn:?
        | prod _ _ => destruct x eqn:?
        end
    end.

(** *** The count of errors only grows *)
Lemma step_uncaught (ev : event) (st : component) :
  exists st', step ev st = Some st' /\ uncaught st <= uncaught st'.
Proof.
  assert (Same : forall st', uncaught st' = uncaught st ->
                 exists st'', Some st' = Some st'' /\ uncaught st <= uncaught st'').
  { intros st' E. exists st'. split; [reflexivity | lia]. }
  assert (Flush : forall force st0, uncaught st0 = uncaught st ->
                  exists st'', flushSpeechBuffer force st0 = Some st''
                               /\ uncaught st <= uncaught st'').
  { intros force st0 E.
    destruct (flushSpeechBuffer_spec force st0) as (st' & F & _ & [(U & _) | (U & _)]);
      exists st'; (split; [exact F | lia]). }
  destruct ev as [text isFinal | listening | kind | id r | id | h | | text | code | | dt
                 | | k r | k status errorMsg | i | i | enabled |
                 | savedLanguage enableTTS supported | t | throws];
    cbn [step].
  - unfold onTranscript.
    set (st0 := if manualMode st then _ else st).
    assert (U0 : uncaught st0 = uncaught st).
    { unfold st0. plain. }
    assert (U1 : uncaught (resetSpeechPauseTimer st0) = uncaught st).
    { rewrite <- U0. plain. }
    destruct isFinal.
    + destruct (truthy (trim text)); cbn [negb]; [now apply Flush | now apply Same].
    + apply Same. now rewrite rebuildDisplayStrings_uncaught.
  - unfold onListening. destruct (negb listening && isListening st).
    + apply Flush. plain.
    + now apply Same.
  - apply Same. plain.
  - apply Same. apply translateNext_uncaught.
  - apply Same. apply translateError_uncaught.
  - destruct (expire h (timers st)) as [[[] t]|]; try (now apply Same).
    now apply Flush.
  - apply Same. plain.
  - apply Same. plain.
  - apply Same. beside; reflexivity.
  - apply Same. plain.
  - now apply Same.
  - (* the debounced text: the one event beside the pipeline that calls
       [translate] *)
    eexists. split; [reflexivity|]. unfold debounceElapsed.
    destruct (debounced st) as [[value due]|]; [|lia].
    destruct (due <=? now (timers st))%N; [|lia].
    cbv zeta. cbn [lastDistinct set_debounced].
    assert (I : forall x, uncaught x = uncaught st ->
              uncaught st <= uncaught (translateInterim value x)).
    { intros x E. unfold translateInterim, translateTextOnce.
      destruct (negb (truthy (trim value))).
      - rewrite rebuildDisplayStrings_uncaught. cbn. lia.
      - destruct (manualMode x); [|lia].
        destruct (String.eqb (selectedLanguage x) ""); [cbn; lia|].
        cbv zeta. destruct (translateThrows _ _); cbn; lia. }
    destruct (lastDistinct st) as [previous|];
      [destruct (sameString previous value); [cbn; lia|]|];
      now apply I.
  - destruct (manualRequests st !! k); apply Same; [|reflexivity].
    beside; reflexivity.
  - destruct (manualRequests st !! k); now apply Same.
  - destruct (dueAt i (autoStarts st) (timers st)); apply Same; [|reflexivity].
    beside; reflexivity.
  - destruct (dueAt i (speakingTimers st) (timers st)); apply Same; [|reflexivity].
    beside; reflexivity.
  - apply Same. beside; reflexivity.
  - apply Same. beside; reflexivity.
  - apply Same. beside; reflexivity.
  - now apply Same.
  - now apply Same.
Qed.

(** *** The buffer *)
Lemma flushRest_settled (force : bool) (buffer : jsstring) :
  trim buffer = buffer ->
  trim (flushRest force buffer) = flushRest force buffer
  /\ noTerminator (flushRest force buffer).
Proof.
  intros Hb. unfold flushRest.
  destruct (truthy (trim buffer)) eqn:E.
  - destruct force; [split; [reflexivity | constructor]|].
    unfold toTranslate.
    destruct (ExtractFacts.extract_partition (trim buffer)) as (_ & N & _).
    destruct (extractCompletedSentences (trim buffer)) as [completed remainder0].
    cbn [fst snd] in *. split; [apply trim_idem | now apply ExtractFacts.noTerminator_trim].
  - apply truthy_false in E. rewrite E in Hb. subst buffer. split; [reflexivity | constructor].
Qed.

Lemma joinWithSpace_trim (a b : jsstring) : trim (joinWithSpace a b) = joinWithSpace a b.
Proof.
  unfold joinWithSpace.
  destruct (truthy (trim a)) eqn:Ea; destruct (truthy (trim b)) eqn:Eb; cbn [negb];
    try apply trim_idem.
  apply truthy_true in Ea, Eb. now apply trim_joined.
Qed.

Lemma flush_settled (force : bool) (st : component) :
  trim (speechBuffer st) = speechBuffer st ->
  exists st', flushSpeechBuffer force st = Some st' /\ bufferSettled st'.
Proof.
  intros Hb.
  destruct (flushSpeechBuffer_spec force st)
    as (st' & F & _ & [(_ & _ & _ & _ & _ & _ & B) | (U & _ & B)]);
    exists st'; (split; [exact F|]); unfold bufferSettled; rewrite B.
  - destruct (flushRest_settled force (speechBuffer st) Hb). auto.
  - split; [exact Hb|]. lia.
Qed.

Lemma step_settled (ev : event) (st : component) :
  bufferSettled st -> exists st', step ev st = Some st' /\ bufferSettled st'.
Proof.
  intros [H1 H2].
  assert (Same : forall st', step ev st = Some st' -> speechBuffer st' = speechBuffer st ->
                 exists st'', step ev st = Some st'' /\ bufferSettled st'').
  { intros st' S E. exists st'. split; [exact S|]. unfold bufferSettled. rewrite E.
    split; [exact H1|]. intros U. apply H2.
    destruct (step_uncaught ev st) as (st1 & S1 & L). rewrite S in S1.
    injection S1 as <-. lia. }
  destruct (aside ev) eqn:A.
  { destruct (step_aside ev st A) as (st' & E & P).
    apply pipeline_inv in P as (_ & _ & B & _).
    now apply (Same st'). }
  destruct ev as [text isFinal | listening | kind | id r | id | h | | text | code | | dt
                 | | k r | k status errorMsg | i | i | enabled |
                 | savedLanguage enableTTS supported | t | throws];
    try discriminate A.
  - cbn [step] in *. unfold onTranscript in *.
    set (st0 := if manualMode st then _ else st) in *.
    assert (B0 : speechBuffer st0 = speechBuffer st \/ speechBuffer st0 = []).
    { unfold st0. destruct (manualMode st); [right|now left]. plain. }
    assert (B1 : speechBuffer (resetSpeechPauseTimer st0) = speechBuffer st0) by plain.
    destruct isFinal.
    + destruct (truthy (trim text)); cbn [negb] in *.
      * apply flush_settled. cbn. apply joinWithSpace_trim.
      * destruct B0 as [B0|B0].
        -- apply (Same (resetSpeechPauseTimer st0)); [reflexivity | congruence].
        -- exists (resetSpeechPauseTimer st0). split; [reflexivity|].
           unfold bufferSettled. rewrite B1, B0. split; [reflexivity | constructor].
    + match goal with |- context [rebuildDisplayStrings ?x] =>
        destruct (rebuildDisplayStrings_keeps x) as (_ & _ & _ & R4) end.
      apply controls_inv in R4 as (_ & R5 & _).
      destruct B0 as [B0|B0].
      * eapply Same; [reflexivity|]. rewrite R5.
        cbn [speechBuffer set_interimTranslated set_interimOriginal]. congruence.
      * eexists. split; [reflexivity|]. unfold bufferSettled. rewrite R5.
        cbn [speechBuffer set_interimTranslated set_interimOriginal].
        rewrite B1, B0. split; [reflexivity | constructor].
  - cbn [step] in *. unfold onListening in *.
    destruct (negb listening && isListening st).
    + apply flush_settled.
      assert (B : speechBuffer (clearSpeechPauseTimer (set_isListening listening st))
                  = speechBuffer st) by plain.
      now rewrite B.
    + now apply (Same (set_isListening listening st)).
  - apply (Same (handleError kind st)); [reflexivity|]. plain.
  - apply (Same (translateNext id r st)); [reflexivity|].
    destruct (translateNext_keeps id r st) as (_ & _ & _ & _ & C).
    now apply controls_inv in C as (_ & B & _).
  - apply (Same (translateError id st)); [reflexivity|].
    destruct (translateError_keeps id st) as (_ & _ & _ & _ & C).
    now apply controls_inv in C as (_ & B & _).
  - cbn [step] in *.
    destruct (expire h (timers st)) as [[[] t]|];
      try (eapply Same; reflexivity).
    apply flush_settled. exact H1.
  - apply (Same (scheduleAutoScrollToLatest st)); [reflexivity|]. plain.
  - apply (Same (onTextChange text st)); [reflexivity|]. plain.
  - exists (clearText st). split; [reflexivity|].
    assert (B : speechBuffer (clearText st) = []) by plain.
    unfold bufferSettled. rewrite B. split; [reflexivity | constructor].
  - now apply (Same (set_timers (elapse dt (timers st)) st)).
Qed.

(** In every state the component reaches, whatever the events, the speech
    buffer carries no outer whitespace; and as long as no call of
    [translate] has thrown it holds no sentence terminator: each completed
    sentence has left it. *)
Theorem buffer_always_settled (evs : list event) :
  exists st, run evs init = Some st /\ bufferSettled st.
Proof.
  apply (run_invariant bufferSettled step_settled).
  split; [reflexivity | constructor].
Qed.

(** *** The requests *)
Lemma appendSegment_requests (text : jsstring) (st : component) :
  requests (appendSegment text st)
  = requests st ++ (if String.eqb (selectedLanguage st) "" then []
                    else if translateThrows (truncateForQuery text MAX_CHARS) st then []
                    else [{| req_segment := nextSegmentId st;
                             req_text := truncateForQuery text MAX_CHARS;
                             req_source := selectedLanguage st |}])
  /\ pendingTranslations (appendSegment text st)
     = (pendingTranslations st
        + (if String.eqb (selectedLanguage st) "" then 0 else 1))%Z
  /\ isTranslating (appendSegment text st)
     = (if String.eqb (selectedLanguage st) "" then isTranslating st else true)
  /\ translateCalls (appendSegment text st)
     = translateCalls st + (if String.eqb (selectedLanguage st) "" then 0 else 1)
  /\ uncaught (appendSegment text st)
     = uncaught st
       + (if String.eqb (selectedLanguage st) "" then 0
          else if translateThrows (truncateForQuery text MAX_CHARS) st then 1 else 0)
  /\ manualRequests (appendSegment text st) = manualRequests st.
Proof.
  unfold appendSegment. cbv zeta.
  destruct (String.eqb (selectedLanguage st) "") eqn:E.
  - unfold rebuildDisplayStrings, updateSegment.
    destruct (list_find _ _) as [[idx s]|]; cbn; destruct (manualMode st); cbn;
      rewrite ?app_nil_r, ?Z.add_0_r, ?Nat.add_0_r; auto 7.
  - change (translateThrows (truncateForQuery text MAX_CHARS)
              (set_isTranslating true _))
      with (translateThrows (truncateForQuery text MAX_CHARS) st).
    destruct (translateThrows (truncateForQuery text MAX_CHARS) st); cbn;
      rewrite ?app_nil_r, ?Nat.add_0_r, ?Nat.add_1_r; auto 7.
Qed.

Lemma sound_frame (st st' : component) :
  ids st' = ids st -> originals st' = originals st ->
  nextSegmentId st' = nextSegmentId st -> requests st' = requests st ->
  requestsSound st -> requestsSound st'.
Proof. unfold requestsSound. intros -> -> -> ->. auto. Qed.

Lemma sound_cleared (st st' : component) :
  ids st' = [] ->
  nextSegmentId st' = nextSegmentId st -> requests st' = requests st ->
  requestsSound st -> requestsSound st'.
Proof.
  unfold requestsSound. intros -> -> ->. intros (A & B & _).
  repeat split; try assumption. intros r i _ H. discriminate H.
Qed.

Lemma appendSegment_sound (piece : jsstring) (st : component) :
  goodPiece MAX_CHARS piece ->
  idsOrdered st /\ requestsSound st ->
  idsOrdered (appendSegment piece st) /\ requestsSound (appendSegment piece st).
Proof.
  intros G [O (A & B & C)].
  destruct (appendSegment_adds piece st) as (I & Or & N & _ & _).
  destruct (appendSegment_requests piece st) as (R & _).
  split.
  { apply (SegmentClaims.flushed_extends st _ 1); [exact I | lia | exact O]. }
  assert (Fit : truncateForQuery piece MAX_CHARS = piece).
  { now apply truncateForQuery_fit. }
  destruct O as [_ O].
  unfold requestsSound. rewrite I, Or, N, R, Fit.
  assert (Old : Forall (fun r => req_segment r < nextSegmentId st) (requests st)).
  { eapply Forall_impl; [exact A|]. now intros r (_ & _ & ?). }
  assert (Quiet : Forall (fun r => goodPiece MAX_CHARS (req_text r)
                                   /\ req_source r <> ""%string
                                   /\ req_segment r < S (nextSegmentId st))
                         (requests st)
                  /\ NoDup (map req_segment (requests st))
                  /\ (forall r i, In r (requests st) ->
                        (ids st ++ [nextSegmentId st]) !! i = Some (req_segment r) ->
                        (originals st ++ [piece]) !! i = Some (req_text r))).
  { split; [|split; [exact B|]].
    + eapply Forall_impl; [exact A|]. intros r (? & ? & ?).
      split; [assumption | split; [assumption | lia]].
    + intros r i Hr Hi.
      rewrite Forall_forall in Old. pose proof (Old r (proj2 (list_elem_of_In _ _) Hr)) as Hlt.
      destruct (lookup_app_Some (ids st) [nextSegmentId st] i (req_segment r)) as [L _].
      destruct (L Hi) as [Hi'|[Hlen Hi']].
      * apply lookup_app_l_Some. now apply (C r i).
      * destruct (i - length (ids st)) as [|k]; cbn in Hi'; [|discriminate].
        injection Hi' as Hi'. lia. }
  destruct (String.eqb (selectedLanguage st) "") eqn:E;
    [rewrite app_nil_r; exact Quiet|].
  destruct (translateThrows piece st); [rewrite app_nil_r; exact Quiet|].
  destruct Quiet as (Q1 & Q2 & Q3).
  apply String.eqb_neq in E. split; [|split].
  - apply Forall_app. split; [exact Q1|].
    apply Forall_singleton. cbn. split; [exact G | split; [exact E | lia]].
  - rewrite map_app. cbn. apply NoDup_app. split; [exact B|]. split.
    + intros x Hx Hx'. apply list_elem_of_In in Hx'. destruct Hx' as [<-|[]].
      apply list_elem_of_In, in_map_iff in Hx as (r & Hr1 & Hr2).
      rewrite Forall_forall in Old.
      pose proof (Old r (proj2 (list_elem_of_In _ _) Hr2)). lia.
    + apply NoDup_singleton.
  - intros r i Hr Hi. apply in_app_or in Hr as [Hr|[<-|[]]]; [now apply Q3|].
    cbn [req_segment req_text] in *.
    destruct (lookup_app_Some (ids st) [nextSegmentId st] i (nextSegmentId st)) as [L _].
    destruct (L Hi) as [Hi'|[Hlen Hi']].
    + rewrite Forall_forall in O.
      pose proof (O _ (list_elem_of_lookup_2 _ _ _ Hi')). lia.
    + assert (i = length (originals st)).
      { unfold originals, ids in *. rewrite length_map in *.
        destruct (i - length (segments st)) as [|k] eqn:K; cbn in Hi'; [lia|discriminate]. }
      subst i. now rewrite list_lookup_middle.
Qed.

Lemma wellSent_frame (st st' : component) :
  ids st' = ids st -> originals st' = originals st ->
  nextSegmentId st' = nextSegmentId st -> requests st' = requests st ->
  wellSent st -> wellSent st'.
Proof.
  intros I O N R [H1 H2]. split.
  - now apply (SegmentClaims.same_ids_extends st st').
  - now apply (sound_frame st st').
Qed.

Lemma wellSent_cleared (st st' : component) :
  ids st' = [] ->
  nextSegmentId st' = nextSegmentId st -> requests st' = requests st ->
  wellSent st -> wellSent st'.
Proof.
  intros I N R [H1 H2]. split.
  - now apply (SegmentClaims.cleared_extends st st').
  - now apply (sound_cleared st st').
Qed.

Lemma rebuild_wellSent (st : component) : wellSent st -> wellSent (rebuildDisplayStrings st).
Proof.
  destruct (rebuildDisplayStrings_keeps st) as (R1 & R2 & R3 & _).
  apply wellSent_frame; unfold ids, originals; congruence.
Qed.

Lemma flush_wellSent (force : bool) (st : component) :
  wellSent st -> exists st', flushSpeechBuffer force st = Some st' /\ wellSent st'.
Proof.
  intros H.
  pose proof (appendPieces_invariant wellSent (flushPieces force (speechBuffer st))
                appendSegment_sound (flushPieces_good force (speechBuffer st)) st H) as M.
  destruct (flushSpeechBuffer_shape force st) as [(_ & F) | [(_ & _ & F) | (_ & _ & F)]];
    cbv zeta in F; rewrite F; eexists; (split; [reflexivity|]).
  - apply rebuild_wellSent. revert H. now apply wellSent_frame.
  - apply rebuild_wellSent. revert M. now apply wellSent_frame.
  - exact M.
Qed.

Lemma step_wellSent (ev : event) (st : component) :
  wellSent st -> exists st', step ev st = Some st' /\ wellSent st'.
Proof.
  intros H.
  assert (Same : forall st', ids st' = ids st -> originals st' = originals st ->
                 nextSegmentId st' = nextSegmentId st -> requests st' = requests st ->
                 exists st'', Some st' = Some st'' /\ wellSent st'').
  { intros st' E1 E2 E3 E4. exists st'. split; [reflexivity|].
    now apply (wellSent_frame st st'). }
  destruct (aside ev) eqn:A.
  { destruct (step_aside ev st A) as (st' & -> & P).
    apply pipeline_inv in P as (P1 & P2 & _ & _ & _ & _ & _ & _ & _ & P3).
    apply Same; unfold ids, originals; congruence. }
  destruct ev as [text isFinal | listening | kind | id r | id | h | | text | code | | dt
                 | | k r | k status errorMsg | i | i | enabled |
                 | savedLanguage enableTTS supported | t | throws];
    try discriminate A; cbn [step].
  - unfold onTranscript.
    set (st0 := if manualMode st then _ else st).
    assert (H0 : wellSent st0).
    { unfold st0. destruct (manualMode st); [|exact H].
      revert H. apply wellSent_cleared; plain. }
    assert (H1 : wellSent (resetSpeechPauseTimer st0)).
    { revert H0. apply wellSent_frame; plain. }
    destruct isFinal.
    + destruct (truthy (trim text)); cbn [negb].
      * apply flush_wellSent. revert H1. now apply wellSent_frame.
      * now exists (resetSpeechPauseTimer st0).
    + eexists. split; [reflexivity|]. apply rebuild_wellSent.
      revert H1. now apply wellSent_frame.
  - unfold onListening. destruct (negb listening && isListening st).
    + apply flush_wellSent. revert H. apply wellSent_frame; plain.
    + now apply Same.
  - apply Same; plain.
  - destruct (translateNext_keeps id r st) as (K1 & K2 & K3 & K4 & _). now apply Same.
  - destruct (translateError_keeps id st) as (K1 & K2 & K3 & K4 & _). now apply Same.
  - destruct (expire h (timers st)) as [[[] t]|]; try (now apply Same).
    apply flush_wellSent. revert H. now apply wellSent_frame.
  - apply Same; plain.
  - exists (onTextChange text st). split; [reflexivity|].
    revert H. apply wellSent_cleared; plain.
  - exists (clearText st). split; [reflexivity|].
    revert H. apply wellSent_cleared; plain.
  - now apply Same.
Qed.

(** In every state the component reaches, each request sent for a segment
    carries a text that is not empty, is trimmed and has at most 450 units,
    and a source language that is not empty; no two requests are for the
    same segment; and a segment still in the list has as its original the
    text that was sent for it. *)
Theorem requests_always_sound (evs : list event) :
  exists st, run evs init = Some st /\ requestsSound st.
Proof.
  destruct (run_invariant wellSent step_wellSent evs init) as (st & R & _ & S).
  - split; [apply SegmentClaims.init_idsOrdered|].
    repeat split; [constructor | constructor | intros r i []].
  - now exists st.
Qed.

(** *** The counter of requests in flight *)
Lemma counter_frame (k : nat) (st st' : component) :
  counters st' = counters st -> counterSound k st -> counterSound k st'.
Proof. unfold counters, counterSound. intros [= -> -> -> -> -> ->]. auto. Qed.

Lemma counter_later (k : nat) (st : component) :
  counterSound k st -> counterSound (S k) st.
Proof. intros (A & B & C & D & E). repeat split; try assumption; lia. Qed.

Lemma updateSegment_counters (id : nat) (p : patch) (st : component) :
  counters (updateSegment id p st) = counters st.
Proof. unfold updateSegment. now destruct (list_find _ _) as [[idx s]|]. Qed.

Lemma rebuild_counters (st : component) : counters (rebuildDisplayStrings st) = counters st.
Proof. unfold rebuildDisplayStrings. now destruct (manualMode st). Qed.

Lemma appendSegment_counter (k : nat) (piece : jsstring) (st : component) :
  counterSound k st -> counterSound k (appendSegment piece st).
Proof.
  intros (A & B & C & D & E).
  destruct (appendSegment_requests piece st) as (R & P & T & N & U & M).
  unfold counterSound. rewrite R, P, T, N, U, M, length_app.
  destruct (String.eqb (selectedLanguage st) ""); cbn [length].
  - rewrite Z.add_0_r, !Nat.add_0_r. auto.
  - split; [lia|]. split; [symmetry; apply Z.ltb_lt; lia|].
    destruct (translateThrows _ _); cbn [length]; repeat split; lia.
Qed.

Lemma translateTextOnce_counter (k : nat) (text : jsstring) (source : string)
  (st : component) :
  counterSound k st -> counterSound k (translateTextOnce text source st).
Proof.
  intros (A & B & C & D & E). unfold translateTextOnce. cbv zeta.
  change (translateThrows text (set_isTranslating true _))
    with (translateThrows text st).
  destruct (translateThrows text st); unfold counterSound; cbn; rewrite ?length_app;
    cbn [length]; (split; [lia|]); (split; [symmetry; apply Z.ltb_lt; lia|]);
    repeat split; lia.
Qed.

Lemma settle_counter (k : nat) (st : component) :
  counterSound k st -> counterSound (S k) (settle st).
Proof.
  intros (A & B & C & D & E). unfold counterSound, settle. cbn.
  split; [lia | split; [reflexivity | split; [exact C | split; lia]]].
Qed.

Lemma flush_counter (k : nat) (force : bool) (st : component) :
  counterSound k st -> exists st', flushSpeechBuffer force st = Some st' /\ counterSound k st'.
Proof.
  intros H.
  pose proof (appendPieces_invariant (counterSound k) (flushPieces force (speechBuffer st))
                (fun p s _ => appendSegment_counter k p s)
                (flushPieces_good force (speechBuffer st)) st H) as M.
  destruct (flushSpeechBuffer_shape force st) as [(_ & F) | [(_ & _ & F) | (_ & _ & F)]];
    cbv zeta in F; rewrite F; eexists; (split; [reflexivity|]).
  - eapply counter_frame; [apply rebuild_counters | exact H].
  - eapply counter_frame; [apply rebuild_counters | exact M].
  - exact M.
Qed.

Lemma step_counter (k : nat) (ev : event) (st : component) :
  counterSound k st ->
  exists st', step ev st = Some st' /\ counterSound (k + replies [ev]) st'.
Proof.
  intros H.
  assert (Same : forall st', counters st' = counters st ->
                 exists st'', Some st' = Some st'' /\ counterSound (k + 0) st'').
  { intros st' E. exists st'. split; [reflexivity|]. rewrite Nat.add_0_r.
    now apply (counter_frame k st st'). }
  destruct ev as [text isFinal | listening | kind | id r | id | h | | text | code | | dt
                 | | j r | j status errorMsg | i | i | enabled |
                 | savedLanguage enableTTS supported | t | throws];
    cbn [step replies].
  - rewrite Nat.add_0_r. unfold onTranscript.
    set (st0 := if manualMode st then _ else st).
    assert (H0 : counterSound k st0).
    { unfold st0. destruct (manualMode st); [|exact H].
      revert H. apply counter_frame. unfold counters. plain. }
    assert (H1 : counterSound k (resetSpeechPauseTimer st0)).
    { revert H0. apply counter_frame. unfold counters. plain. }
    destruct isFinal.
    + destruct (truthy (trim text)); cbn [negb].
      * apply flush_counter. revert H1. now apply counter_frame.
      * now exists (resetSpeechPauseTimer st0).
    + eexists. split; [reflexivity|].
      eapply counter_frame; [apply rebuild_counters|].
      revert H1. now apply counter_frame.
  - rewrite Nat.add_0_r. unfold onListening. destruct (negb listening && isListening st).
    + apply flush_counter. revert H. apply counter_frame. unfold counters. plain.
    + exists (set_isListening listening st). split; [reflexivity | exact H].
  - apply Same. unfold counters. plain.
  - rewrite Nat.add_1_r. eexists. split; [reflexivity|]. unfold translateNext.
    eapply counter_frame; [apply rebuild_counters|]. apply settle_counter.
    revert H. apply counter_frame.
    destruct (errorTruthy (error_of r)); [|apply updateSegment_counters].
    apply (updateSegment_counters id (resolved []) st).
  - rewrite Nat.add_1_r. eexists. split; [reflexivity|]. unfold translateError.
    eapply counter_frame; [apply rebuild_counters|]. apply settle_counter.
    revert H. apply counter_frame. apply updateSegment_counters.
  - rewrite Nat.add_0_r. destruct (expire h (timers st)) as [[[] t]|];
      try (eexists; split; [reflexivity | exact H]).
    apply flush_counter. exact H.
  - apply Same. unfold counters. plain.
  - apply Same. unfold counters. plain.
  - apply Same. unfold counters. beside; reflexivity.
  - apply Same. unfold counters. plain.
  - now apply Same.
  - (* the debounced text *)
    rewrite Nat.add_0_r. eexists. split; [reflexivity|]. unfold debounceElapsed.
    destruct (debounced st) as [[value due]|]; [|exact H].
    destruct (due <=? now (timers st))%N; [|exact H].
    cbv zeta. cbn [lastDistinct set_debounced].
    assert (I : forall x, counterSound k x -> counterSound k (translateInterim value x)).
    { intros x Hx. unfold translateInterim.
      destruct (negb (truthy (trim value))).
      - eapply counter_frame; [apply rebuild_counters | exact Hx].
      - destruct (manualMode x); [|exact Hx].
        destruct (String.eqb (selectedLanguage x) ""); [exact Hx|].
        apply translateTextOnce_counter. exact Hx. }
    destruct (lastDistinct st) as [previous|];
      [destruct (sameString previous value); [exact H|]|]; apply I; exact H.
  - (* the reply to a manual translation *)
    rewrite Nat.add_1_r.
    destruct (manualRequests st !! j) as [req|]; eexists; (split; [reflexivity|]);
      [|now apply counter_later].
    unfold manualNext. destruct (errorTruthy (error_of r)).
    + apply (counter_frame _ (settle st)); [reflexivity | now apply settle_counter].
    + cbv zeta.
      match goal with |- counterSound _ ?x =>
        apply (counter_frame _ (settle st) x); [|now apply settle_counter] end.
      unfold counters, emit, speakTranslation. repeat branch; reflexivity.
  - (* its failure *)
    rewrite Nat.add_1_r.
    destruct (manualRequests st !! j) as [req|]; eexists; (split; [reflexivity|]);
      [|now apply counter_later].
    apply (counter_frame _ (settle st)); [reflexivity | now apply settle_counter].
  - destruct (dueAt i (autoStarts st) (timers st)); apply Same; [|reflexivity].
    unfold counters. beside; reflexivity.
  - destruct (dueAt i (speakingTimers st) (timers st)); apply Same; [|reflexivity].
    unfold counters. beside; reflexivity.
  - apply Same. unfold counters. beside; reflexivity.
  - apply Same. unfold counters. beside; reflexivity.
  - apply Same. unfold counters. beside; reflexivity.
  - now apply Same.
  - now apply Same.
Qed.

Lemma replies_cons (ev : event) (evs : list event) :
  replies (ev :: evs) = replies [ev] + replies evs.
Proof. destruct ev; cbn; lia. Qed.

Lemma run_counter (evs : list event) :
  forall k st, counterSound k st ->
  exists st', run evs st = Some st' /\ counterSound (k + replies evs) st'.
Proof.
  induction evs as [|ev evs IH]; intros k st H; cbn [run].
  - exists st. cbn. now rewrite Nat.add_0_r.
  - destruct (step_counter k ev st H) as (st1 & -> & H1).
    destruct (IH _ st1 H1) as (st2 & R & H2).
    exists st2. split; [exact R|]. rewrite replies_cons, Nat.add_assoc. exact H2.
Qed.

(** Whatever the events, the counter of requests in flight is never
    negative, the busy flag is on exactly when it is positive, and the
    counter lies between the number of calls of [translate] less the
    callbacks that came and the number of calls; the calls are the requests
    sent, for segments and for typed text, and the calls that threw. *)
Theorem pending_counter_sound (evs : list event) :
  exists st, run evs init = Some st /\ counterSound (replies evs) st.
Proof.
  apply (run_counter evs 0 init). repeat split; cbn; lia.
Qed.

(** *** The boxes *)
Lemma renderTranslated_shownFor (s : segment) : renderTranslated s = shownFor s.
Proof.
  unfold renderTranslated, shownFor.
  destruct (translating s); [|reflexivity]. cbn [andb].
  destruct (translated s) as [|u w]; reflexivity.
Qed.

Lemma rebuild_displayed (st : component) :
  manualMode st = false -> displayed (rebuildDisplayStrings st).
Proof.
  intros HM. unfold rebuildDisplayStrings, displayed, originals.
  rewrite HM. cbn. split; [reflexivity|].
  f_equal. f_equal. apply map_ext. intros s. apply renderTranslated_shownFor.
Qed.

Lemma rebuild_speechOnly (st : component) :
  manualMode st = false -> manualRequests st = [] -> speechOnly (rebuildDisplayStrings st).
Proof.
  intros HM HR. split; [|split].
  - unfold rebuildDisplayStrings. now rewrite HM.
  - unfold rebuildDisplayStrings. now rewrite HM.
  - intros _. now apply rebuild_displayed.
Qed.

Lemma speechOnly_frame (st st' : component) :
  shown st' = shown st -> manualRequests st' = manualRequests st ->
  uncaught st <= uncaught st' -> speechOnly st -> speechOnly st'.
Proof.
  unfold shown, speechOnly, displayed, originals.
  intros [= -> -> -> -> -> ->] -> L (HM & HR & D).
  split; [exact HM|]. split; [exact HR|]. intros U. apply D. lia.
Qed.

Lemma appendSegment_speech (piece : jsstring) (st : component) :
  manualMode st = false /\ manualRequests st = [] ->
  manualMode (appendSegment piece st) = false /\ manualRequests (appendSegment piece st) = [].
Proof.
  intros [HM HR]. destruct (appendSegment_adds piece st) as (_ & _ & _ & _ & C).
  apply controls_inv in C as (_ & _ & _ & M & _).
  destruct (appendSegment_requests piece st) as (_ & _ & _ & _ & _ & R).
  split; congruence.
Qed.

Lemma flush_speechOnly (force : bool) (st : component) :
  manualMode st = false -> manualRequests st = [] ->
  exists st', flushSpeechBuffer force st = Some st' /\ speechOnly st'.
Proof.
  intros HM HR.
  pose proof (appendPieces_invariant
                (fun x => manualMode x = false /\ manualRequests x = [])
                (flushPieces force (speechBuffer st))
                (fun p s _ => appendSegment_speech p s)
                (flushPieces_good force (speechBuffer st)) st (conj HM HR)) as [M R].
  pose proof (appendPieces_uncaught (flushPieces force (speechBuffer st)) st) as U.
  destruct (flushSpeechBuffer_shape force st) as [(_ & F) | [(_ & _ & F) | (_ & T & F)]];
    cbv zeta in F; rewrite F; eexists; (split; [reflexivity|]).
  - now apply rebuild_speechOnly.
  - now apply rebuild_speechOnly.
  - rewrite T in U. split; [exact M|]. split; [exact R|]. lia.
Qed.

Lemma step_speechOnly (ev : event) (st : component) :
  typing ev = false -> speechOnly st ->
  exists st', step ev st = Some st' /\ speechOnly st'.
Proof.
  intros Ht H. pose proof H as (HM & HR & _).
  assert (Same : forall st', step ev st = Some st' -> shown st' = shown st ->
                 manualRequests st' = manualRequests st ->
                 exists st'', step ev st = Some st'' /\ speechOnly st'').
  { intros st' S E R. exists st'. split; [exact S|].
    apply (speechOnly_frame st st'); try assumption.
    destruct (step_uncaught ev st) as (st1 & S1 & L). rewrite S in S1.
    now injection S1 as <-. }
  destruct ev as [text isFinal | listening | kind | id r | id | h | | text | code | | dt
                 | | j r | j status errorMsg | i | i | enabled |
                 | savedLanguage enableTTS supported | t | throws];
    try discriminate Ht.
  - cbn [step] in *. unfold onTranscript in *. rewrite HM in *.
    assert (H1 : shown (resetSpeechPauseTimer st) = shown st) by (unfold shown; plain).
    assert (M1 : manualMode (resetSpeechPauseTimer st) = false).
    { unfold shown in H1. congruence. }
    assert (R1 : manualRequests (resetSpeechPauseTimer st) = []).
    { rewrite <- HR. plain. }
    destruct isFinal.
    + destruct (truthy (trim text)); cbn [negb] in *.
      * apply flush_speechOnly; [exact M1 | exact R1].
      * apply (Same (resetSpeechPauseTimer st)); [reflexivity | exact H1 | congruence].
    + eexists. split; [reflexivity|]. apply rebuild_speechOnly; [exact M1 | exact R1].
  - cbn [step] in *. unfold onListening in *.
    destruct (negb listening && isListening st).
    + apply flush_speechOnly; [rewrite <- HM | rewrite <- HR]; plain.
    + now apply (Same (set_isListening listening st)).
  - apply (Same (handleError kind st)); [reflexivity | unfold shown; plain | plain].
  - eexists. split; [reflexivity|]. unfold translateNext. apply rebuild_speechOnly.
    + cbn [manualMode settle set_isTranslating set_pendingTranslations].
      destruct (errorTruthy (error_of r)); cbn [manualMode set_errorMessage];
        now rewrite (proj1 (SegmentClaims.updateSegment_mode _ _ _)).
    + rewrite <- HR. unfold settle, updateSegment.
      destruct (errorTruthy (error_of r)); now destruct (list_find _ _) as [[idx s]|].
  - eexists. split; [reflexivity|]. unfold translateError. apply rebuild_speechOnly.
    + cbn [manualMode settle set_isTranslating set_pendingTranslations].
      now rewrite (proj1 (SegmentClaims.updateSegment_mode _ _ _)).
    + rewrite <- HR. unfold settle, updateSegment.
      now destruct (list_find _ _) as [[idx s]|].
  - cbn [step] in *. destruct (expire h (timers st)) as [[[] t]|];
      try (eapply Same; reflexivity).
    now apply flush_speechOnly.
  - apply (Same (scheduleAutoScrollToLatest st)); [reflexivity | unfold shown; plain | plain].
  - (* the language *)
    eapply Same; [reflexivity | |]; unfold shown; beside; reflexivity.
  - (* clearing *)
    exists (clearText st). split; [reflexivity|].
    assert (E : shown (clearText st) = (false, [], [], [], [], [])) by (unfold shown; plain).
    assert (R : manualRequests (clearText st) = []) by (rewrite <- HR; plain).
    unfold shown in E. injection E as E1 E2 E3 E4 E5 E6.
    split; [exact E1|]. split; [exact R|]. intros _.
    unfold displayed, originals. now rewrite E2, E3, E4, E5, E6.
  - now apply (Same (set_timers (elapse dt (timers st)) st)).
  - (* the debounced text *)
    cbn [step]. unfold debounceElapsed.
    destruct (debounced st) as [[value due]|] eqn:D; [|now exists st].
    destruct (due <=? now (timers st))%N; [|now exists st].
    cbv zeta. cbn [lastDistinct set_debounced].
    assert (F : forall x, shown x = shown st -> manualRequests x = manualRequests st ->
              uncaught x = uncaught st -> speechOnly x).
    { intros x E R U. apply (speechOnly_frame st x); try assumption. lia. }
    assert (I : forall x, shown x = shown st -> manualRequests x = manualRequests st ->
              uncaught x = uncaught st -> speechOnly (translateInterim value x)).
    { intros x E R U. pose proof (F x E R U) as (Mx & Rx & _).
      unfold translateInterim. rewrite Mx.
      destruct (negb (truthy (trim value))); [|now apply F].
      now apply rebuild_speechOnly. }
    destruct (lastDistinct st) as [previous|];
      [destruct (sameString previous value); [eexists; split; [reflexivity|]; now apply F|]|];
      (eexists; split; [reflexivity|]; now apply I).
  - (* the reply to a manual translation: none is awaited *)
    cbn [step]. rewrite HR. now exists st.
  - cbn [step]. rewrite HR. now exists st.
  - cbn [step] in *. destruct (dueAt i (autoStarts st) (timers st));
      (eapply Same; [reflexivity | |]); unfold shown; beside; reflexivity.
  - cbn [step] in *. destruct (dueAt i (speakingTimers st) (timers st));
      (eapply Same; [reflexivity | |]); unfold shown; beside; reflexivity.
  - eapply Same; [reflexivity | |]; unfold shown; beside; reflexivity.
  - eapply Same; [reflexivity | |]; unfold shown; beside; reflexivity.
  - eapply Same; [reflexivity | |]; unfold shown; beside; reflexivity.
  - now apply (Same (set_translator t st)).
  - now apply (Same (set_speakThrows throws st)).
Qed.

Lemma run_speechOnly (evs : list event) :
  forall st, forallb (fun ev => negb (typing ev)) evs = true -> speechOnly st ->
  exists st', run evs st = Some st' /\ speechOnly st'.
Proof.
  induction evs as [|ev evs IH]; intros st Ht H; cbn [run].
  - now exists st.
  - cbn in Ht. apply andb_prop in Ht as [T1 T2]. apply negb_true_iff in T1.
    destruct (step_speechOnly ev st T1 H) as (st1 & -> & H1). now apply IH.
Qed.

(** Along any events without typing the component stays in speech mode,
    and as long as no call of [translate] has thrown the two boxes show the
    segments: the original box is the originals of the segments followed by
    the interim line, one per line, and the translated box is, one per
    line, the placeholder for each pending segment whose translation is
    blank and the translation for every other, followed by the interim
    translation. *)
Theorem boxes_show_segments (evs : list event) :
  forallb (fun ev => negb (typing ev)) evs = true ->
  exists st, run evs init = Some st /\ manualMode st = false
             /\ (uncaught st = 0 -> displayed st).
Proof.
  intros Ht. destruct (run_speechOnly evs init Ht) as (st & R & M & _ & D).
  - split; [reflexivity|]. split; [reflexivity|]. intros _. split; reflexivity.
  - now exists st.
Qed.

(** *** Manual mode *)
Lemma rebuild_boxes (st : component) :
  manualMode st = true -> rebuildDisplayStrings st = st.
Proof. intros H. unfold rebuildDisplayStrings. now rewrite H. Qed.

Lemma updateSegment_boxes (id : nat) (p : patch) (st : component) :
  boxes (updateSegment id p st) = boxes st.
Proof. unfold updateSegment. now destruct (list_find _ _) as [[idx s]|]. Qed.

Lemma appendSegment_boxes (piece : jsstring) (st : component) :
  manualMode st = true -> boxes (appendSegment piece st) = boxes st.
Proof.
  intros HM. unfold appendSegment. cbv zeta.
  destruct (String.eqb (selectedLanguage st) ""); [|now destruct (translateThrows _ _)].
  rewrite rebuild_boxes.
  - now rewrite updateSegment_boxes.
  - rewrite (proj1 (SegmentClaims.updateSegment_mode _ _ _)). exact HM.
Qed.

Lemma appendPieces_boxes (pieces : list jsstring) :
  forall st, manualMode st = true ->
  boxes (fst (appendPieces pieces st)) = boxes st.
Proof.
  induction pieces as [|p ps IH]; intros st HM; cbn [appendPieces]; [reflexivity|].
  pose proof (appendSegment_boxes p st HM) as B.
  destruct (appendSegmentThrows p st); cbn [fst]; [exact B|].
  rewrite IH; [exact B|]. unfold boxes in B. congruence.
Qed.

Lemma flush_boxes (force : bool) (st : component) :
  manualMode st = true ->
  exists st', flushSpeechBuffer force st = Some st' /\ boxes st' = boxes st.
Proof.
  intros HM.
  pose proof (appendPieces_boxes (flushPieces force (speechBuffer st)) st HM) as B.
  destruct (flushSpeechBuffer_shape force st) as [(_ & F) | [(_ & _ & F) | (_ & _ & F)]];
    cbv zeta in F; rewrite F; eexists; (split; [reflexivity|]).
  - now rewrite rebuild_boxes.
  - rewrite rebuild_boxes; [exact B|].
    unfold boxes in B.
    cbn [manualMode set_interimTranslated set_interimOriginal set_speechBuffer].
    congruence.
  - exact B.
Qed.

Lemma step_boxes (ev : event) (st : component) :
  manualMode st = true -> writesBoxes ev = false ->
  exists st', step ev st = Some st' /\ boxes st' = boxes st.
Proof.
  intros HM Hw.
  assert (Same : forall st', boxes st' = boxes st ->
                 exists st'', Some st' = Some st'' /\ boxes st'' = boxes st).
  { intros st' E. now exists st'. }
  destruct ev as [text isFinal | listening | kind | id r | id | h | | text | code | | dt
                 | | j r | j status errorMsg | i | i | enabled |
                 | savedLanguage enableTTS supported | t | throws];
    try discriminate Hw; cbn [step].
  - unfold onListening. destruct (negb listening && isListening st).
    + destruct (flush_boxes true (clearSpeechPauseTimer (set_isListening listening st)))
        as (st' & F & B).
      * rewrite <- HM. plain.
      * exists st'. split; [exact F|]. rewrite B. unfold boxes. plain.
    + now apply Same.
  - apply Same. unfold boxes. plain.
  - apply Same. unfold translateNext. rewrite rebuild_boxes.
    + destruct (errorTruthy (error_of r)); apply (updateSegment_boxes id _ st).
    + cbn [manualMode settle set_isTranslating set_pendingTranslations].
      destruct (errorTruthy (error_of r)); cbn [manualMode set_errorMessage];
        now rewrite (proj1 (SegmentClaims.updateSegment_mode _ _ _)).
  - apply Same. unfold translateError. rewrite rebuild_boxes.
    + apply (updateSegment_boxes id _ st).
    + cbn [manualMode settle set_isTranslating set_pendingTranslations].
      now rewrite (proj1 (SegmentClaims.updateSegment_mode _ _ _)).
  - destruct (expire h (timers st)) as [[[] t]|]; try (now apply Same).
    apply (flush_boxes true (set_timers t st)). exact HM.
  - apply Same. unfold boxes. plain.
  - apply Same. unfold boxes. beside; reflexivity.
  - now apply Same.
  - (* the debounced text *)
    apply Same. unfold debounceElapsed.
    destruct (debounced st) as [[value due]|]; [|reflexivity].
    destruct (due <=? now (timers st))%N; [|reflexivity].
    cbv zeta. cbn [lastDistinct set_debounced].
    assert (I : forall x, boxes x = boxes st -> boxes (translateInterim value x) = boxes st).
    { intros x E. assert (Mx : manualMode x = true) by (unfold boxes in E; congruence).
      unfold translateInterim. rewrite Mx.
      destruct (negb (truthy (trim value))); [now rewrite rebuild_boxes|].
      rewrite <- E. unfold boxes. beside; reflexivity. }
    destruct (lastDistinct st) as [previous|];
      [destruct (sameString previous value); [reflexivity|]|]; now apply I.
  - destruct (manualRequests st !! j); apply Same; [|reflexivity].
    unfold boxes. beside; reflexivity.
  - destruct (dueAt i (autoStarts st) (timers st)); apply Same; [|reflexivity].
    unfold boxes. beside; reflexivity.
  - destruct (dueAt i (speakingTimers st) (timers st)); apply Same; [|reflexivity].
    unfold boxes. beside; reflexivity.
  - apply Same. unfold boxes. beside; reflexivity.
  - apply Same. unfold boxes. beside; reflexivity.
  - apply Same. unfold boxes. beside; reflexivity.
  - now apply Same.
  - now apply Same.
Qed.

(** In manual mode nothing but typing, clearing, a transcript or the reply
    to the translation of typed text writes the two boxes: late replies and
    failures of segment requests, flushes by the pause timer or by the end
    of listening, the debounced translation and its failure, the choice of
    a language, errors and timers leave the mode and both texts as they
    are. *)
Theorem manual_mode_keeps_boxes (evs : list event) :
  forall st,
    manualMode st = true ->
    forallb (fun ev => negb (writesBoxes ev)) evs = true ->
    exists st', run evs st = Some st'
      /\ manualMode st' = true
      /\ originalText st' = originalText st
      /\ translatedText st' = translatedText st.
Proof.
  induction evs as [|ev evs IH]; intros st HM Hw; cbn [run].
  - now exists st.
  - cbn in Hw. apply andb_prop in Hw as [W1 W2]. apply negb_true_iff in W1.
    destruct (step_boxes ev st HM W1) as (st1 & -> & B).
    unfold boxes in B. injection B as B1 B2 B3.
    destruct (IH st1 ltac:(congruence) W2) as (st2 & R & M & O & T).
    exists st2. repeat split; congruence.
Qed.

(** *** Late replies *)
Lemma updateSegment_others (id : nat) (p : patch) (st : component) :
  length (segments (updateSegment id p st)) = length (segments st)
  /\ (~ In id (ids st) -> segments (updateSegment id p st) = segments st)
  /\ (forall i s, segments st !! i = Some s -> seg_id s <> id ->
        segments (updateSegment id p st) !! i = Some s).
Proof.
  unfold updateSegment.
  destruct (list_find (fun s => seg_id s = id) (segments st)) as [[idx x]|] eqn:F.
  - apply list_find_Some in F as (F1 & F2 & _). cbn.
    split; [apply length_insert|]. split.
    + intros Hn. exfalso. apply Hn. unfold ids. apply in_map_iff. exists x.
      split; [exact F2|]. apply list_elem_of_In. eapply list_elem_of_lookup_2. exact F1.
    + intros i s Hi Hs. rewrite list_lookup_insert_ne; [exact Hi|].
      intros ->. rewrite F1 in Hi. congruence.
  - auto.
Qed.

(** A reply, or a failure, of the request of segment [id] changes no other
    segment: when no segment has that id (the list was cleared meanwhile)
    the list is unchanged; any segment with another id keeps its place and
    its content; the list keeps its length. *)
Theorem reply_touches_own_segment (id : nat) (r : translateResult) (st : component) :
  (~ In id (ids st) ->
     segments (translateNext id r st) = segments st
     /\ segments (translateError id st) = segments st)
  /\ (forall i s, segments st !! i = Some s -> seg_id s <> id ->
        segments (translateNext id r st) !! i = Some s
        /\ segments (translateError id st) !! i = Some s)
  /\ length (segments (translateNext id r st)) = length (segments st)
  /\ length (segments (translateError id st)) = length (segments st).
Proof.
  assert (N : forall x, segments (rebuildDisplayStrings (settle x)) = segments x).
  { intros x. destruct (rebuildDisplayStrings_keeps (settle x)) as (R & _).
    rewrite R. reflexivity. }
  assert (E : segments (translateNext id r st)
              = segments (updateSegment id (resolved (replyText r)) st)).
  { unfold translateNext, replyText. rewrite N.
    destruct (errorTruthy (error_of r)); reflexivity. }
  assert (E' : segments (translateError id st)
               = segments (updateSegment id (resolved []) st)).
  { unfold translateError. now rewrite N. }
  rewrite E, E'.
  destruct (updateSegment_others id (resolved (replyText r)) st) as (A1 & A2 & A3).
  destruct (updateSegment_others id (resolved []) st) as (B1 & B2 & B3).
  repeat split; auto.
Qed.

Lemma boxes_show_segments_witness :
  exists st,
    run [LanguageChanged "es"; TranscriptReceived (lit "Hola. Que tal") true;
         TranslateReplied 1 (Examples.reply (lit "Hello.")); ClearPressed;
         TranscriptReceived (lit "adios") false] init
    = Some st
    /\ manualMode st = false /\ (uncaught st = 0 -> displayed st).
Proof.
  apply (boxes_show_segments
           [LanguageChanged "es"; TranscriptReceived (lit "Hola. Que tal") true;
            TranslateReplied 1 (Examples.reply (lit "Hello.")); ClearPressed;
            TranscriptReceived (lit "adios") false]).
  reflexivity.
Defined.

Lemma manual_mode_keeps_boxes_witness :
  let st := onTextChange (lit "bonjour") (appendSegment (lit "Hola.") Examples.listeningEs) in
  exists st',
    run [TranslateReplied 1 (Examples.reply (lit "Hello.")); ListeningChanged false;
         TranslateFailed 1; ErrorReceived "network"; Elapsed 900; DebounceElapsed;
         ManualFailed 0 0 "Unknown error"] st = Some st'
    /\ manualMode st' = true
    /\ originalText st' = originalText st
    /\ translatedText st' = translatedText st.
Proof.
  apply (manual_mode_keeps_boxes
           [TranslateReplied 1 (Examples.reply (lit "Hello.")); ListeningChanged false;
            TranslateFailed 1; ErrorReceived "network"; Elapsed 900; DebounceElapsed;
            ManualFailed 0 0 "Unknown error"]
           (onTextChange (lit "bonjour")
              (appendSegment (lit "Hola.") Examples.listeningEs)));
    reflexivity.
Defined.

Lemma reply_touches_own_segment_witness :
  segments (translateNext 1 (Examples.reply (lit "Hello."))
              (clearText (appendSegment (lit "Hola.") Examples.listeningEs)))
  = segments (clearText (appendSegment (lit "Hola.") Examples.listeningEs)).
Proof.
  assert (H : ~ In 1 (ids (clearText (appendSegment (lit "Hola.") Examples.listeningEs))))
    by (vm_compute; tauto).
  exact (proj1 (proj1 (reply_touches_own_segment 1 (Examples.reply (lit "Hello."))
                         (clearText (appendSegment (lit "Hola.") Examples.listeningEs)))
                 H)).
Defined.





End ComponentExtras.
